(** * Feed ranking and personalization engine: a shallow embedding

    The development follows the JavaScript sources of the repository:

    - [models/User.js]                      ([Module User])
    - [models/Post.js]                      ([Module PostModel])
    - [utils/constants.js]                  ([Module Constants])
    - [services/rankingService.js]          ([Module RankingService])
    - [services/cacheService.js]            ([Module CacheService])
    - [services/personalizationService.js]  ([Module PersonalizationService])
    - [controllers/feedController.js]       ([Module FeedController])

    Modelling conventions.

    - Integer valued JavaScript Numbers (like counters, engagement counters,
      [Date.getTime()] milliseconds) are [Z].  The arithmetic of Numbers is
      exact on integers up to 2^53 in absolute value; statements that
      depend on an exact increment say so.
    - Numbers produced by [Math.sqrt], [Math.pow], [Math.exp], [Math.log] and
      the scores built from them are real numbers [R]: the rounding of IEEE
      doubles is not modelled.  Where a score can leave the reals it is a
      [Js.Number], with [Infinity], [-Infinity] and [NaN]: [Math.exp] and
      [Math.pow] overflow, [Math.log] of 0 or of a negative Number, and the
      Numbers a malformed field converts to.
    - Numbers that only take part in comparisons and quotients of integers
      ([diversityFactor], [Math.random()], the tag overlap ratio) are
      rationals [Q], which keeps the code executable.
    - Strings are ASCII: [toLowerCase] and [trim] act on that range.
    - [new Date()] / [Date.now()] is an explicit argument [now].
    - [Math.random()] is an explicit stream of draws.
    - A [throw] is the [Throw] case of [Js.Result]; [try]/[catch] is
      [Js.try_catch]. *)

From Stdlib Require Import ZArith QArith Reals Lra Lia.
From stdpp Require Import base decidable option list sorting gmap strings pretty.

(** ** JavaScript runtime fragments *)

Module Js.

(** Completion of a JavaScript computation: a value, or a thrown error. *)
Inductive Result (A : Type) : Type :=
| Ok (a : A)
| Throw (msg : string).
Arguments Ok {A} a.
Arguments Throw {A} msg.

Definition ret {A} (a : A) : Result A := Ok a.

Definition bind {A B} (m : Result A) (k : A → Result B) : Result B :=
  match m with
  | Ok a => k a
  | Throw e => Throw e
  end.

(** [try { body } catch (error) { handler(error) }] *)
Definition try_catch {A} (body : Result A) (handler : string → Result A) : Result A :=
  match body with
  | Ok a => Ok a
  | Throw e => handler e
  end.

(** [for (const x of xs) acc = f(acc, x)], stopping at the first throw. *)
Fixpoint foldM {A S} (f : S → A → Result S) (s : S) (xs : list A) : Result S :=
  match xs with
  | [] => Ok s
  | x :: xs' => bind (f s x) (λ s', foldM f s' xs')
  end.

(** [xs.map(f)] for a callback that may throw. *)
Fixpoint mapM {A B} (f : A → Result B) (xs : list A) : Result (list B) :=
  match xs with
  | [] => Ok []
  | x :: xs' => bind (f x) (λ y, bind (mapM f xs') (λ ys, Ok (y :: ys)))
  end.

(** JavaScript Numbers that may leave the reals.  A finite Number is a
    real number (the rounding of doubles is not modelled and zero has no
    sign); [Infinity], [-Infinity] and [NaN] behave as in IEEE 754. *)
Inductive Number : Type :=
| Fin (r : R)
| Infinity
| NegInfinity
| NaN.

(** [r * Infinity] for a finite [r]: the infinity of the sign of [r], and
    [NaN] for 0. *)
Definition signedInfinity (r : R) : Number :=
  if Rlt_dec 0 r then Infinity else if Rlt_dec r 0 then NegInfinity else NaN.

Definition neg (a : Number) : Number :=
  match a with
  | Fin x => Fin (- x)
  | Infinity => NegInfinity
  | NegInfinity => Infinity
  | NaN => NaN
  end.

Definition add (a b : Number) : Number :=
  match a, b with
  | NaN, _ => NaN
  | _, NaN => NaN
  | Fin x, Fin y => Fin (x + y)
  | Infinity, NegInfinity => NaN
  | NegInfinity, Infinity => NaN
  | Infinity, _ => Infinity
  | _, Infinity => Infinity
  | NegInfinity, _ => NegInfinity
  | _, NegInfinity => NegInfinity
  end.

Definition sub (a b : Number) : Number := add a (neg b).

Definition mul (a b : Number) : Number :=
  match a, b with
  | NaN, _ => NaN
  | _, NaN => NaN
  | Fin x, Fin y => Fin (x * y)
  | Fin x, Infinity => signedInfinity x
  | Infinity, Fin x => signedInfinity x
  | Fin x, NegInfinity => signedInfinity (- x)
  | NegInfinity, Fin x => signedInfinity (- x)
  | Infinity, Infinity => Infinity
  | NegInfinity, NegInfinity => Infinity
  | Infinity, NegInfinity => NegInfinity
  | NegInfinity, Infinity => NegInfinity
  end.

Definition div (a b : Number) : Number :=
  match a, b with
  | NaN, _ => NaN
  | _, NaN => NaN
  | Fin x, Fin y => if Req_dec_T y 0 then signedInfinity x else Fin (x / y)
  | Fin _, _ => Fin 0
  | Infinity, Fin y => if Rlt_dec y 0 then NegInfinity else Infinity
  | NegInfinity, Fin y => if Rlt_dec y 0 then Infinity else NegInfinity
  | _, _ => NaN
  end.

(** [a > b]: false as soon as one side is [NaN]. *)
Definition gt (a b : Number) : bool :=
  match a, b with
  | Fin x, Fin y => if Rlt_dec y x then true else false
  | Infinity, Fin _ => true
  | Infinity, NegInfinity => true
  | Fin _, NegInfinity => true
  | _, _ => false
  end.

(** [Math.max(a, b)] and [Math.min(a, b)]: [NaN] as soon as one argument
    is [NaN]. *)
Definition Math_max (a b : Number) : Number :=
  match a, b with
  | NaN, _ => NaN
  | _, NaN => NaN
  | Infinity, _ => Infinity
  | _, Infinity => Infinity
  | NegInfinity, _ => b
  | _, NegInfinity => a
  | Fin x, Fin y => Fin (Rmax x y)
  end.

Definition Math_min (a b : Number) : Number :=
  match a, b with
  | NaN, _ => NaN
  | _, NaN => NaN
  | NegInfinity, _ => NegInfinity
  | _, NegInfinity => NegInfinity
  | Infinity, _ => b
  | _, Infinity => a
  | Fin x, Fin y => Fin (Rmin x y)
  end.

(** [Math.exp] overflows to [Infinity] above the logarithm of
    [Number.MAX_VALUE], about 709.782712893384. *)
Definition EXP_OVERFLOW : R := 709782712893384 / 1000000000000.

Definition Math_exp (a : Number) : Number :=
  match a with
  | Fin x => if Rlt_dec EXP_OVERFLOW x then Infinity else Fin (exp x)
  | Infinity => Infinity
  | NegInfinity => Fin 0
  | NaN => NaN
  end.

(** [Math.log]: [-Infinity] at 0 and [NaN] below. *)
Definition Math_log (a : Number) : Number :=
  match a with
  | Fin x => if Rlt_dec 0 x then Fin (ln x) else if Rlt_dec x 0 then NaN else NegInfinity
  | Infinity => Infinity
  | NegInfinity => NaN
  | NaN => NaN
  end.

(** [Math.pow(0.5, a)], which is [2 ^ (- a)]: it overflows to [Infinity]
    from the exponent 1024 on. *)
Definition Math_pow_half (a : Number) : Number :=
  match a with
  | Fin x => if Rle_dec x (- 1024) then Infinity else Fin (Rpower (5 / 10) x)
  | Infinity => Fin 0
  | NegInfinity => Infinity
  | NaN => NaN
  end.

(** [String.prototype.toLowerCase] on the ASCII range. *)
Definition lower_ascii (c : Ascii.ascii) : Ascii.ascii :=
  let n := Ascii.nat_of_ascii c in
  if (65 <=? n) && (n <=? 90) then Ascii.ascii_of_nat (n + 32) else c.

Fixpoint toLowerCase (s : string) : string :=
  match s with
  | EmptyString => EmptyString
  | String c r => String (lower_ascii c) (toLowerCase r)
  end.

(** [String.prototype.trim]; white space in the ASCII range. *)
Definition isSpace (c : Ascii.ascii) : bool :=
  let n := Ascii.nat_of_ascii c in
  ((9 <=? n) && (n <=? 13)) || (n =? 32).

Fixpoint trimStart (s : string) : string :=
  match s with
  | EmptyString => EmptyString
  | String c r => if isSpace c then trimStart r else s
  end.

Fixpoint trimEnd (s : string) : string :=
  match s with
  | EmptyString => EmptyString
  | String c r =>
      match trimEnd r with
      | EmptyString => if isSpace c then EmptyString else String c EmptyString
      | r' => String c r'
      end
  end.

Definition trim (s : string) : string := trimEnd (trimStart s).

(** [Array.prototype.sort(compareFn)].  ECMAScript 2019 (and Node 18, the
    runtime of the Dockerfile) requires the sort to be stable; for a
    consistent comparator the result is then unique, and it is the one
    computed by a stable insertion sort.  [x] is placed after every
    element [y] with [compareFn x y > 0]. *)
Section Sort.
Context {A : Type} (compareFn : A → A → Z).

Fixpoint sort_insert (x : A) (l : list A) : list A :=
  match l with
  | [] => [x]
  | y :: r => if (0 <? compareFn x y)%Z then y :: sort_insert x r else x :: y :: r
  end.

Definition sort (l : list A) : list A := foldr sort_insert [] l.
End Sort.

(** [array.slice(0, end)]: a negative [end] counts from the end of the
    array. *)
Definition slice0 {A : Type} (l : list A) (end_ : Z) : list A :=
  if (end_ <? 0)%Z
  then take (Z.to_nat (Z.of_nat (length l) + end_)) l
  else take (Z.to_nat end_) l.

End Js.

Notation "x ←! m ; k" := (Js.bind m (λ x, k))
  (at level 100, m at next level, right associativity, only parsing).

Declare Scope number_scope.
Delimit Scope number_scope with num.
Bind Scope number_scope with Js.Number.
Infix "+" := Js.add : number_scope.
Infix "-" := Js.sub : number_scope.
Infix "*" := Js.mul : number_scope.
Infix "/" := Js.div : number_scope.
Notation "- a" := (Js.neg a) : number_scope.

(** ** models/User.js : the bounded tag preference profile *)

Module User.

(** One element of [likedTags]. *)
Record LikedTag : Type := mkLikedTag {
  tag : string;
  count : Z;
  lastLikedAt : Z
}.

#[global] Instance LikedTag_eq_dec : EqDecision LikedTag.
Proof. solve_decision. Defined.

(** [(a, b) => b.count - a.count] *)
Definition byCountDesc (a b : LikedTag) : Z := (count b - count a)%Z.

(** Entries in non-increasing order of count: the order the comparator
    asks for. *)
Definition countDesc (a b : LikedTag) : Prop := (count b ≤ count a)%Z.

(** The setters of the schema path [likedTags.tag] ([trim: true],
    [lowercase: true], lines 70-75), applied to the tag of every pushed
    entry. *)
Definition castTag (t : string) : string := Js.toLowerCase (Js.trim t).

(** Lines 159-170 of [addLikedTag]: increment the entry found by
    [likedTags.find(lt => lt.tag === tag.toLowerCase())], or push a new
    entry with count 1.  [find] compares with the lower-cased tag as
    given, while the pushed entry stores the tag as the schema casts it:
    a tag with surrounding white space is stored trimmed and is not found
    again by the next call with the same tag. *)
Definition recordLike (likedTags : list LikedTag) (t : string) (now : Z) : list LikedTag :=
  let key := Js.toLowerCase t in
  match list_find (λ lt, tag lt = key) likedTags with
  | Some (i, existingTag) =>
      <[ i := mkLikedTag (tag existingTag) (count existingTag + 1) now ]> likedTags
  | None =>
      likedTags ++ [ mkLikedTag (castTag key) 1 now ]
  end.

(** Lines 172-176: keep only the top 100 tags. *)
Definition keepTop (likedTags : list LikedTag) : list LikedTag :=
  if decide (100 < length likedTags)
  then take 100 (Js.sort byCountDesc likedTags)
  else likedTags.

(** [userSchema.methods.addLikedTag]; the returned list is the value of
    [this.likedTags] handed to [this.save()]. *)
Definition addLikedTag (likedTags : list LikedTag) (t : string) (now : Z) : list LikedTag :=
  keepTop (recordLike likedTags t now).

(** A history of [addLikedTag] calls, oldest first, each with the tag
    and the clock reading of the call. *)
Definition replay (likedTags : list LikedTag) (calls : list (string * Z)) : list LikedTag :=
  foldl (λ p c, addLikedTag p c.1 c.2) likedTags calls.

(** The weight stored for a tag: the count of the entry [find] returns,
    and 0 when the tag has no entry. *)
Definition weight (likedTags : list LikedTag) (t : string) : Z :=
  match list_find (λ lt, tag lt = Js.toLowerCase t) likedTags with
  | Some (_, lt) => count lt
  | None => 0%Z
  end.

(** [n] successive calls with the same tag, at the times given by [clock]. *)
Fixpoint repeatLike (likedTags : list LikedTag) (t : string) (clock : nat → Z) (n : nat)
  : list LikedTag :=
  match n with
  | O => likedTags
  | S n' => addLikedTag (repeatLike likedTags t clock n') t (clock n')
  end.

(** [userSchema.methods.getPreferredTags]: [limit] defaults to 20.  The
    sort is in place, so the second component is [this.likedTags] after
    the call. *)
Definition getPreferredTags (likedTags : list LikedTag) (limit : option Z)
  : list string * list LikedTag :=
  let sorted := Js.sort byCountDesc likedTags in
  (tag <$> Js.slice0 sorted (default 20%Z limit), sorted).

(** The truncation rule as the specification words it: when the update
    leaves more than 100 entries, exactly 100 are kept in descending order
    of count, and among entries of equal count the more recently liked
    ones are kept: whatever is evicted was liked no later than any kept
    entry of the same count. *)
Definition evictsLeastRecentTies (likedTags : list LikedTag) (t : string) (now : Z) : Prop :=
  let updated := recordLike likedTags t now in
  let kept := addLikedTag likedTags t now in
  100 < length updated →
  length kept = 100
  ∧ StronglySorted countDesc kept
  ∧ ∀ a b, a ∈ kept → b ∈ updated → b ∉ kept → count a = count b →
           (lastLikedAt b ≤ lastLikedAt a)%Z.

End User.

(** ** utils/constants.js *)

Module Constants.

Definition DEFAULT_PAGE_SIZE : Z := 20.
Definition MAX_PAGE_SIZE : Z := 100.

(** [FEED_CACHE_TTL], in seconds. *)
Definition FEED_CACHE_TTL : Z := 300.

Definition HOUR_IN_MS : Z := 60 * 60 * 1000.
Definition DAY_IN_MS : Z := 24 * 60 * 60 * 1000.

(** The three ranking weights are configuration. *)
Record Weights : Type := mkWeights {
  PERSONALIZATION_WEIGHT : R;
  RECENCY_WEIGHT : R;
  POPULARITY_WEIGHT : R
}.

(** [parseFloat(process.env.X) || d]: an unset or unparsable variable
    gives NaN, and NaN and 0 are both falsy. *)
Definition orDefault (env : option R) (d : R) : R :=
  match env with
  | Some x => if Req_dec_T x 0 then d else x
  | None => d
  end.

Definition weightsFromEnv (p r q : option R) : Weights :=
  mkWeights (orDefault p (4 / 10)) (orDefault r (3 / 10)) (orDefault q (3 / 10)).

Definition defaultWeights : Weights := weightsFromEnv None None None.

(** [CACHE_KEYS] *)
Definition USER_FEED (userId : string) : string := "feed:user:" +:+ userId.
Definition USER_LIKED_TAGS (userId : string) : string := "tags:user:" +:+ userId.

End Constants.

(** ** services/rankingService.js *)

Module RankingService.
Import Js Constants.

(** The [createdAt] field as the scoring code can meet it. *)
Inductive JsDate : Type :=
| DateMissing              (** [undefined] or [null] *)
| DateValue (ms : Z)       (** a [Date]; [getTime()] is [ms] *)
| DateInvalid              (** an invalid [Date]; [getTime()] is [NaN] *)
| DateMalformed.           (** a truthy value without [getTime], such as
                               the ISO string left by a JSON round trip *)

#[global] Instance JsDate_eq_dec : EqDecision JsDate.
Proof. solve_decision. Defined.

(** An engagement counter as the scoring code can meet it. *)
Inductive JsCounter : Type :=
| CounterMissing           (** [undefined] or [null] *)
| CounterValue (n : Z)     (** a value that converts to the integer [n] *)
| CounterNaN.              (** a value that converts to [NaN]: [NaN]
                               itself, a non-numeric string, an object *)

#[global] Instance JsCounter_eq_dec : EqDecision JsCounter.
Proof. solve_decision. Defined.

(** A candidate post. *)
Record Post : Type := mkPost {
  _id : string;
  tags : option (list string);
  createdAt : JsDate;
  likesCount : JsCounter;
  commentsCount : JsCounter;
  sharesCount : JsCounter;
  viewsCount : JsCounter
}.

#[global] Instance Post_eq_dec : EqDecision Post.
Proof. solve_decision. Defined.

Record Engagement : Type := mkEngagement {
  e_likesCount : JsCounter;
  e_commentsCount : JsCounter;
  e_sharesCount : JsCounter;
  e_viewsCount : JsCounter
}.

(** [{ ...post, rankingScore, _personalizedFor }] *)
Record RankedPost : Type := mkRankedPost {
  post : Post;
  rankingScore : Number;
  _personalizedFor : string
}.

(** Callback of the first loop of [calculatePersonalizationScore]: the
    accumulator is the preference map and the total weight. *)
Definition setPreference (acc : gmap string Z * Z) (lt : User.LikedTag) : gmap string Z * Z :=
  (<[ toLowerCase (User.tag lt) := User.count lt ]> acc.1, (acc.2 + User.count lt)%Z).

Definition tagPreferences (userLikedTags : list User.LikedTag) : gmap string Z * Z :=
  foldl setPreference (∅, 0%Z) userLikedTags.

(** Callback of the second loop: the accumulator is [matchScore] and
    [matchedTags]. *)
Definition matchTag (prefs : gmap string Z) (totalTagWeight : Z) (acc : R * nat) (t : string)
  : R * nat :=
  match prefs !! toLowerCase t with
  | Some tagWeight => ((acc.1 + IZR tagWeight / IZR totalTagWeight)%R, S acc.2)
  | None => acc
  end.

Definition matchTags (prefs : gmap string Z) (totalTagWeight : Z) (postTags : list string)
  : R * nat :=
  foldl (matchTag prefs totalTagWeight) (0%R, 0) postTags.

Definition calculatePersonalizationScore
    (postTags : option (list string)) (userLikedTags : list User.LikedTag) : R :=
  match postTags with
  | None => 0%R
  | Some postTags =>
      if decide (length postTags = 0 ∨ length userLikedTags = 0) then 0%R else
      let '(userTagPreferences, totalTagWeight) := tagPreferences userLikedTags in
      if decide (totalTagWeight = 0%Z) then 0%R else
      let '(matchScore, matchedTags) := matchTags userTagPreferences totalTagWeight postTags in
      let normalizedScore :=
        if decide (0 < length postTags)
        then (matchScore / sqrt (INR (length postTags)))%R else 0%R in
      let matchPercentage := (INR matchedTags / INR (length postTags))%R in
      Rmin (normalizedScore * (1 + matchPercentage)) 1
  end.

(** [createdAt.getTime()] *)
Definition getTime (createdAt : JsDate) : Result Number :=
  match createdAt with
  | DateValue ms => Ok (Fin (IZR ms))
  | DateInvalid => Ok NaN
  | _ => Throw "createdAt.getTime is not a function"
  end.

(** [!createdAt] *)
Definition isMissing (createdAt : JsDate) : bool :=
  match createdAt with DateMissing => true | _ => false end.

Definition calculateRecencyScore (createdAt : JsDate) (now : Z) : Result Number :=
  if isMissing createdAt then Ok (Fin 0) else
  t ←! getTime createdAt;
  let ageInMs := (Fin (IZR now) - t)%num in
  let ageInDays := (ageInMs / Fin (IZR DAY_IN_MS))%num in
  let halfLife := Fin 2 in
  let decayFactor := Math_pow_half (ageInDays / halfLife)%num in
  Ok (Math_max (Fin 0) (Math_min (Fin 1) decayFactor)).

(** The Number an engagement counter stands for in the arithmetic: the
    destructuring default [= 0] replaces [undefined], and [null] converts
    to 0. *)
Definition toNumber (c : JsCounter) : Number :=
  match c with
  | CounterMissing => Fin 0
  | CounterValue n => Fin (IZR n)
  | CounterNaN => NaN
  end.

(** The integer a numeric counter counts as. *)
Definition counter (c : JsCounter) : Z :=
  match c with
  | CounterValue n => n
  | _ => 0%Z
  end.

Definition isNumeric (c : JsCounter) : bool :=
  match c with CounterNaN => false | _ => true end.

Definition calculatePopularityScore (engagement : Engagement) (createdAt : JsDate) (now : Z)
  : Result Number :=
  let likesCount := toNumber (e_likesCount engagement) in
  let commentsCount := toNumber (e_commentsCount engagement) in
  let sharesCount := toNumber (e_sharesCount engagement) in
  let viewsCount := toNumber (e_viewsCount engagement) in
  let engagementScore :=
    (likesCount * Fin 1 + commentsCount * Fin 2 + sharesCount * Fin 3)%num in
  let engagementRate :=
    if gt viewsCount (Fin 0) then (engagementScore / viewsCount)%num else Fin 0 in
  ageInHours ←! (if isMissing createdAt then Ok (Fin 0)
                 else t ←! getTime createdAt;
                      Ok ((Fin (IZR now) - t) / Fin (IZR (1000 * 60 * 60)))%num);
  let timeAdjustment := Math_max (Fin (1 / 10)) (Math_exp (- ageInHours / Fin 24)%num) in
  let rawScore := (Math_log (engagementScore + Fin 1) / Math_log (Fin 1000))%num in
  let adjustedScore := (rawScore * timeAdjustment)%num in
  let finalScore := (adjustedScore * Fin (7 / 10) + engagementRate * Fin (3 / 10))%num in
  Ok (Math_min (Fin 1) finalScore).

(** The post with every counter that the arithmetic reads as 0 written
    out: a missing counter, and a view counter that is not a number (the
    test [viewsCount > 0] is false for it). *)
Definition zeroFilled (p : Post) : Post :=
  let fill c := match c with CounterMissing => CounterValue 0 | _ => c end in
  let fillViews c := match c with CounterValue n => c | _ => CounterValue 0 end in
  mkPost (_id p) (tags p) (createdAt p)
    (fill (likesCount p)) (fill (commentsCount p)) (fill (sharesCount p))
    (fillViews (viewsCount p)).

(** The body of the [try] block of [calculateRankingScore].  [nowR] is
    the clock read by [calculateRecencyScore], [nowP] the one read by
    [calculatePopularityScore]. *)
Definition rankingScoreBody (w : Weights) (p : Post) (userLikedTags : list User.LikedTag)
    (nowR nowP : Z) : Result Number :=
  let personalizationScore := Fin (calculatePersonalizationScore (tags p) userLikedTags) in
  recencyScore ←! calculateRecencyScore (createdAt p) nowR;
  popularityScore ←!
    calculatePopularityScore
      (mkEngagement (likesCount p) (commentsCount p) (sharesCount p) (viewsCount p))
      (createdAt p) nowP;
  let finalScore :=
    (personalizationScore * Fin (PERSONALIZATION_WEIGHT w)
     + recencyScore * Fin (RECENCY_WEIGHT w)
     + popularityScore * Fin (POPULARITY_WEIGHT w))%num in
  Ok finalScore.

Definition calculateRankingScore (w : Weights) (p : Post) (userLikedTags : list User.LikedTag)
    (nowR nowP : Z) : Result Number :=
  try_catch (rankingScoreBody w p userLikedTags nowR nowP) (λ _error, Ok (Fin 0)).

(** [posts.map(post => ({...}))]; [clock i] gives the two clock readings
    taken while post number [i] is scored. *)
Definition annotate (w : Weights) (userLikedTags : list User.LikedTag)
    (ip : nat * Post) (clock : nat → Z * Z) : Result RankedPost :=
  score ←! calculateRankingScore w ip.2 userLikedTags (clock ip.1).1 (clock ip.1).2;
  Ok (mkRankedPost ip.2 score
        (if decide (0 < length userLikedTags) then "user" else "general")).

Definition calculateBatchRankingScores (w : Weights) (posts : list Post)
    (userLikedTags : list User.LikedTag) (clock : nat → Z * Z) : Result (list RankedPost) :=
  mapM (λ ip, annotate w userLikedTags ip clock) (imap pair posts).

(** [calculateTagOverlap]: Jaccard ratio of the two lower-cased tag sets. *)
Definition calculateTagOverlap (tags1 tags2 : list string) : Q :=
  if decide (length tags1 = 0 ∨ length tags2 = 0) then 0%Q else
  let set1 : gset string := list_to_set (toLowerCase <$> tags1) in
  let set2 : gset string := list_to_set (toLowerCase <$> tags2) in
  let intersection := filter (λ x, x ∈ set2) set1 in
  let union := set1 ∪ set2 in
  (inject_Z (Z.of_nat (size intersection)) / inject_Z (Z.of_nat (size union)))%Q.

(** [applyDiversity] only reads [.tags] and compares objects by identity
    ([indexOf]), so it is stated for any element type with these two. *)
Section Diversity.
Context {A : Type} `{EqDecision A} (tagsOf : A → option (list string)).

(** The callback of [remaining.filter]: less than 50% tag overlap. *)
Definition isDifferent (lastPost candidate : A) : bool :=
  if Qlt_le_dec
       (calculateTagOverlap (default [] (tagsOf lastPost)) (default [] (tagsOf candidate)))
       (1 # 2)
  then true else false.

(** [remaining.indexOf(x)]; [None] stands for -1. *)
Definition indexOf (x : A) (remaining : list A) : option nat :=
  fst <$> list_find (λ y, y = x) remaining.

(** [remaining.splice(idx, 1)]; a start of -1 counts from the end. *)
Definition splice1 (idx : option nat) (remaining : list A) : list A :=
  match idx with
  | Some i => delete i remaining
  | None => take (length remaining - 1) remaining
  end.

(** The [while (remaining.length > 0)] loop.  [diversified] is never
    empty inside the loop, so it is carried as the pair of its front
    part and its last element [lastPost].  [draws k] is the [k]-th
    value returned by [Math.random()], which is only called when
    [different] is not empty.  One element leaves [remaining] per
    iteration, so [fuel = length remaining] iterations empty it. *)
Fixpoint diversifyLoop (fuel : nat) (diversified : list A) (lastPost : A)
    (remaining : list A) (diversityFactor : Q) (draws : nat → Q) (k : nat) : list A :=
  match fuel, remaining with
  | S fuel', next :: rest =>
      let different := filter (λ p, isDifferent lastPost p = true) remaining in
      match different with
      | nextPost :: _ =>
          if Qlt_le_dec (draws k) diversityFactor
          then diversifyLoop fuel' (diversified ++ [lastPost]) nextPost
                 (splice1 (indexOf nextPost remaining) remaining)
                 diversityFactor draws (S k)
          else diversifyLoop fuel' (diversified ++ [lastPost]) next rest
                 diversityFactor draws (S k)
      | [] => diversifyLoop fuel' (diversified ++ [lastPost]) next rest
                diversityFactor draws k
      end
  | _, _ => diversified ++ [lastPost]
  end.

Definition applyDiversity (posts : list A) (diversityFactor : Q) (draws : nat → Q) : list A :=
  if decide (length posts ≤ 1) then posts
  else if Qle_bool diversityFactor 0 then posts
  else match posts with
       | [] => []
       | top :: remaining =>
           diversifyLoop (length remaining) [] top remaining diversityFactor draws 0
       end.
End Diversity.

End RankingService.

(** ** services/cacheService.js : the Redis client wrapper *)

Module CacheService.

Section Cache.
Context {V : Type}.

(** A stored value with the expiry instant set by [setEx], if any. *)
Record Entry : Type := mkEntry {
  value : V;
  expiresAt : option Z
}.

Record Cache : Type := mkCache {
  isAvailable : bool;
  store : gmap string Entry
}.

Definition live (now : Z) (e : Entry) : bool :=
  match expiresAt e with
  | Some t => bool_decide (now < t)%Z
  | None => true
  end.

(** [get(key)]: [null] when the client is down, the key is unknown or
    the entry has expired. *)
Definition get (c : Cache) (key : string) (now : Z) : option V :=
  if isAvailable c then
    match store c !! key with
    | Some e => if live now e then Some (value e) else None
    | None => None
    end
  else None.

(** [set(key, value, ttl)], [ttl] in seconds; a falsy [ttl] stores
    without expiry. *)
Definition set (c : Cache) (key : string) (v : V) (ttl : option Z) (now : Z) : bool * Cache :=
  if isAvailable c then
    let expiry :=
      match ttl with
      | Some secs => if decide (secs = 0)%Z then None else Some (now + secs * 1000)%Z
      | None => None
      end in
    (true, mkCache (isAvailable c) (<[ key := mkEntry v expiry ]> (store c)))
  else (false, c).

(** [delete(key)]: skipped when the client is down. *)
Definition delete (c : Cache) (key : string) : bool * Cache :=
  if isAvailable c
  then (true, mkCache (isAvailable c) (base.delete key (store c)))
  else (false, c).
End Cache.

Arguments Entry V : clear implicits.
Arguments Cache V : clear implicits.

End CacheService.

(** ** The shared state: MongoDB collections and the Redis cache *)

Module Store.
Import RankingService.

Section World.
Context {FeedPost : Type}.

Record Pagination : Type := mkPagination {
  currentPage : Z;
  limit : Z;
  hasNextPage : bool;
  nextLastPostId : option string;
  totalFetched : nat
}.

(** The object cached by the feed controller. *)
Record FeedPage : Type := mkFeedPage {
  posts : list FeedPost;
  pagination : Pagination
}.

(** What the two writers put into the cache. *)
Inductive Cached : Type :=
| CachedFeed (page : FeedPage)
| CachedTags (likedTags : list User.LikedTag).

Record World : Type := mkWorld {
  dbConnected : bool;
  postDocs : gmap string Post;
  userDocs : gmap string (list User.LikedTag);
  cache : CacheService.Cache Cached
}.

Definition withCache (w : World) (c : CacheService.Cache Cached) : World :=
  mkWorld (dbConnected w) (postDocs w) (userDocs w) c.

Definition withUser (w : World) (userId : string) (likedTags : list User.LikedTag) : World :=
  mkWorld (dbConnected w) (postDocs w) (<[ userId := likedTags ]> (userDocs w)) (cache w).
End World.

Arguments Pagination : clear implicits.
Arguments FeedPage FeedPost : clear implicits.
Arguments Cached FeedPost : clear implicits.
Arguments World FeedPost : clear implicits.

End Store.

(** ** services/personalizationService.js *)

Module PersonalizationService.
Import Js Constants RankingService Store.

(** [getRecencyBoost]: a step function of the days since the tag was last
    liked.  [lastLikedAt] is a Date or missing. *)
Definition getRecencyBoost (lastLikedAt : option Z) (now : Z) : Z :=
  match lastLikedAt with
  | None => 0%Z
  | Some t =>
      let daysSinceLiked := (inject_Z (now - t) / inject_Z (1000 * 60 * 60 * 24))%Q in
      if Qle_bool daysSinceLiked (inject_Z 7) then 5%Z
      else if Qle_bool daysSinceLiked (inject_Z 30) then 2%Z
      else if Qle_bool daysSinceLiked (inject_Z 90) then 1%Z
      else 0%Z
  end.

(** [calculateTagSimilarity]: Jaccard ratio of the two tag sets, case
    sensitive. *)
Definition calculateTagSimilarity (tags1 tags2 : list string) : Q :=
  if decide (length tags1 = 0 ∨ length tags2 = 0) then 0%Q else
  let set1 : gset string := list_to_set tags1 in
  let set2 : gset string := list_to_set tags2 in
  let intersection := filter (λ x, x ∈ set2) set1 in
  let union := set1 ∪ set2 in
  (inject_Z (Z.of_nat (size intersection)) / inject_Z (Z.of_nat (size union)))%Q.

(** [applyContentDiversity], for any element type with [.tags] and
    identity, like [RankingService.applyDiversity]. *)
Section ContentDiversity.
Context {A : Type} `{EqDecision A} (tagsOf : A → option (list string)).

(** The callback of [remaining.filter]: less than 50% similarity. *)
Definition isDiverse (lastPost candidate : A) : bool :=
  if Qlt_le_dec
       (calculateTagSimilarity (default [] (tagsOf lastPost)) (default [] (tagsOf candidate)))
       (1 # 2)
  then true else false.

(** The [while (remaining.length > 0 && diversified.length < posts.length)]
    loop.  [diversified] is carried as its front part and its last
    element, as in [RankingService.diversifyLoop]; [total] is
    [posts.length].  [Math.random()] is called once per iteration. *)
Fixpoint contentLoop (fuel : nat) (diversified : list A) (lastPost : A)
    (remaining : list A) (total : nat) (diversityLevel : Q) (draws : nat → Q) (k : nat)
  : list A :=
  match fuel, remaining with
  | S fuel', first :: _ =>
      if decide (length diversified + 1 < total) then
        let nextPost :=
          if Qlt_le_dec (draws k) diversityLevel then
            if decide (0 < length diversified + 1) then
              match filter (λ p, isDiverse lastPost p = true) remaining with
              | diverse :: _ => diverse
              | [] => first
              end
            else first
          else first in
        contentLoop fuel' (diversified ++ [lastPost]) nextPost
          (splice1 (indexOf nextPost remaining) remaining)
          total diversityLevel draws (S k)
      else diversified ++ [lastPost]
  | _, _ => diversified ++ [lastPost]
  end.

Definition applyContentDiversity (posts : list A) (diversityLevel : Q) (draws : nat → Q)
  : list A :=
  if decide (length posts ≤ 2) then posts
  else match posts with
       | [] => []
       | top :: remaining =>
           contentLoop (length remaining) [] top remaining (length posts)
             diversityLevel draws 0
       end.
End ContentDiversity.

(** Options of [getUserPreferredTags]. *)
Record TagOptions : Type := mkTagOptions {
  useCache : bool;
  limit : Z;
  includeRecent : bool
}.

Definition defaultTagOptions : TagOptions := mkTagOptions true 20 true.

(** The callback of [recentLikes.forEach]: recent activity counts double. *)
Definition mergeRecent (now : Z) (preferredTags : list User.LikedTag)
    (recentTag : User.LikedTag) : list User.LikedTag :=
  match list_find (λ pt, User.tag pt = User.tag recentTag) preferredTags with
  | Some (existingIndex, pt) =>
      <[ existingIndex :=
           User.mkLikedTag (User.tag pt) (User.count pt + User.count recentTag * 2) now ]>
        preferredTags
  | None =>
      preferredTags
        ++ [ User.mkLikedTag (User.tag recentTag) (User.count recentTag * 2) now ]
  end.

(** [a.count + getRecencyBoost(a.lastLikedAt)] and the comparator built on
    it.  All comparisons of one sort see the same clock value. *)
Definition preferenceScore (now : Z) (a : User.LikedTag) : Z :=
  (User.count a + getRecencyBoost (Some (User.lastLikedAt a)) now)%Z.

Definition byScoreDesc (now : Z) (a b : User.LikedTag) : Z :=
  (preferenceScore now b - preferenceScore now a)%Z.

(** Lines 35-67 of [getUserPreferredTags]: merge the recent likes into a
    copy of the stored tags, sort by score, cut to [limit]. *)
Definition rankPreferredTags (likedTags recentLikes : list User.LikedTag)
    (o : TagOptions) (now : Z) : list User.LikedTag :=
  let preferredTags :=
    if includeRecent o then foldl (mergeRecent now) likedTags recentLikes else likedTags in
  slice0 (Js.sort (byScoreDesc now) preferredTags) (limit o).

Section Service.
Context {FeedPost : Type}.
Local Abbreviation World := (Store.World FeedPost).

(** [Post.findById] / [User.findById]: reject when MongoDB is down. *)
Definition findPostById (w : World) (postId : string) : Result (option Post) :=
  if dbConnected w then Ok (postDocs w !! postId) else Throw "MongoDB unavailable".

Definition findUserById (w : World) (userId : string) : Result (option (list User.LikedTag)) :=
  if dbConnected w then Ok (userDocs w !! userId) else Throw "MongoDB unavailable".

(** [await user.addLikedTag(tag)]: mutate the loaded document and save it. *)
Definition likeOne (userId : string) (st : World * list User.LikedTag) (ic : string * Z)
  : Result (World * list User.LikedTag) :=
  let likedTags := User.addLikedTag st.2 ic.1 ic.2 in
  if dbConnected st.1 then Ok (withUser st.1 userId likedTags, likedTags)
  else Throw "MongoDB unavailable".

(** The [try] block of [updateUserPreferencesOnLike].  [clock i] is the
    reading of [new Date()] for tag number [i] of the post. *)
Definition updateBody (w : World) (userId postId : string) (clock : nat → Z) : Result World :=
  p ←! findPostById w postId;
  match p with
  | None => Ok w
  | Some p =>
      match tags p with
      | None | Some [] => Ok w
      | Some postTags =>
          user ←! findUserById w userId;
          match user with
          | None => Ok w
          | Some likedTags =>
              st ←! foldM (likeOne userId) (w, likedTags)
                      (imap (λ i t, (t, clock i)) postTags);
              Ok (withCache st.1 (CacheService.delete (cache st.1) (USER_LIKED_TAGS userId)).2)
          end
      end
  end.

(** [updateUserPreferencesOnLike]: errors are logged, not propagated.
    In this model the only rejection is the first database read, so
    nothing has been written when the [catch] runs. *)
Definition updateUserPreferencesOnLike (w : World) (userId postId : string) (clock : nat → Z)
  : World :=
  match updateBody w userId postId clock with
  | Ok w' => w'
  | Throw _ => w
  end.
End Service.

Section PreferredTags.
Context {FeedPost : Type}.
Local Abbreviation World := (Store.World FeedPost).

(** [getRecentLikedTags(userId, days)]: an aggregation over the likes
    collection, which catches its own errors and then returns []. *)
Context (getRecentLikedTags : string → Z → Z → list User.LikedTag).

(** [cached.slice(0, limit)] on what the cache returned. *)
Definition sliceCached (c : Cached FeedPost) (lim : Z) : Result (list User.LikedTag) :=
  match c with
  | CachedTags l => Ok (slice0 l lim)
  | CachedFeed _ => Throw "cached.slice is not a function"
  end.

(** The [try] block of [getUserPreferredTags].  One clock value [now]
    stands for the whole call. *)
Definition preferredTagsBody (w : World) (userId : string) (o : TagOptions) (now : Z)
  : Result (list User.LikedTag * World) :=
  let key := USER_LIKED_TAGS userId in
  let cached := if useCache o then CacheService.get (cache w) key now else None in
  match cached with
  | Some c => r ←! sliceCached c (limit o); Ok (r, w)
  | None =>
      user ←! findUserById w userId;
      match user with
      | None => Ok ([], w)
      | Some likedTags =>
          let recentLikes :=
            if includeRecent o then getRecentLikedTags userId 30%Z now else [] in
          let result := rankPreferredTags likedTags recentLikes o now in
          let w' :=
            if useCache o
            then withCache w
                   (CacheService.set (cache w) key (CachedTags result) (Some 300%Z) now).2
            else w in
          Ok (result, w')
      end
  end.

(** [getUserPreferredTags]: any error gives []; nothing has been written
    when an error is caught. *)
Definition getUserPreferredTags (w : World) (userId : string) (o : TagOptions) (now : Z)
  : list User.LikedTag * World :=
  match preferredTagsBody w userId o now with
  | Ok r => r
  | Throw _ => ([], w)
  end.
End PreferredTags.

End PersonalizationService.

(** ** controllers/feedController.js : the cache in front of the feed *)

Module FeedController.
Import Js Constants Store.

Record Query : Type := mkQuery {
  q_page : option Z;
  q_limit : option Z;
  q_lastPostId : option string;
  q_tags : option string;
  q_refresh : bool
}.

Definition pageNum (q : Query) : Z := Z.max 1 (default 1%Z (q_page q)).

Definition limitNum (q : Query) : Z :=
  Z.min MAX_PAGE_SIZE (Z.max 1 (default DEFAULT_PAGE_SIZE (q_limit q))).

(** [tags || 'all'] *)
Definition tagsOrAll (q : Query) : string :=
  match q_tags q with
  | Some t => if decide (t = EmptyString) then "all" else t
  | None => "all"
  end.

Definition cacheKey (userId : string) (q : Query) : string :=
  USER_FEED userId +:+ ":" +:+ pretty (pageNum q) +:+ ":" +:+ pretty (limitNum q)
    +:+ ":" +:+ tagsOrAll q.

(** [getRelativeTime(date)]; [toLocaleDateString] depends on the locale
    of the process. *)
Definition getRelativeTime (toLocaleDateString : Z → string) (date now : Z) : string :=
  let diffInSeconds := ((now - date) / 1000)%Z in
  if (diffInSeconds <? 60)%Z then "just now"
  else if (diffInSeconds <? 3600)%Z then pretty (diffInSeconds / 60)%Z +:+ "m ago"
  else if (diffInSeconds <? 86400)%Z then pretty (diffInSeconds / 3600)%Z +:+ "h ago"
  else if (diffInSeconds <? 604800)%Z then pretty (diffInSeconds / 86400)%Z +:+ "d ago"
  else toLocaleDateString date.

Section Controller.
Context {FeedPost : Type}.
Local Abbreviation World := (Store.World FeedPost).

(** [_id] of a feed post. *)
Context (postId : FeedPost → string).

(** Lines 55-90 of [getPersonalizedFeed]: preferred tags, candidate
    query, ranking and enrichment.  They run against MongoDB and may
    write the preferred tags into the cache. *)
Context (buildFeed : World → string → Query → Z → Result (list FeedPost) * World).

Inductive Response : Type :=
| Json200 (posts : option (list FeedPost)) (pagination : option Pagination) (cached : bool)
| Json500.

(** [cachedFeed.posts] and [cachedFeed.pagination]. *)
Definition cachedPosts (c : Cached FeedPost) : option (list FeedPost) :=
  match c with CachedFeed page => Some (posts page) | CachedTags _ => None end.

Definition cachedPagination (c : Cached FeedPost) : option Pagination :=
  match c with CachedFeed page => Some (pagination page) | CachedTags _ => None end.

Definition getPersonalizedFeed (w : World) (userId : string) (q : Query) (now : Z)
  : Response * World :=
  let key := cacheKey userId q in
  let cachedFeed := if q_refresh q then None else CacheService.get (cache w) key now in
  match cachedFeed with
  | Some c => (Json200 (cachedPosts c) (cachedPagination c) true, w)
  | None =>
      match buildFeed w userId q now with
      | (Throw _, w1) => (Json500, w1)
      | (Ok enrichedPosts, w1) =>
          let hasMorePosts := bool_decide (Z.of_nat (length enrichedPosts) = limitNum q) in
          let nextLastPostId := postId <$> last enrichedPosts in
          let result :=
            mkFeedPage enrichedPosts
              (mkPagination (pageNum q) (limitNum q) hasMorePosts nextLastPostId
                 (length enrichedPosts)) in
          let w2 :=
            withCache w1
              (CacheService.set (cache w1) key (CachedFeed result) (Some FEED_CACHE_TTL) now).2 in
          (Json200 (Some enrichedPosts) (Some (pagination result)) false, w2)
      end
  end.

(** [clearFeedCache]: deletes the bare per-user key. *)
Definition clearFeedCache (w : World) (userId : string) : World :=
  withCache w (CacheService.delete (cache w) (USER_FEED userId)).2.
End Controller.

End FeedController.

(** ** models/Post.js : the tag hook and the engagement counters *)

Module PostModel.
Import Js.

(** The characters kept by [replace(/[^a-zA-Z0-9_]/g, '')]. *)
Definition isWordChar (c : Ascii.ascii) : bool :=
  let n := Ascii.nat_of_ascii c in
  ((48 <=? n) && (n <=? 57)) || ((65 <=? n) && (n <=? 90))
  || ((97 <=? n) && (n <=? 122)) || (n =? 95).

Fixpoint stripNonWord (s : string) : string :=
  match s with
  | EmptyString => EmptyString
  | String c r => if isWordChar c then String c (stripNonWord r) else stripNonWord r
  end.

(** [[...new Set(tags)]]: the first occurrence of each tag, in order. *)
Fixpoint uniq (l : list string) : list string :=
  match l with
  | [] => []
  | x :: r => x :: filter (λ y, y ≠ x) (uniq r)
  end.

(** [tag.trim().toLowerCase().replace(...)] *)
Definition cleanTag (t : string) : string := stripNonWord (toLowerCase (trim t)).

(** The [pre('validate')] hook on [tags]: an error for more than 30 tags,
    otherwise the cleaned tag list. *)
Definition cleanTags (tags : list string) : Result (list string) :=
  if decide (30 < length tags) then Throw "Cannot have more than 30 tags per post"
  else if decide (0 < length tags) then
    let kept := filter (λ t, t ≠ EmptyString ∧ 0 < String.length (trim t)) tags in
    let mapped := cleanTag <$> kept in
    let nonEmpty := filter (λ t, 0 < String.length t) mapped in
    Ok (uniq (slice0 nonEmpty 30))
  else Ok tags.

(** The engagement fields of a post document.  The counters are integers
    and the updates below add and subtract in [Z]: this is what the code
    does on counters below 2^53 in absolute value, where the arithmetic of
    Numbers on integers is exact. *)
Record Counters : Type := mkCounters {
  likesCount : Z;
  commentsCount : Z;
  sharesCount : Z;
  viewsCount : Z;
  engagementRate : Q;
  hourlyViews : Z;
  dailyViews : Z;
  weeklyViews : Z
}.

(** [Math.min(a, b)] on rationals. *)
Definition qmin (a b : Q) : Q := if Qle_bool a b then a else b.

(** [updateEngagementRate] *)
Definition updateEngagementRate (d : Counters) : Counters :=
  let totalInteractions := (likesCount d + commentsCount d + sharesCount d)%Z in
  let views := Z.max (viewsCount d) 1 in
  mkCounters (likesCount d) (commentsCount d) (sharesCount d) (viewsCount d)
    (qmin (inject_Z totalInteractions / inject_Z views) 1)
    (hourlyViews d) (dailyViews d) (weeklyViews d).

(** [incrementViews] *)
Definition incrementViews (d : Counters) : Counters :=
  updateEngagementRate
    (mkCounters (likesCount d) (commentsCount d) (sharesCount d) (viewsCount d + 1)
       (engagementRate d) (hourlyViews d + 1) (dailyViews d + 1) (weeklyViews d + 1)).

(** [incrementLikes] *)
Definition incrementLikes (d : Counters) : Counters :=
  updateEngagementRate
    (mkCounters (likesCount d + 1) (commentsCount d) (sharesCount d) (viewsCount d)
       (engagementRate d) (hourlyViews d) (dailyViews d) (weeklyViews d)).

(** [decrementLikes] *)
Definition decrementLikes (d : Counters) : Counters :=
  updateEngagementRate
    (mkCounters (Z.max 0 (likesCount d - 1)) (commentsCount d) (sharesCount d) (viewsCount d)
       (engagementRate d) (hourlyViews d) (dailyViews d) (weeklyViews d)).

End PostModel.

(** ** The invalidation property of the specification (section 8, item 8)

    Written from the sentence of the specification, to be compared with
    what [updateUserPreferencesOnLike] and [getPersonalizedFeed] do. *)

Module Invalidation.
Import Store.

Section Claim.
Context {FeedPost : Type}.
Context (postId : FeedPost → string).
Context (buildFeed :
  World FeedPost → string → FeedController.Query → Z → Js.Result (list FeedPost) * World FeedPost).

(** After the like of [likedPostId] by [userId], an entry that was cached
    under the user's feed key for query [q] is absent, or the next feed
    read for [q] is not answered from the cache. *)
Definition noStaleFeedAfterLike (w : World FeedPost) (userId likedPostId : string)
    (clock : nat → Z) (q : FeedController.Query) (now : Z) : Prop :=
  let w' := PersonalizationService.updateUserPreferencesOnLike w userId likedPostId clock in
  is_Some (CacheService.store (cache w) !! FeedController.cacheKey userId q) →
  CacheService.store (cache w') !! FeedController.cacheKey userId q = None
  ∨ ∀ posts pagination,
      (FeedController.getPersonalizedFeed postId buildFeed w' userId q now).1
      ≠ FeedController.Json200 posts pagination true.
End Claim.

End Invalidation.

(** ** The batch property of the specification (section 8, item 5)

    Written from the sentence of the specification, to be compared with
    what [calculateBatchRankingScores] does. *)

Module BatchSpec.
Import Js RankingService.

(** A post with a malformed engagement field or timestamp. *)
Definition malformed (p : Post) : Prop :=
  isNumeric (likesCount p) = false ∨ isNumeric (commentsCount p) = false
  ∨ isNumeric (sharesCount p) = false ∨ isNumeric (viewsCount p) = false
  ∨ createdAt p = DateInvalid ∨ createdAt p = DateMalformed.

(** The post with its malformed fields taken as missing. *)
Definition withoutMalformed (p : Post) : Post :=
  let numeric c := match c with CounterNaN => CounterMissing | _ => c end in
  let valid d := match d with DateInvalid | DateMalformed => DateMissing | _ => d end in
  mkPost (_id p) (tags p) (valid (createdAt p))
    (numeric (likesCount p)) (numeric (commentsCount p)) (numeric (sharesCount p))
    (numeric (viewsCount p)).

(** The batch returns the posts annotated, and a candidate with a
    malformed engagement field or timestamp is scored 0 (the failure is
    converted) or, at least, as if the field were missing (the field is
    treated as zero). *)
Definition toleratesMalformed (w : Constants.Weights) (posts : list Post)
    (profile : list User.LikedTag) (clock : nat → Z * Z) : Prop :=
  ∃ ranked : list RankedPost,
    calculateBatchRankingScores w posts profile clock = Ok ranked
    ∧ post <$> ranked = posts
    ∧ ∀ (i : nat) (r : RankedPost), ranked !! i = Some r → malformed (post r) →
        rankingScore r = Fin 0
        ∨ calculateRankingScore w (withoutMalformed (post r)) profile (clock i).1 (clock i).2
          = Ok (rankingScore r).

End BatchSpec.

(** ** The personalization formula of the specification (section 4.2)

    Written from the sentences of the specification, with sums over the
    matched tags instead of loop accumulators, to be compared with
    [RankingService.calculatePersonalizationScore]. *)

Module Formula.
Import Js.

(** The weight the tag-to-weight map built from the profile gives to a
    tag: the count of the last profile entry carrying that tag. *)
Definition weightOf (profile : list User.LikedTag) (t : string) : option Z :=
  User.count <$> last (filter (λ lt, toLowerCase (User.tag lt) = toLowerCase t) profile).

(** [totalWeight = sum(weights)] *)
Definition totalWeight (profile : list User.LikedTag) : Z :=
  foldr Z.add 0%Z (User.count <$> profile).

(** The post tags present in the map. *)
Definition matched (profile : list User.LikedTag) (postTags : list string) : list string :=
  filter (λ t, is_Some (weightOf profile t)) postTags.

(** Sum over the matched tags of [weight / totalWeight]. *)
Definition matchScore (profile : list User.LikedTag) (postTags : list string) : R :=
  foldr Rplus 0%R
    ((λ t, (IZR (default 0%Z (weightOf profile t)) / IZR (totalWeight profile))%R)
       <$> matched profile postTags).

Definition personalizationScore (postTags : list string) (profile : list User.LikedTag) : R :=
  let normalized := (matchScore profile postTags / sqrt (INR (length postTags)))%R in
  let matchPercentage :=
    (INR (length (matched profile postTags)) / INR (length postTags))%R in
  Rmin (normalized * (1 + matchPercentage)) 1.

(** The popularity score over the integers and the reals: what lines
    97-113 of [calculatePopularityScore] compute as long as no counter is
    [NaN] and [Math.exp] does not overflow. *)
Definition popularityScore (likes comments shares views : Z) (ageInHours : R) : R :=
  let engagementScore := (likes * 1 + comments * 2 + shares * 3)%Z in
  let engagementRate :=
    if decide (0 < views)%Z then (IZR engagementScore / IZR views)%R else 0%R in
  let timeAdjustment := Rmax (1 / 10) (exp (- ageInHours / 24)) in
  let rawScore := (ln (IZR engagementScore + 1) / ln 1000)%R in
  Rmin 1 (rawScore * timeAdjustment * (7 / 10) + engagementRate * (3 / 10)).

(** [ageInHours] of line 103 for a date that is missing or valid. *)
Definition ageInHours (createdAt : RankingService.JsDate) (now : Z) : R :=
  match createdAt with
  | RankingService.DateValue t => (IZR (now - t) / IZR (1000 * 60 * 60))%R
  | _ => 0%R
  end.

(** The dates for which [Math.exp(-ageInHours / 24)] stays finite with a
    margin: no date, or a date at most 709 days after the evaluation. *)
Definition expInRange (createdAt : RankingService.JsDate) (now : Z) : Prop :=
  match createdAt with
  | RankingService.DateMissing => True
  | RankingService.DateValue t => (t - now ≤ 709 * Constants.DAY_IN_MS)%Z
  | _ => False
  end.

End Formula.

(** ** Concrete scenarios used below *)

Module Scenario.
Import User.

(** A two letter tag name for an index below 676. *)
Definition tagName (i : nat) : string :=
  String (Ascii.ascii_of_nat (97 + i / 26))
    (String (Ascii.ascii_of_nat (97 + i mod 26)) EmptyString).

(** A full profile: 100 tags, each liked once, all at time 0. *)
Definition fullProfile : list LikedTag :=
  (λ i, mkLikedTag (tagName i) 1 0) <$> seq 0 100.

(** The profile [{cats: 10, dogs: 2}]. *)
Definition catsAndDogs : list LikedTag :=
  [ mkLikedTag "cats" 10 0; mkLikedTag "dogs" 2 0 ].

(** A post tagged [cats, birds], created at time 0, without share counter. *)
Definition samplePost : RankingService.Post :=
  RankingService.mkPost "p1" (Some ["cats"; "birds"]) (RankingService.DateValue 0)
    (RankingService.CounterValue 10) (RankingService.CounterValue 2)
    RankingService.CounterMissing (RankingService.CounterValue 100).

(** The same post after a JSON round trip turned [createdAt] into a string. *)
Definition malformedPost : RankingService.Post :=
  RankingService.mkPost "p2" (Some ["cats"; "birds"]) RankingService.DateMalformed
    (RankingService.CounterValue 10) (RankingService.CounterValue 2)
    RankingService.CounterMissing (RankingService.CounterValue 100).

(** The same post with a like counter that is not a number. *)
Definition nanCounterPost : RankingService.Post :=
  RankingService.mkPost "p3" (Some ["cats"; "birds"]) (RankingService.DateValue 0)
    RankingService.CounterNaN (RankingService.CounterValue 2)
    RankingService.CounterMissing (RankingService.CounterValue 100).

(** The same post with an invalid [Date]. *)
Definition invalidDatePost : RankingService.Post :=
  RankingService.mkPost "p4" (Some ["cats"; "birds"]) RankingService.DateInvalid
    (RankingService.CounterValue 10) (RankingService.CounterValue 2)
    RankingService.CounterMissing (RankingService.CounterValue 100).

(** A post without any engagement, dated 710 days after time 0. *)
Definition farFuturePost : RankingService.Post :=
  RankingService.mkPost "p5" (Some ["cats"]) (RankingService.DateValue (710 * 86400000))
    (RankingService.CounterValue 0) (RankingService.CounterValue 0)
    (RankingService.CounterValue 0) (RankingService.CounterValue 0).

(** Six ranked candidates for the diversity pass. *)
Definition taggedPost (id : string) (ts : option (list string)) : RankingService.Post :=
  RankingService.mkPost id ts RankingService.DateMissing
    RankingService.CounterMissing RankingService.CounterMissing
    RankingService.CounterMissing RankingService.CounterMissing.

Definition sixPosts : list RankingService.Post :=
  [ taggedPost "0" (Some ["a"; "b"]);
    taggedPost "1" (Some ["a"; "b"]);
    taggedPost "2" (Some ["A"; "b"; "c"]);
    taggedPost "3" (Some ["x"]);
    taggedPost "4" None;
    taggedPost "5" (Some ["a"]) ].

(** A world where user [u1] has a feed page in the cache (valid until
    time 300000), an empty profile, and where post [p1] can be liked. *)
Definition cachedPage : Store.FeedPage string :=
  Store.mkFeedPage ["p9"] (Store.mkPagination 1 20 false (Some "p9") 1).

Definition staleWorld : Store.World string :=
  Store.mkWorld true
    {[ "p1" := samplePost ]}
    {[ "u1" := [] ]}
    (CacheService.mkCache true
       {[ "feed:user:u1:1:20:all" :=
            CacheService.mkEntry (Store.CachedFeed cachedPage) (Some 300000%Z);
          "tags:user:u1" :=
            CacheService.mkEntry (Store.CachedTags []) (Some 300000%Z) ]}).

(** The default query: first page, default size, no tag filter, no refresh. *)
Definition defaultQuery : FeedController.Query :=
  FeedController.mkQuery None None None None false.

(** Feed posts are represented by their identifier here. *)
Definition idOf (feedPost : string) : string := feedPost.

(** A feed pipeline that finds no candidate. *)
Definition emptyFeed (w : Store.World string) (userId : string) (q : FeedController.Query)
    (now : Z) : Js.Result (list string) * Store.World string :=
  (Js.Ok [], w).

(** A feed pipeline that finds two candidates. *)
Definition twoPosts (w : Store.World string) (userId : string) (q : FeedController.Query)
    (now : Z) : Js.Result (list string) * Store.World string :=
  (Js.Ok ["p1"; "p2"], w).

End Scenario.

(** * Properties *)

(** ** The stable sort *)

Section SortFacts.
Context {A : Type} (compareFn : A → A → Z).

Lemma sort_insert_perm (x : A) (l : list A) :
  Js.sort_insert compareFn x l ≡ₚ x :: l.
Proof.
  induction l as [|y r IH]; simpl; [done|].
  destruct (0 <? compareFn x y)%Z; [|done].
  rewrite IH. apply Permutation_swap.
Qed.

Lemma sort_perm (l : list A) : Js.sort compareFn l ≡ₚ l.
Proof.
  induction l as [|x r IH]; simpl; [done|].
  rewrite sort_insert_perm. by rewrite IH.
Qed.

Lemma sort_length (l : list A) : length (Js.sort compareFn l) = length l.
Proof. apply Permutation_length, sort_perm. Qed.

End SortFacts.

(** ** models/User.js *)

Section UserFacts.
Import User.

Implicit Types (p l : list LikedTag) (t : string) (now : Z).

Lemma sort_insert_sorted x l :
  StronglySorted countDesc l →
  StronglySorted countDesc (Js.sort_insert byCountDesc x l).
Proof.
  induction 1 as [|y r Hr IH Hall]; simpl.
  - repeat constructor.
  - unfold byCountDesc at 1.
    destruct (0 <? count y - count x)%Z eqn:Hc.
    + apply Z.ltb_lt in Hc. constructor; [done|].
      rewrite sort_insert_perm. constructor; [unfold countDesc; lia | done].
    + apply Z.ltb_ge in Hc. constructor; [by constructor|].
      constructor; [unfold countDesc; lia|].
      eapply Forall_impl; [exact Hall|]. unfold countDesc. intros; simpl in *; lia.
Qed.

Lemma sort_sorted l : StronglySorted countDesc (Js.sort byCountDesc l).
Proof.
  induction l as [|x r IH]; simpl; [constructor|]. by apply sort_insert_sorted.
Qed.

(** Stability: entries of equal count keep their relative order. *)
Lemma sort_insert_stable (c : Z) x l :
  filter (λ e, count e = c) (Js.sort_insert byCountDesc x l)
  = filter (λ e, count e = c) (x :: l).
Proof.
  induction l as [|y r IH]; simpl; [done|].
  unfold byCountDesc at 1.
  destruct (0 <? count y - count x)%Z eqn:Hc; [|done].
  apply Z.ltb_lt in Hc.
  rewrite filter_cons, IH, !filter_cons.
  destruct (decide (count y = c)), (decide (count x = c)); try done; lia.
Qed.

Lemma sort_stable (c : Z) l :
  filter (λ e, count e = c) (Js.sort byCountDesc l) = filter (λ e, count e = c) l.
Proof.
  induction l as [|x r IH]; simpl; [done|].
  rewrite sort_insert_stable, !filter_cons. by rewrite IH.
Qed.

Lemma keepTop_length l : length (keepTop l) ≤ 100.
Proof.
  unfold keepTop. case_decide; [|lia].
  rewrite length_take. lia.
Qed.

Lemma keepTop_small l : length l ≤ 100 → keepTop l = l.
Proof. intros. unfold keepTop. case_decide; [lia|done]. Qed.

Lemma keepTop_subseteq l : keepTop l ⊆ l.
Proof.
  unfold keepTop. case_decide; [|done].
  etrans; [apply subseteq_take|]. by rewrite sort_perm.
Qed.

Lemma addLikedTag_length p t now : length (addLikedTag p t now) ≤ 100.
Proof. apply keepTop_length. Qed.

Lemma recordLike_nonneg p t now :
  Forall (λ e, (0 ≤ count e)%Z) p →
  Forall (λ e, (0 ≤ count e)%Z) (recordLike p t now).
Proof.
  intros Hp. unfold recordLike.
  destruct (list_find _ p) as [[i e0]|] eqn:Hf.
  - apply list_find_Some in Hf as (Hi & _ & _).
    apply Forall_insert; [done|]. simpl.
    apply list_elem_of_lookup_2 in Hi.
    rewrite Forall_forall in Hp. specialize (Hp _ Hi). simpl in Hp. lia.
  - apply Forall_app. split; [done|]. repeat constructor. simpl. lia.
Qed.

Lemma addLikedTag_nonneg p t now :
  Forall (λ e, (0 ≤ count e)%Z) p →
  Forall (λ e, (0 ≤ count e)%Z) (addLikedTag p t now).
Proof.
  intros Hp. apply (recordLike_nonneg _ t now) in Hp.
  rewrite Forall_forall in *. intros e He.
  apply Hp. by apply keepTop_subseteq.
Qed.

Lemma weight_nonneg p t :
  Forall (λ e, (0 ≤ count e)%Z) p → (0 ≤ weight p t)%Z.
Proof.
  intros Hp. unfold weight.
  destruct (list_find _ p) as [[i e]|] eqn:Hf; [|lia].
  apply list_find_Some in Hf as (Hi & _ & _).
  apply list_elem_of_lookup_2 in Hi.
  rewrite Forall_forall in Hp. by apply Hp.
Qed.

(** One call on a profile within the bound: the stored weight of the liked
    tag does not go down. *)
Lemma addLikedTag_weight_step p t now :
  length p ≤ 100 →
  (weight p t ≤ weight (addLikedTag p t now) t)%Z.
Proof.
  intros Hlen. unfold addLikedTag, recordLike, weight at 1.
  destruct (list_find _ p) as [[i e0]|] eqn:Hf.
  - rewrite keepTop_small by (by rewrite length_insert).
    pose proof Hf as (Hi & Ht & Hbefore)%list_find_Some.
    unfold weight.
    set (e1 := mkLikedTag (tag e0) (count e0 + 1) now).
    assert (list_find (λ lt, tag lt = Js.toLowerCase t) (<[i:=e1]> p) = Some (i, e1)) as ->.
    { apply list_find_Some. split; [|split].
      - apply list_lookup_insert_eq. by eapply lookup_lt_Some.
      - done.
      - intros j y Hj Hlt. rewrite list_lookup_insert_ne in Hj by lia. by eapply Hbefore. }
    simpl. lia.
  - unfold weight.
    destruct (list_find _ (keepTop _)) as [[j e]|] eqn:Hk; [|lia].
    apply list_find_Some in Hk as (Hj & Ht & _).
    apply list_elem_of_lookup_2, keepTop_subseteq in Hj.
    apply elem_of_app in Hj as [Hj|Hj].
    + apply list_find_None in Hf. rewrite Forall_forall in Hf. by destruct (Hf _ Hj).
    + apply list_elem_of_singleton in Hj as ->. simpl. lia.
Qed.

Lemma repeatLike_invariant p t clock n :
  length p ≤ 100 →
  Forall (λ e, (0 ≤ count e)%Z) p →
  length (repeatLike p t clock n) ≤ 100
  ∧ Forall (λ e, (0 ≤ count e)%Z) (repeatLike p t clock n).
Proof.
  intros Hlen Hp. induction n as [|n [IH1 IH2]]; simpl; [done|].
  split; [apply addLikedTag_length | by apply addLikedTag_nonneg].
Qed.

(** Every profile built from the empty one by [addLikedTag] calls is within
    the data model: at most 100 entries, no negative count. *)
Lemma replay_within_data_model (calls : list (string * Z)) :
  length (replay [] calls) ≤ 100
  ∧ Forall (λ e, (0 ≤ count e)%Z) (replay [] calls).
Proof.
  unfold replay.
  induction calls as [|c cs IH] using rev_ind; simpl; [split; [lia | constructor]|].
  rewrite foldl_snoc. destruct IH as [_ IH].
  split; [apply addLikedTag_length | by apply addLikedTag_nonneg].
Qed.

Example toLowerCase_mixed_case : Js.toLowerCase "Cats_AZ[9" = "cats_az[9".
Proof. reflexivity. Qed.

(** C3 (boundedness).  Starting from the empty profile, after every call of
    every sequence of [addLikedTag] calls the profile has at most 100
    entries: [take n calls] ranges over all the prefixes of the history. *)
Theorem likedTags_bounded (calls : list (string * Z)) (n : nat) :
  length (replay [] (take n calls)) ≤ 100.
Proof.
  unfold replay.
  destruct (take n calls) as [|c cs _] using rev_ind; simpl; [lia|].
  rewrite foldl_snoc. apply addLikedTag_length.
Qed.

(** C4 (monotonic weight).  On a profile that respects the data model
    (at most 100 entries, no negative count), the [n+1]-th successive call
    of [addLikedTag] with the same tag never lowers the weight stored for
    that tag, and the weight is never negative. *)
Theorem repeated_like_monotone (p : list LikedTag) (t : string) (clock : nat → Z) (n : nat) :
  length p ≤ 100 →
  Forall (λ e, (0 ≤ count e)%Z) p →
  (weight (repeatLike p t clock n) t ≤ weight (repeatLike p t clock (S n)) t)%Z
  ∧ (0 ≤ weight (repeatLike p t clock n) t)%Z.
Proof.
  intros Hlen Hp.
  destruct (repeatLike_invariant p t clock n Hlen Hp) as [Hl Hn].
  split; [simpl; by apply addLikedTag_weight_step | by apply weight_nonneg].
Qed.

Lemma repeated_like_monotone_witness :
  (weight (repeatLike Scenario.catsAndDogs "Cats" (λ i, Z.of_nat i) 3) "Cats"
   ≤ weight (repeatLike Scenario.catsAndDogs "Cats" (λ i, Z.of_nat i) 4) "Cats")%Z
  ∧ (0 ≤ weight (repeatLike Scenario.catsAndDogs "Cats" (λ i, Z.of_nat i) 3) "Cats")%Z.
Proof.
  apply (repeated_like_monotone Scenario.catsAndDogs "Cats" (λ i, Z.of_nat i) 3).
  - simpl. lia.
  - repeat constructor; simpl; lia.
Defined.

Example repeated_like_counts :
  weight (repeatLike Scenario.catsAndDogs "Cats" (λ i, Z.of_nat i) 3) "cats" = 13%Z.
Proof. reflexivity. Qed.

Example full_profile_rejects_new_tag :
  addLikedTag Scenario.fullProfile "fresh" 1000 = Scenario.fullProfile.
Proof. vm_compute. reflexivity. Qed.

(** C5, amended (truncation).  When the update leaves more than 100
    entries, [addLikedTag] keeps exactly 100 of them, in descending order
    of count; every kept entry has a count at least that of every evicted
    one; and ties are decided by array position alone: for each count [c],
    the kept entries of count [c] are a prefix of the entries of count [c]
    in the array before the sort, so the ones evicted are the last in
    array order.  [lastLikedAt] takes no part. *)
Theorem addLikedTag_truncation (p : list LikedTag) (t : string) (now : Z) :
  100 < length (recordLike p t now) →
  length (addLikedTag p t now) = 100
  ∧ StronglySorted countDesc (addLikedTag p t now)
  ∧ (∃ evicted,
        addLikedTag p t now ++ evicted ≡ₚ recordLike p t now
        ∧ ∀ a b, a ∈ addLikedTag p t now → b ∈ evicted → (count b ≤ count a)%Z)
  ∧ ∀ c : Z,
      filter (λ e, count e = c) (addLikedTag p t now)
      `prefix_of` filter (λ e, count e = c) (recordLike p t now).
Proof.
  intros Hlen. unfold addLikedTag, keepTop. rewrite decide_True by done.
  set (updated := recordLike p t now) in *.
  pose proof (sort_sorted updated) as Hs.
  rewrite <- (take_drop 100 (Js.sort byCountDesc updated)) in Hs.
  repeat split.
  - rewrite length_take, sort_length. lia.
  - by eapply StronglySorted_app_1_l.
  - exists (drop 100 (Js.sort byCountDesc updated)). split.
    + rewrite take_drop. apply sort_perm.
    + intros a b Ha Hb. by eapply (StronglySorted_app_1_elem_of countDesc).
  - intros c. rewrite <- (sort_stable c updated).
    rewrite <- (take_drop 100 (Js.sort byCountDesc updated)) at 2.
    rewrite filter_app. by apply prefix_app_r.
Qed.

Lemma addLikedTag_truncation_witness :
  length (addLikedTag Scenario.fullProfile "fresh" 1000) = 100
  ∧ StronglySorted countDesc (addLikedTag Scenario.fullProfile "fresh" 1000)
  ∧ (∃ evicted,
        addLikedTag Scenario.fullProfile "fresh" 1000 ++ evicted
          ≡ₚ recordLike Scenario.fullProfile "fresh" 1000
        ∧ ∀ a b, a ∈ addLikedTag Scenario.fullProfile "fresh" 1000 → b ∈ evicted →
                 (count b ≤ count a)%Z)
  ∧ ∀ c : Z,
      filter (λ e, count e = c) (addLikedTag Scenario.fullProfile "fresh" 1000)
      `prefix_of` filter (λ e, count e = c) (recordLike Scenario.fullProfile "fresh" 1000).
Proof.
  apply (addLikedTag_truncation Scenario.fullProfile "fresh" 1000).
  vm_compute. lia.
Defined.

(** C5, as stated, fails.  On a full profile whose 100 tags were each liked
    once at time 0, liking a new tag at time 1000 pushes an entry of the
    same count 1 and the latest [lastLikedAt]; the stable sort leaves it
    last and the truncation evicts it, while every older entry stays. *)
Lemma recency_tie_break_counterexample :
  ¬ evictsLeastRecentTies Scenario.fullProfile "fresh" 1000.
Proof.
  unfold evictsLeastRecentTies. intros Hclaim.
  destruct Hclaim as (_ & _ & Hties); [vm_compute; lia|].
  specialize (Hties (mkLikedTag "aa" 1 0) (mkLikedTag "fresh" 1 1000)).
  assert (1000 ≤ 0)%Z; [|lia].
  apply Hties; [| | |done].
  - apply (bool_decide_unpack _). vm_compute. exact I.
  - apply (bool_decide_unpack _). vm_compute. exact I.
  - apply (bool_decide_unpack _). vm_compute. exact I.
Qed.

End UserFacts.

(** ** services/rankingService.js : the three sub-scores *)

Section ScoreFacts.
Import Js Constants RankingService.
Local Open Scope R_scope.

Lemma ln_half_neg : ln (5 / 10) < 0.
Proof. rewrite <- ln_1. apply ln_increasing; lra. Qed.

(** [0.5 ^ x] does not increase with [x]. *)
Lemma decay_antitone (x y : R) : x <= y → Rpower (5 / 10) y <= Rpower (5 / 10) x.
Proof.
  intros [Hlt| ->]; [|apply Rle_refl].
  left. unfold Rpower. apply exp_increasing.
  pose proof ln_half_neg. nra.
Qed.

Lemma decay_ge_1 (x : R) : x <= 0 → 1 <= Rpower (5 / 10) x.
Proof.
  intros Hx. rewrite <- (Rpower_O (5 / 10)) by lra. by apply decay_antitone.
Qed.

Lemma day_pos : 0 < IZR DAY_IN_MS.
Proof. apply IZR_lt. reflexivity. Qed.

(** The exponent of the decay as a function of the creation time. *)
Lemma age_antitone (older newer now : Z) :
  (older ≤ newer)%Z →
  IZR (now - newer) / IZR DAY_IN_MS / 2 <= IZR (now - older) / IZR DAY_IN_MS / 2.
Proof.
  intros Hle. pose proof day_pos as Hd.
  assert (IZR (now - newer) <= IZR (now - older)) as Hi by (apply IZR_le; lia).
  apply Rmult_le_compat_r; [lra|].
  apply Rmult_le_compat_r; [|done].
  left. by apply Rinv_0_lt_compat.
Qed.

Lemma clamp_bounds (x : R) : 0 <= Rmax 0 (Rmin 1 x) <= 1.
Proof.
  split; [apply Rmax_l|].
  apply Rmax_lub; [lra | apply Rmin_l].
Qed.

Lemma clamp_monotone (x y : R) : x <= y → Rmax 0 (Rmin 1 x) <= Rmax 0 (Rmin 1 y).
Proof. intros. by apply Rle_max_compat_l, Rle_min_compat_l. Qed.

(** *** Numbers: finite arguments *)

Lemma sub_fin (x y : R) : (Fin x - Fin y)%num = Fin (x - y).
Proof. reflexivity. Qed.

Lemma div_fin (x y : R) : y ≠ 0 → (Fin x / Fin y)%num = Fin (x / y).
Proof. intros Hy. simpl. by destruct (Req_dec_T y 0). Qed.

Lemma add_NaN_r (a : Number) : (a + NaN)%num = NaN.
Proof. by destruct a. Qed.

Lemma mul_NaN_r (a : Number) : (a * NaN)%num = NaN.
Proof. by destruct a. Qed.

(** The recency score of a valid date is the clamped decay factor; where
    [Math.pow] overflows the clamp gives the same value 1. *)
Lemma recency_value (created now : Z) :
  calculateRecencyScore (DateValue created) now
  = Ok (Fin (Rmax 0 (Rmin 1 (Rpower (5 / 10) (IZR (now - created) / IZR DAY_IN_MS / 2))))).
Proof.
  unfold calculateRecencyScore. cbn [isMissing getTime bind].
  rewrite sub_fin, <- minus_IZR.
  rewrite div_fin by (pose proof day_pos; lra).
  rewrite div_fin by lra.
  simpl Math_pow_half.
  destruct (Rle_dec _ (- 1024)) as [Hover|_]; [|done].
  simpl. do 2 f_equal.
  rewrite Rmin_left; [done|]. apply decay_ge_1. lra.
Qed.

(** C10 (future-dated posts).  A creation time at or after the evaluation
    time gives a recency score of exactly 1: the decay factor is at least
    1 there and the clamp cuts it to 1. *)
Theorem recency_future_is_one (created now : Z) :
  (now ≤ created)%Z →
  calculateRecencyScore (DateValue created) now = Ok (Fin 1).
Proof.
  intros Hle. rewrite recency_value. do 2 f_equal.
  assert (IZR (now - created) / IZR DAY_IN_MS / 2 <= 0) as Hage.
  { pose proof (age_antitone now created now Hle) as H.
    rewrite Z.sub_diag in H. lra. }
  apply decay_ge_1 in Hage.
  rewrite Rmin_left by done. apply Rmax_right. lra.
Qed.

Lemma recency_future_is_one_witness :
  calculateRecencyScore (DateValue 5000) 1000 = Ok (Fin 1).
Proof. apply (recency_future_is_one 5000 1000). lia. Defined.

(** C9 (recency monotonicity).  At a fixed evaluation time both posts get
    a recency score, and the score of the strictly newer one is at least
    the score of the older one. *)
Theorem recency_monotone (older newer now : Z) :
  (older < newer)%Z →
  ∃ sOld sNew : R,
    calculateRecencyScore (DateValue older) now = Ok (Fin sOld)
    ∧ calculateRecencyScore (DateValue newer) now = Ok (Fin sNew)
    ∧ sOld <= sNew.
Proof.
  intros Hlt. rewrite !recency_value.
  eexists _, _. split; [reflexivity|]. split; [reflexivity|].
  apply clamp_monotone, decay_antitone, age_antitone. lia.
Qed.

Lemma recency_monotone_witness :
  ∃ sOld sNew : R,
    calculateRecencyScore (DateValue 0) 172800000 = Ok (Fin sOld)
    ∧ calculateRecencyScore (DateValue 86400000) 172800000 = Ok (Fin sNew)
    ∧ sOld <= sNew.
Proof. apply (recency_monotone 0 86400000 172800000). lia. Defined.

(** A post created exactly two days before the evaluation scores 0.5. *)
Example recency_two_days :
  calculateRecencyScore (DateValue 0) 172800000 = Ok (Fin (5 / 10)).
Proof.
  rewrite recency_value. do 2 f_equal.
  change (IZR (172800000 - 0) / IZR DAY_IN_MS / 2)
    with (IZR 172800000 / IZR 86400000 / 2).
  replace (IZR 172800000 / IZR 86400000 / 2) with 1 by lra.
  rewrite Rpower_1 by lra. rewrite Rmin_right by lra. apply Rmax_right. lra.
Qed.

(** An invalid date is not an error: its recency score is [NaN]. *)
Example recency_invalid_date : calculateRecencyScore DateInvalid 1000 = Ok NaN.
Proof. reflexivity. Qed.

(** *** The personalization score *)

Lemma tagPreferences_fold (l : list User.LikedTag) (m0 : gmap string Z) (t0 : Z) :
  (foldl setPreference (m0, t0) l).2 = (t0 + Formula.totalWeight l)%Z
  ∧ ∀ k : string,
      (foldl setPreference (m0, t0) l).1 !! k
      = match last (filter (λ lt, toLowerCase (User.tag lt) = k) l) with
        | Some e => Some (User.count e)
        | None => m0 !! k
        end.
Proof.
  revert m0 t0. induction l as [|x l IH]; intros m0 t0; simpl.
  - split; [change (Formula.totalWeight []) with 0%Z; lia | done].
  - destruct (IH (<[toLowerCase (User.tag x) := User.count x]> m0) (t0 + User.count x)%Z)
      as [IH1 IH2].
    unfold setPreference at 2 4. simpl. split.
    + rewrite IH1.
      change (Formula.totalWeight (x :: l)) with (User.count x + Formula.totalWeight l)%Z. lia.
    + intros k. rewrite IH2, filter_cons.
      destruct (decide (toLowerCase (User.tag x) = k)) as [<-|Hne].
      * rewrite last_cons.
        destruct (last (filter _ l)); [done|]. by rewrite lookup_insert_eq.
      * destruct (last (filter _ l)); [done|]. by rewrite lookup_insert_ne.
Qed.

Lemma tagPreferences_total (l : list User.LikedTag) :
  (tagPreferences l).2 = Formula.totalWeight l.
Proof. unfold tagPreferences. rewrite (proj1 (tagPreferences_fold l ∅ 0%Z)). lia. Qed.

Lemma tagPreferences_lookup (l : list User.LikedTag) (t : string) :
  (tagPreferences l).1 !! toLowerCase t = Formula.weightOf l t.
Proof.
  unfold tagPreferences, Formula.weightOf.
  rewrite (proj2 (tagPreferences_fold l ∅ 0%Z)).
  by destruct (last _).
Qed.

Lemma matchTags_fold (profile : list User.LikedTag) (m : gmap string Z) (T : Z)
    (postTags : list string) (a : R) (n : nat) :
  (∀ t, m !! toLowerCase t = Formula.weightOf profile t) →
  foldl (matchTag m T) (a, n) postTags
  = (a + foldr Rplus 0
           ((λ t, IZR (default 0%Z (Formula.weightOf profile t)) / IZR T)
              <$> Formula.matched profile postTags),
     (n + length (Formula.matched profile postTags))%nat).
Proof.
  intros Hm. revert a n. unfold Formula.matched.
  induction postTags as [|t l IH]; intros a n; simpl.
  - f_equal; [lra | lia].
  - unfold matchTag at 2. rewrite Hm, filter_cons.
    destruct (Formula.weightOf profile t) as [w|] eqn:Hw; simpl.
    + rewrite IH. simpl. rewrite Hw. simpl. f_equal; [apply Rplus_assoc | lia].
    + by rewrite IH.
Qed.

(** The code computes the formula of the specification. *)
Lemma personalization_formula (postTags : list string) (profile : list User.LikedTag) :
  postTags ≠ [] → profile ≠ [] → Formula.totalWeight profile ≠ 0%Z →
  calculatePersonalizationScore (Some postTags) profile
  = Formula.personalizationScore postTags profile.
Proof.
  intros Hp Hu Ht. unfold calculatePersonalizationScore.
  rewrite decide_False; last first.
  { destruct postTags, profile; simpl; try done. lia. }
  pose proof (tagPreferences_total profile) as Htot.
  pose proof (tagPreferences_lookup profile) as Hlk.
  destruct (tagPreferences profile) as [m T]. simpl in Htot, Hlk. subst T.
  rewrite decide_False by done.
  unfold matchTags. rewrite (matchTags_fold profile) by done.
  rewrite decide_True by (destruct postTags; simpl; [done | lia]).
  unfold Formula.personalizationScore, Formula.matchScore.
  simpl. by rewrite Rplus_0_l.
Qed.

Lemma sqrt2_bracket : 14125 / 10000 < sqrt 2 < 14155 / 10000.
Proof.
  split.
  - rewrite <- (sqrt_square (14125 / 10000)) by lra. apply sqrt_lt_1_alt. lra.
  - rewrite <- (sqrt_square (14155 / 10000)) by lra. apply sqrt_lt_1_alt. lra.
Qed.

(** C1 (personalization formula).  For a non-empty tag list and a non-empty
    profile of positive total weight the code returns the formula of the
    specification: [min(matchScore / sqrt(|postTags|) * (1 + matched /
    |postTags|), 1)] with [matchScore] the sum over the matched tags of
    [weight / totalWeight].  In particular the profile [{cats: 10, dogs: 2}]
    and the tags [cats, birds] give [min((10/12)/sqrt(2) * 1.5, 1)], which
    lies between 0.883 and 0.885. *)
Theorem personalization_matches_formula :
  (∀ (postTags : list string) (profile : list User.LikedTag),
      postTags ≠ [] → profile ≠ [] → (0 < Formula.totalWeight profile)%Z →
      calculatePersonalizationScore (Some postTags) profile
      = Formula.personalizationScore postTags profile)
  ∧ calculatePersonalizationScore (Some ["cats"; "birds"]%string) Scenario.catsAndDogs
    = Rmin (10 / 12 / sqrt 2 * (1 + 5 / 10)) 1
  ∧ 883 / 1000 < Rmin (10 / 12 / sqrt 2 * (1 + 5 / 10)) 1 < 885 / 1000.
Proof.
  split; [|split].
  - intros postTags profile Hp Hu Ht. apply personalization_formula; try done. lia.
  - rewrite personalization_formula by done.
    unfold Formula.personalizationScore, Formula.matchScore.
    change (Formula.matched Scenario.catsAndDogs ["cats"; "birds"]%string)
      with ["cats"%string].
    change (Formula.totalWeight Scenario.catsAndDogs) with 12%Z.
    simpl length. simpl fmap. simpl foldr.
    change (Formula.weightOf Scenario.catsAndDogs "cats") with (Some 10%Z).
    simpl default. simpl INR.
    replace (1 + 1) with 2 by lra. rewrite Rplus_0_r.
    do 2 f_equal. lra.
  - pose proof sqrt2_bracket as [Hlo Hhi].
    assert (10 / 12 / sqrt 2 * (1 + 5 / 10) = 125 / 100 * / sqrt 2) as -> by (field; lra).
    assert (/ (14155 / 10000) < / sqrt 2 < / (14125 / 10000)) as [H1 H2].
    { split; apply Rinv_lt_contravar; try done; nra. }
    assert (/ (14155 / 10000) = 10000 / 14155) as E1 by (field; lra).
    assert (/ (14125 / 10000) = 10000 / 14125) as E2 by (field; lra).
    rewrite E1 in H1. rewrite E2 in H2.
    rewrite Rmin_left by lra. lra.
Qed.

Lemma personalization_matches_formula_witness :
  calculatePersonalizationScore (Some ["Cats"; "birds"; "dogs"]%string) Scenario.catsAndDogs
  = Formula.personalizationScore ["Cats"; "birds"; "dogs"]%string Scenario.catsAndDogs.
Proof.
  apply (proj1 personalization_matches_formula); [done | done | reflexivity].
Defined.

(** *** Bounds *)

Lemma totalWeight_nonneg (profile : list User.LikedTag) :
  Forall (λ lt, (0 ≤ User.count lt)%Z) profile → (0 ≤ Formula.totalWeight profile)%Z.
Proof.
  induction 1 as [|x l Hx _ IH].
  - done.
  - change (Formula.totalWeight (x :: l)) with (User.count x + Formula.totalWeight l)%Z. lia.
Qed.

Lemma weightOf_nonneg (profile : list User.LikedTag) (t : string) :
  Forall (λ lt, (0 ≤ User.count lt)%Z) profile →
  (0 ≤ default 0 (Formula.weightOf profile t))%Z.
Proof.
  intros Hp. unfold Formula.weightOf.
  destruct (last _) as [e|] eqn:Hl; simpl; [|done].
  apply last_Some_elem_of, list_elem_of_filter in Hl as [_ He].
  rewrite Forall_forall in Hp. by apply Hp.
Qed.

Lemma matchScore_nonneg (profile : list User.LikedTag) (postTags : list string) :
  Forall (λ lt, (0 ≤ User.count lt)%Z) profile →
  (0 < Formula.totalWeight profile)%Z →
  0 <= Formula.matchScore profile postTags.
Proof.
  intros Hp Ht. unfold Formula.matchScore.
  induction (Formula.matched profile postTags) as [|t l IH]; simpl; [lra|].
  apply Rplus_le_le_0_compat; [|done].
  apply Rle_mult_inv_pos; [|by apply IZR_lt].
  apply IZR_le. by apply weightOf_nonneg.
Qed.

Lemma formula_bounds (postTags : list string) (profile : list User.LikedTag) :
  postTags ≠ [] →
  Forall (λ lt, (0 ≤ User.count lt)%Z) profile →
  (0 < Formula.totalWeight profile)%Z →
  0 <= Formula.personalizationScore postTags profile <= 1.
Proof.
  intros Hne Hp Ht. unfold Formula.personalizationScore.
  split; [|apply Rmin_r].
  apply Rmin_glb; [|lra].
  assert (0 < INR (length postTags)) as Hn.
  { apply lt_0_INR. destruct postTags; simpl; [done | lia]. }
  apply Rmult_le_pos.
  - apply Rle_mult_inv_pos; [by apply matchScore_nonneg | by apply sqrt_lt_R0].
  - apply Rplus_le_le_0_compat; [lra|].
    apply Rle_mult_inv_pos; [apply pos_INR | done].
Qed.

Lemma personalization_bounds (postTags : option (list string)) (profile : list User.LikedTag) :
  Forall (λ lt, (0 ≤ User.count lt)%Z) profile →
  0 <= calculatePersonalizationScore postTags profile <= 1.
Proof.
  intros Hp.
  destruct postTags as [postTags|]; [|simpl; lra].
  destruct (decide (postTags = [])) as [->|Hne]; [simpl; lra|].
  destruct (decide (profile = [])) as [->|Hu].
  { unfold calculatePersonalizationScore. rewrite decide_True by (by right). lra. }
  destruct (decide (Formula.totalWeight profile = 0%Z)) as [Hz|Hnz].
  - unfold calculatePersonalizationScore. case_decide; [lra|].
    pose proof (tagPreferences_total profile) as Htot.
    destruct (tagPreferences profile) as [m T]. simpl in Htot. subst T.
    rewrite decide_True by done. lra.
  - rewrite personalization_formula by done.
    apply formula_bounds; [done | done |].
    pose proof (totalWeight_nonneg profile Hp). lia.
Qed.

Lemma recency_bounds (createdAt : JsDate) (now : Z) :
  createdAt = DateMissing ∨ (∃ t, createdAt = DateValue t) →
  ∃ s, calculateRecencyScore createdAt now = Ok (Fin s) ∧ 0 <= s <= 1.
Proof.
  intros [-> | [t ->]].
  - exists 0. split; [done | lra].
  - rewrite recency_value. eexists. split; [done | apply clamp_bounds].
Qed.

Lemma ln_1000_pos : 0 < ln 1000.
Proof. rewrite <- ln_1. apply ln_increasing; lra. Qed.

Lemma ln_succ_nonneg (n : Z) : (0 ≤ n)%Z → 0 <= ln (IZR n + 1).
Proof.
  intros Hn. apply IZR_le in Hn.
  destruct (Req_dec (IZR n) 0) as [->|Hne].
  - rewrite Rplus_0_l, ln_1. lra.
  - left. rewrite <- ln_1. apply ln_increasing; lra.
Qed.

(** *** The popularity score away from [NaN] and overflow *)

Lemma toNumber_numeric (c : JsCounter) :
  isNumeric c = true → toNumber c = Fin (IZR (counter c)).
Proof. by destruct c. Qed.

Lemma gt_zero (c : JsCounter) :
  gt (toNumber c) (Fin 0) = bool_decide (0 < counter c)%Z.
Proof.
  destruct c as [|n|]; simpl.
  - destruct (Rlt_dec 0 0); [lra | done].
  - destruct (Rlt_dec 0 (IZR n)) as [Hlt|Hge].
    + apply lt_IZR in Hlt. by rewrite bool_decide_eq_true_2.
    + rewrite bool_decide_eq_false_2; [done|]. intros Hlt. by apply IZR_lt in Hlt.
  - done.
Qed.

Lemma exp_in_range (x : R) : x <= 709 → Math_exp (Fin x) = Fin (exp x).
Proof.
  intros Hx. simpl. destruct (Rlt_dec EXP_OVERFLOW x) as [Hover|_]; [|done].
  unfold EXP_OVERFLOW in Hover. lra.
Qed.

Lemma log_positive (x : R) : 0 < x → Math_log (Fin x) = Fin (ln x).
Proof. intros Hx. simpl. by destruct (Rlt_dec 0 x). Qed.

Lemma ageInHours_value (createdAt : JsDate) (now : Z) :
  Formula.expInRange createdAt now →
  (if isMissing createdAt then Ok (Fin 0)
   else t ←! getTime createdAt; Ok ((Fin (IZR now) - t) / Fin (IZR (1000 * 60 * 60)))%num)
  = Ok (Fin (Formula.ageInHours createdAt now))
  ∧ - Formula.ageInHours createdAt now / 24 <= 709.
Proof.
  destruct createdAt as [|t| |]; simpl Formula.expInRange; intros Hr; try done.
  - split; [done|]. simpl. lra.
  - cbn [isMissing getTime bind Formula.ageInHours].
    rewrite sub_fin, <- minus_IZR.
    rewrite div_fin by (apply not_0_IZR; discriminate).
    split; [done|].
    assert (IZR (- (709 * DAY_IN_MS)) <= IZR (now - t)) as Hage by (apply IZR_le; lia).
    change (IZR (- (709 * DAY_IN_MS))) with (- 61257600000) in Hage.
    change (IZR (1000 * 60 * 60)) with 3600000. lra.
Qed.

Lemma popularity_value (e : Engagement) (createdAt : JsDate) (now : Z) :
  isNumeric (e_likesCount e) = true → isNumeric (e_commentsCount e) = true →
  isNumeric (e_sharesCount e) = true →
  (0 ≤ counter (e_likesCount e) * 1 + counter (e_commentsCount e) * 2
       + counter (e_sharesCount e) * 3)%Z →
  Formula.expInRange createdAt now →
  calculatePopularityScore e createdAt now
  = Ok (Fin (Formula.popularityScore
               (counter (e_likesCount e)) (counter (e_commentsCount e))
               (counter (e_sharesCount e)) (counter (e_viewsCount e))
               (Formula.ageInHours createdAt now))).
Proof.
  intros Hl Hc Hs Hscore Hr. unfold calculatePopularityScore.
  destruct (ageInHours_value createdAt now Hr) as [-> Hexp].
  rewrite (toNumber_numeric _ Hl), (toNumber_numeric _ Hc), (toNumber_numeric _ Hs).
  rewrite gt_zero. cbn [bind].
  set (likes := counter (e_likesCount e)) in *.
  set (comments := counter (e_commentsCount e)) in *.
  set (shares := counter (e_sharesCount e)) in *.
  set (views := counter (e_viewsCount e)) in *.
  assert ((Fin (IZR likes) * Fin 1 + Fin (IZR comments) * Fin 2 + Fin (IZR shares) * Fin 3)%num
          = Fin (IZR (likes * 1 + comments * 2 + shares * 3))) as ->.
  { simpl. f_equal. rewrite !plus_IZR, !mult_IZR. done. }
  set (score := (likes * 1 + comments * 2 + shares * 3)%Z) in *.
  assert ((- Fin (Formula.ageInHours createdAt now) / Fin 24)%num
          = Fin (- Formula.ageInHours createdAt now / 24)) as ->.
  { simpl Js.neg. by rewrite div_fin by lra. }
  rewrite exp_in_range by done.
  assert ((Fin (IZR score) + Fin 1)%num = Fin (IZR score + 1)) as -> by done.
  rewrite log_positive by (apply IZR_le in Hscore; lra).
  rewrite log_positive by lra.
  rewrite div_fin by (pose proof ln_1000_pos; lra).
  unfold Formula.popularityScore. fold score.
  assert ((if bool_decide (0 < views)%Z
           then (Fin (IZR score) / toNumber (e_viewsCount e))%num else Fin 0)
          = Fin (if decide (0 < views)%Z then IZR score / IZR views else 0)) as ->.
  { case_bool_decide as Hv.
    - rewrite decide_True by done.
      unfold views in Hv |- *. destruct (e_viewsCount e) as [|n|]; simpl in Hv; try lia.
      simpl toNumber. simpl counter. apply div_fin. apply IZR_lt in Hv. lra.
    - by rewrite decide_False. }
  done.
Qed.

Lemma popularityScore_bounds (likes comments shares views : Z) (age : R) :
  (0 ≤ likes)%Z → (0 ≤ comments)%Z → (0 ≤ shares)%Z →
  0 <= Formula.popularityScore likes comments shares views age <= 1.
Proof.
  intros Hl Hc Hs. unfold Formula.popularityScore.
  set (score := (likes * 1 + comments * 2 + shares * 3)%Z).
  assert (0 ≤ score)%Z as Hscore by (unfold score; lia).
  set (rate := if decide (0 < views)%Z then IZR score / IZR views else 0).
  assert (0 <= rate) as Hrate.
  { unfold rate. case_decide; [|lra].
    apply Rle_mult_inv_pos; [by apply IZR_le | by apply IZR_lt]. }
  split; [|apply Rmin_l].
  apply Rmin_glb; [lra|].
  assert (0 <= ln (IZR score + 1) / ln 1000).
  { apply Rle_mult_inv_pos; [by apply ln_succ_nonneg | apply ln_1000_pos]. }
  assert (1 / 10 <= Rmax (1 / 10) (exp (- age / 24))) by apply Rmax_l.
  nra.
Qed.

(** Away from the overflow of [Math.exp], on numeric, non-negative
    counters and a profile with non-negative weights: the three scores are
    finite and in [0,1], and with non-negative weights that sum to 1 so is
    the ranking score. *)
Lemma scores_bounded_in_range (w : Weights) (p : Post) (profile : list User.LikedTag)
    (nowR nowP : Z) :
  Forall (λ lt, (0 ≤ User.count lt)%Z) profile →
  isNumeric (likesCount p) = true → isNumeric (commentsCount p) = true →
  isNumeric (sharesCount p) = true →
  (0 ≤ counter (likesCount p))%Z → (0 ≤ counter (commentsCount p))%Z →
  (0 ≤ counter (sharesCount p))%Z →
  Formula.expInRange (createdAt p) nowP →
  0 <= calculatePersonalizationScore (tags p) profile <= 1
  ∧ (∃ r, calculateRecencyScore (createdAt p) nowR = Ok (Fin r) ∧ 0 <= r <= 1)
  ∧ (∃ q, calculatePopularityScore
            (mkEngagement (likesCount p) (commentsCount p) (sharesCount p) (viewsCount p))
            (createdAt p) nowP = Ok (Fin q) ∧ 0 <= q <= 1)
  ∧ (0 <= PERSONALIZATION_WEIGHT w → 0 <= RECENCY_WEIGHT w → 0 <= POPULARITY_WEIGHT w →
     PERSONALIZATION_WEIGHT w + RECENCY_WEIGHT w + POPULARITY_WEIGHT w = 1 →
     ∃ s, calculateRankingScore w p profile nowR nowP = Ok (Fin s) ∧ 0 <= s <= 1).
Proof.
  intros Hp Hnl Hnc Hns Hl Hc Hs Hr.
  pose proof (personalization_bounds (tags p) profile Hp) as Hpers.
  assert (∃ r, calculateRecencyScore (createdAt p) nowR = Ok (Fin r) ∧ 0 <= r <= 1) as Hrec.
  { apply recency_bounds. destruct (createdAt p); simpl in Hr; eauto; done. }
  assert (∃ q, calculatePopularityScore
            (mkEngagement (likesCount p) (commentsCount p) (sharesCount p) (viewsCount p))
            (createdAt p) nowP = Ok (Fin q) ∧ 0 <= q <= 1) as Hpop.
  { rewrite popularity_value by (simpl; (done || lia)).
    eexists. split; [done|]. by apply popularityScore_bounds. }
  split; [done|]. split; [done|]. split; [done|].
  intros Hw1 Hw2 Hw3 Hsum.
  destruct Hrec as (r & Hrec & Hrb). destruct Hpop as (q & Hpop & Hqb).
  unfold calculateRankingScore, rankingScoreBody. rewrite Hrec, Hpop. simpl.
  eexists. split; [done|]. nra.
Qed.

(** C2.  The bound fails where [Math.exp] overflows: a post without any
    engagement that is dated 710 days after the evaluation time gets the
    time adjustment [Infinity] and the raw score 0, whose product is [NaN];
    the popularity score and the ranking score are [NaN]. *)
Theorem popularity_nan_far_future :
  calculatePopularityScore
    (mkEngagement (likesCount Scenario.farFuturePost) (commentsCount Scenario.farFuturePost)
       (sharesCount Scenario.farFuturePost) (viewsCount Scenario.farFuturePost))
    (createdAt Scenario.farFuturePost) 0 = Ok NaN
  ∧ calculateRankingScore defaultWeights Scenario.farFuturePost Scenario.catsAndDogs 0 0
    = Ok NaN.
Proof.
  assert (calculatePopularityScore
            (mkEngagement (CounterValue 0) (CounterValue 0) (CounterValue 0) (CounterValue 0))
            (DateValue (710 * 86400000)) 0 = Ok NaN) as Hpop.
  { unfold calculatePopularityScore. cbn [isMissing getTime bind e_likesCount e_commentsCount
      e_sharesCount e_viewsCount toNumber].
    rewrite sub_fin, div_fin by (apply not_0_IZR; discriminate).
    simpl Js.neg. rewrite div_fin by lra.
    assert (Math_exp (Fin (- ((0 - IZR (710 * 86400000)) / IZR (1000 * 60 * 60)) / 24))
            = Infinity) as ->.
    { simpl. destruct (Rlt_dec _ _) as [_|Hno]; [done|]. exfalso. apply Hno.
      unfold EXP_OVERFLOW.
      change (IZR (710 * 86400000)) with 61344000000.
      change (IZR (1000 * 60 * 60)) with 3600000. lra. }
    assert ((Fin 0 * Fin 1 + Fin 0 * Fin 2 + Fin 0 * Fin 3)%num = Fin 0) as ->.
    { simpl. f_equal. lra. }
    assert ((Fin 0 + Fin 1)%num = Fin 1) as -> by (simpl; f_equal; lra).
    rewrite !log_positive by lra. rewrite ln_1.
    rewrite div_fin by (pose proof ln_1000_pos; lra).
    replace (0 / ln 1000) with 0 by (unfold Rdiv; lra).
    simpl. unfold signedInfinity.
    destruct (Rlt_dec 0 0); [lra|]. by destruct (Rlt_dec 0 0). }
  split; [exact Hpop|].
  unfold calculateRankingScore, rankingScoreBody.
  change (createdAt Scenario.farFuturePost) with (DateValue (710 * 86400000)).
  rewrite recency_value.
  change (likesCount Scenario.farFuturePost) with (CounterValue 0).
  change (commentsCount Scenario.farFuturePost) with (CounterValue 0).
  change (sharesCount Scenario.farFuturePost) with (CounterValue 0).
  change (viewsCount Scenario.farFuturePost) with (CounterValue 0).
  rewrite Hpop. simpl. reflexivity.
Qed.

End ScoreFacts.

(** ** services/rankingService.js : the batch boundary *)

Section BatchFacts.
Import Js Constants RankingService.
Local Open Scope R_scope.

Lemma mapM_total {A B : Type} (f : A → Result B) (g : A → B) (l : list A) :
  (∀ x, f x = Ok (g x)) → mapM f l = Ok (g <$> l).
Proof.
  intros Hf. induction l as [|x l IH]; simpl; [done|].
  by rewrite Hf, IH.
Qed.

(** The only failure of the body: [getTime] on a value that has none. *)
Lemma rankingScoreBody_malformed (w : Weights) (p : Post) (profile : list User.LikedTag)
    (nowR nowP : Z) :
  createdAt p = DateMalformed →
  ∃ e, rankingScoreBody w p profile nowR nowP = Throw e.
Proof.
  intros Hd. unfold rankingScoreBody, calculateRecencyScore. rewrite Hd. simpl. eauto.
Qed.

Lemma rankingScoreBody_returns (w : Weights) (p : Post) (profile : list User.LikedTag)
    (nowR nowP : Z) :
  createdAt p ≠ DateMalformed →
  ∃ s, rankingScoreBody w p profile nowR nowP = Ok s.
Proof.
  intros Hd. unfold rankingScoreBody, calculateRecencyScore, calculatePopularityScore.
  destruct (createdAt p); [| | |done]; cbn [isMissing getTime bind]; eauto.
Qed.

(** The score [calculateRankingScore] gives: that of the body, or 0. *)
Lemma calculateRankingScore_caught (w : Weights) (p : Post) (profile : list User.LikedTag)
    (nowR nowP : Z) :
  calculateRankingScore w p profile nowR nowP
  = Ok match rankingScoreBody w p profile nowR nowP with
       | Ok s => s
       | Throw _ => Fin 0
       end.
Proof. unfold calculateRankingScore. by destruct (rankingScoreBody _ _ _ _ _). Qed.

(** [NaN] is not an error: it goes through the sums and products of the
    body to the result. *)
Lemma popularity_nan (e : Engagement) (createdAt : JsDate) (now : Z) :
  createdAt ≠ DateMalformed →
  isNumeric (e_likesCount e) = false ∨ isNumeric (e_commentsCount e) = false
  ∨ isNumeric (e_sharesCount e) = false ∨ createdAt = DateInvalid →
  calculatePopularityScore e createdAt now = Ok NaN.
Proof.
  intros Hd Hnan. unfold calculatePopularityScore.
  destruct (decide (createdAt = DateInvalid)) as [->|Hvalid].
  { cbn [isMissing getTime bind].
    change (Math_max (Fin (1 / 10))
              (Math_exp (- ((Fin (IZR now) - NaN) / Fin (IZR (1000 * 60 * 60))) / Fin 24)%num))
      with NaN.
    by rewrite mul_NaN_r. }
  assert ((toNumber (e_likesCount e) * Fin 1 + toNumber (e_commentsCount e) * Fin 2
           + toNumber (e_sharesCount e) * Fin 3)%num = NaN) as ->.
  { destruct Hnan as [H | [H | [H | H]]]; [| | |done].
    - destruct (e_likesCount e); try done.
    - destruct (e_commentsCount e); try done. simpl. by rewrite add_NaN_r.
    - destruct (e_sharesCount e); try done. simpl. by rewrite add_NaN_r. }
  destruct createdAt; [| | done | done]; cbn [isMissing getTime bind]; reflexivity.
Qed.

Lemma ranking_nan (w : Weights) (p : Post) (profile : list User.LikedTag) (nowR nowP : Z) :
  createdAt p ≠ DateMalformed →
  isNumeric (likesCount p) = false ∨ isNumeric (commentsCount p) = false
  ∨ isNumeric (sharesCount p) = false ∨ createdAt p = DateInvalid →
  rankingScoreBody w p profile nowR nowP = Ok NaN.
Proof.
  intros Hd Hnan. unfold rankingScoreBody.
  rewrite (popularity_nan _ _ nowP Hd) by done.
  unfold calculateRecencyScore.
  destruct (createdAt p); [| | |done]; cbn [isMissing getTime bind]; simpl Js.mul;
    by rewrite add_NaN_r.
Qed.

(** Counters that the arithmetic reads as 0 can be written out. *)
Lemma rankingScoreBody_zeroFilled (w : Weights) (p : Post) (profile : list User.LikedTag)
    (nowR nowP : Z) :
  rankingScoreBody w (zeroFilled p) profile nowR nowP = rankingScoreBody w p profile nowR nowP.
Proof.
  unfold rankingScoreBody, zeroFilled, calculatePopularityScore. simpl.
  assert (∀ c, toNumber match c with CounterMissing => CounterValue 0 | _ => c end
               = toNumber c) as Hfill by (by intros []).
  rewrite !Hfill.
  destruct (viewsCount p) as [|n|]; [done | done |].
  simpl. by destruct (Rlt_dec 0 0); [lra|].
Qed.

(** The batch, post by post. *)
Lemma batch_returns (w : Weights) (posts : list Post) (profile : list User.LikedTag)
    (clock : nat → Z * Z) :
  calculateBatchRankingScores w posts profile clock
  = Ok ((λ ip : nat * Post,
           mkRankedPost ip.2
             match rankingScoreBody w ip.2 profile (clock ip.1).1 (clock ip.1).2 with
             | Ok s => s
             | Throw _ => Fin 0
             end
             (if decide (0 < length profile)%nat then "user" else "general")%string)
          <$> imap pair posts).
Proof.
  unfold calculateBatchRankingScores. apply mapM_total.
  intros ip. unfold annotate. by rewrite calculateRankingScore_caught.
Qed.

(** C8, amended (no failure escapes the batch).
    [calculateBatchRankingScores] returns for every list of posts, with the
    same posts in the same order.  An error thrown while a post is scored,
    which is what a [createdAt] without [getTime] causes, gives that post
    the score 0; otherwise the score is the value of the scoring body.
    Counters that are missing, and a view counter that is not a number,
    are scored as the counter 0.  A like, comment or share counter that is
    not a number, and an invalid [Date], throw nothing: the score of such
    a post is [NaN], not 0. *)
Theorem batch_never_raises (w : Weights) (posts : list Post) (profile : list User.LikedTag)
    (clock : nat → Z * Z) :
  ∃ ranked : list RankedPost,
    calculateBatchRankingScores w posts profile clock = Ok ranked
    ∧ post <$> ranked = posts
    ∧ ∀ (i : nat) (p : Post), posts !! i = Some p →
        ∃ r, ranked !! i = Some r
             ∧ post r = p
             ∧ (createdAt p = DateMalformed → rankingScore r = Fin 0)
             ∧ (createdAt p ≠ DateMalformed →
                rankingScoreBody w p profile (clock i).1 (clock i).2 = Ok (rankingScore r))
             ∧ calculateRankingScore w (zeroFilled p) profile (clock i).1 (clock i).2
               = Ok (rankingScore r)
             ∧ (createdAt p ≠ DateMalformed →
                isNumeric (likesCount p) = false ∨ isNumeric (commentsCount p) = false
                ∨ isNumeric (sharesCount p) = false ∨ createdAt p = DateInvalid →
                rankingScore r = NaN).
Proof.
  eexists. split; [apply batch_returns|]. split.
  - apply list_eq. intros i.
    rewrite !list_lookup_fmap, list_lookup_imap.
    by destruct (posts !! i).
  - intros i p Hi. eexists. split.
    { by rewrite list_lookup_fmap, list_lookup_imap, Hi. }
    cbn [post rankingScore fst snd]. split; [done|]. split; [|split; [|split]].
    + intros Hd.
      by destruct (rankingScoreBody_malformed w p profile (clock i).1 (clock i).2 Hd) as [e ->].
    + intros Hd.
      by destruct (rankingScoreBody_returns w p profile (clock i).1 (clock i).2 Hd) as [s ->].
    + by rewrite calculateRankingScore_caught, rankingScoreBody_zeroFilled.
    + intros Hd Hnan. by rewrite ranking_nan.
Qed.

(** A batch with a well-formed post, one whose [createdAt] came back as a
    string, one with a like counter that is not a number and one with an
    invalid date: the second is scored 0, the last two [NaN], and the
    batch is returned. *)
Example batch_with_malformed_posts :
  ∃ r1 r2 r3 r4,
    calculateBatchRankingScores defaultWeights
      [ Scenario.samplePost; Scenario.malformedPost;
        Scenario.nanCounterPost; Scenario.invalidDatePost ] Scenario.catsAndDogs
      (λ _, (1000, 1000)%Z)
    = Ok [ r1; r2; r3; r4 ]
    ∧ post r1 = Scenario.samplePost
    ∧ rankingScore r2 = Fin 0 ∧ rankingScore r3 = NaN ∧ rankingScore r4 = NaN.
Proof.
  rewrite batch_returns. cbn [imap fmap list_fmap fst snd compose].
  eexists _, _, _, _. split; [reflexivity|]. cbn [post rankingScore].
  split; [done|]. split; [|split].
  - by destruct (rankingScoreBody_malformed defaultWeights Scenario.malformedPost
                   Scenario.catsAndDogs 1000 1000 eq_refl) as [e ->].
  - rewrite ranking_nan; [done | done | by left].
  - rewrite ranking_nan; [done | done | by right; right; right].
Qed.

(** C8, as stated, fails.  A post whose like counter is not a number is
    scored [NaN]: nothing is thrown, so nothing is caught, and the score
    is neither 0 nor the score of the post without the counter. *)
Lemma malformed_counter_counterexample :
  ¬ BatchSpec.toleratesMalformed defaultWeights [ Scenario.nanCounterPost ]
      Scenario.catsAndDogs (λ _, (1000, 1000)%Z).
Proof.
  intros (ranked & Hbatch & _ & Hscore).
  assert (ranked = [ mkRankedPost Scenario.nanCounterPost NaN "user" ]) as ->.
  { rewrite batch_returns in Hbatch.
    cbn [imap fmap list_fmap fst snd compose] in Hbatch.
    rewrite ranking_nan in Hbatch; [|done|by left].
    by injection Hbatch as <-. }
  destruct (Hscore 0%nat _ eq_refl) as [Hzero | Hrepaired].
  - cbn [post]. by left.
  - discriminate.
  - cbn [post rankingScore fst snd] in Hrepaired.
    destruct (scores_bounded_in_range defaultWeights
                (BatchSpec.withoutMalformed Scenario.nanCounterPost) Scenario.catsAndDogs
                1000 1000) as (_ & _ & _ & Hfin); try (simpl; (done || lia)).
    { repeat constructor; simpl; lia. }
    destruct Hfin as (s & Hs & _);
      try (unfold defaultWeights, weightsFromEnv, orDefault; simpl; lra).
    rewrite Hs in Hrepaired. discriminate.
Qed.

End BatchFacts.

(** ** services/rankingService.js : the diversity pass *)

Section DiversityFacts.
Import Js RankingService.
Context {A : Type} `{EqDecision A} (tagsOf : A → option (list string)).

Lemma indexOf_elem_of (x : A) (remaining : list A) :
  x ∈ remaining → ∃ i, indexOf x remaining = Some i ∧ remaining !! i = Some x.
Proof.
  intros Hx. unfold indexOf.
  destruct (list_find_elem_of (λ y, y = x) remaining x Hx eq_refl) as [[i y] Hf].
  rewrite Hf. simpl. exists i. split; [done|].
  by apply list_find_Some in Hf as (Hi & -> & _).
Qed.

(** Removing the chosen post takes exactly that post out of [remaining]. *)
Lemma splice1_chosen (nextPost : A) (remaining : list A) :
  nextPost ∈ remaining →
  nextPost :: splice1 (indexOf nextPost remaining) remaining ≡ₚ remaining.
Proof.
  intros Hx. destruct (indexOf_elem_of nextPost remaining Hx) as (i & -> & Hi).
  simpl. symmetry. by apply delete_Permutation.
Qed.

Lemma different_head_elem_of (lastPost nextPost : A) (different remaining : list A) :
  filter (λ p, isDifferent tagsOf lastPost p = true) remaining = nextPost :: different →
  nextPost ∈ remaining.
Proof.
  intros Hf.
  assert (nextPost ∈ filter (λ p, isDifferent tagsOf lastPost p = true) remaining) as Hin
    by (rewrite Hf; left).
  by apply list_elem_of_filter in Hin as [_ ?].
Qed.

(** The loop places every remaining post exactly once, whatever is drawn. *)
Lemma diversifyLoop_permutation (fuel : nat) (diversified : list A) (lastPost : A)
    (remaining : list A) (diversityFactor : Q) (draws : nat → Q) (k : nat) :
  length remaining ≤ fuel →
  diversifyLoop tagsOf fuel diversified lastPost remaining diversityFactor draws k
  ≡ₚ diversified ++ lastPost :: remaining.
Proof.
  revert diversified lastPost remaining k.
  induction fuel as [|fuel IH]; intros diversified lastPost remaining k Hlen.
  { destruct remaining; simpl in *; [done | lia]. }
  destruct remaining as [|next rest]; [done|].
  cbn [diversifyLoop].
  destruct (filter _ (next :: rest)) as [|nextPost different] eqn:Hf.
  - rewrite IH by (simpl in Hlen; lia). by rewrite <- app_assoc.
  - destruct (Qlt_le_dec (draws k) diversityFactor).
    + apply different_head_elem_of in Hf.
      pose proof (splice1_chosen nextPost (next :: rest) Hf) as Hperm.
      rewrite IH.
      * rewrite <- app_assoc. simpl. by rewrite Hperm.
      * apply Permutation_length in Hperm. simpl in Hperm, Hlen. lia.
    + rewrite IH by (simpl in Hlen; lia). by rewrite <- app_assoc.
Qed.

(** C7 (diversity preserves the set).  For every list of posts, every
    [diversityFactor] and every sequence of values returned by
    [Math.random()], the result of [applyDiversity] is a permutation of the
    input: same elements with the same multiplicities, same length. *)
Theorem applyDiversity_permutation (posts : list A) (diversityFactor : Q) (draws : nat → Q) :
  applyDiversity tagsOf posts diversityFactor draws ≡ₚ posts
  ∧ length (applyDiversity tagsOf posts diversityFactor draws) = length posts.
Proof.
  assert (applyDiversity tagsOf posts diversityFactor draws ≡ₚ posts) as Hperm.
  { unfold applyDiversity. case_decide; [done|].
    destruct (Qle_bool diversityFactor 0); [done|].
    destruct posts as [|top remaining]; [done|].
    by rewrite diversifyLoop_permutation. }
  split; [done | by apply Permutation_length].
Qed.

End DiversityFacts.

(** The first post keeps its place; with draws below the factor the next
    dissimilar post is pulled forward, with draws above it nothing moves. *)
Example applyDiversity_reorders :
  RankingService._id <$>
    RankingService.applyDiversity RankingService.tags Scenario.sixPosts (3 # 10) (λ _, 0%Q)
  = ["0"; "3"; "1"; "4"; "2"; "5"].
Proof. vm_compute. reflexivity. Qed.

Example applyDiversity_greedy :
  RankingService.applyDiversity RankingService.tags Scenario.sixPosts (3 # 10) (λ _, 1 # 2)
  = Scenario.sixPosts.
Proof. vm_compute. reflexivity. Qed.

(** ** The cache in front of the feed *)

Section CacheFacts.
Import Js Constants Store.
Context {FeedPost : Type}.
Context (postId : FeedPost → string).
Context (buildFeed :
  World FeedPost → string → FeedController.Query → Z → Result (list FeedPost) * World FeedPost).

Implicit Types (w : World FeedPost) (userId likedPostId key : string).

(** Feed keys and the preferred-tags key never coincide. *)
Lemma feed_key_not_tags_key userId (u2 : string) (q : FeedController.Query) :
  FeedController.cacheKey userId q ≠ USER_LIKED_TAGS u2
  ∧ USER_FEED userId ≠ USER_LIKED_TAGS u2.
Proof. split; unfold FeedController.cacheKey, USER_FEED, USER_LIKED_TAGS; discriminate. Qed.

(** Saving liked tags writes user documents only. *)
Lemma likeLoop_cache userId w (likedTags : list User.LikedTag) (calls : list (string * Z)) :
  match foldM (PersonalizationService.likeOne userId) (w, likedTags) calls with
  | Ok st => cache st.1 = cache w ∧ dbConnected st.1 = dbConnected w
  | Throw _ => dbConnected w = false
  end.
Proof.
  revert w likedTags. induction calls as [|c calls IH]; intros w likedTags; simpl.
  { split; reflexivity. }
  unfold PersonalizationService.likeOne at 1. simpl.
  destruct (dbConnected w) eqn:Hdb; simpl; [|done].
  specialize (IH (withUser w userId (User.addLikedTag likedTags c.1 c.2))
                 (User.addLikedTag likedTags c.1 c.2)).
  unfold withUser in IH at 2 3. simpl in IH.
  destruct (foldM _ _ calls); [|congruence].
  destruct IH as [-> ->]. by rewrite Hdb.
Qed.

Lemma delete_other (c : CacheService.Cache (Cached FeedPost)) key (k2 : string) :
  k2 ≠ key →
  CacheService.store (CacheService.delete c key).2 !! k2 = CacheService.store c !! k2.
Proof.
  intros Hne. unfold CacheService.delete.
  destruct (CacheService.isAvailable c); simpl; [|done]. by rewrite lookup_delete_ne.
Qed.

Lemma delete_available (c : CacheService.Cache (Cached FeedPost)) key :
  CacheService.isAvailable (CacheService.delete c key).2 = CacheService.isAvailable c.
Proof. unfold CacheService.delete. by destruct (CacheService.isAvailable c) eqn:E. Qed.

(** The update touches no cache key but the user's preferred-tags key. *)
Lemma update_cache_frame w userId likedPostId (clock : nat → Z) :
  let w' := PersonalizationService.updateUserPreferencesOnLike w userId likedPostId clock in
  CacheService.isAvailable (cache w') = CacheService.isAvailable (cache w)
  ∧ ∀ key, key ≠ USER_LIKED_TAGS userId →
      CacheService.store (cache w') !! key = CacheService.store (cache w) !! key.
Proof.
  unfold PersonalizationService.updateUserPreferencesOnLike, PersonalizationService.updateBody,
    PersonalizationService.findPostById, PersonalizationService.findUserById.
  destruct (dbConnected w) eqn:Hdb; cbn -[foldM imap CacheService.delete]; [|done].
  destruct (postDocs w !! likedPostId) as [p|]; [|done].
  destruct (RankingService.tags p) as [[|t ts]|]; [done| |done].
  destruct (userDocs w !! userId) as [likedTags|]; cbn -[foldM imap CacheService.delete]; [|done].
  pose proof (likeLoop_cache userId w likedTags (imap (λ i t0, (t0, clock i)) (t :: ts))) as Hl.
  destruct (foldM _ _ _) as [st|e]; cbn -[CacheService.delete]; [|done].
  destruct Hl as [Hc _]. rewrite delete_available, Hc. split; [done|].
  intros key Hne. by rewrite delete_other.
Qed.

Lemma get_frame (c c' : CacheService.Cache (Cached FeedPost)) key (now : Z) :
  CacheService.isAvailable c' = CacheService.isAvailable c →
  CacheService.store c' !! key = CacheService.store c !! key →
  CacheService.get c' key now = CacheService.get c key now.
Proof. intros Ha Hs. unfold CacheService.get. by rewrite Ha, Hs. Qed.

(** When the update runs to its last line the preferred-tags key is gone. *)
Lemma update_deletes_tags_key w userId likedPostId (clock : nat → Z)
    (p : RankingService.Post) (t : string) (ts : list string) :
  dbConnected w = true → CacheService.isAvailable (cache w) = true →
  postDocs w !! likedPostId = Some p → RankingService.tags p = Some (t :: ts) →
  is_Some (userDocs w !! userId) →
  CacheService.store
    (cache (PersonalizationService.updateUserPreferencesOnLike w userId likedPostId clock))
    !! USER_LIKED_TAGS userId = None.
Proof.
  intros Hdb Hav Hp Ht [likedTags Hu].
  unfold PersonalizationService.updateUserPreferencesOnLike, PersonalizationService.updateBody,
    PersonalizationService.findPostById, PersonalizationService.findUserById.
  rewrite Hdb. cbn -[foldM imap CacheService.delete]. rewrite Hp, Ht, Hu.
  cbn -[foldM imap CacheService.delete].
  pose proof (likeLoop_cache userId w likedTags (imap (λ i t0, (t0, clock i)) (t :: ts))) as Hl.
  destruct (foldM _ _ _) as [st|e]; cbn -[CacheService.delete]; [|congruence].
  destruct Hl as [Hc _]. rewrite Hc. unfold CacheService.delete. rewrite Hav. simpl.
  apply lookup_delete_eq.
Qed.

(** C6, amended (what a like invalidates).  [updateUserPreferencesOnLike]
    deletes no cache key but the user's preferred-tags key [tags:user:U],
    and it does delete that one when the update reaches the invalidation
    (database up, post with tags, known user) and the cache is available.
    No feed key of the user is touched: the bare key [feed:user:U] and
    every page key [feed:user:U:page:limit:tags] keep their entry, so the
    next feed read without [refresh] answers from the cache exactly what it
    would have answered before the like. *)
Theorem like_invalidates_tags_only w userId likedPostId (clock : nat → Z)
    (q : FeedController.Query) (now : Z) :
  let w' := PersonalizationService.updateUserPreferencesOnLike w userId likedPostId clock in
  (∀ key, key ≠ USER_LIKED_TAGS userId →
      CacheService.store (cache w') !! key = CacheService.store (cache w) !! key)
  ∧ CacheService.store (cache w') !! USER_FEED userId
    = CacheService.store (cache w) !! USER_FEED userId
  ∧ CacheService.store (cache w') !! FeedController.cacheKey userId q
    = CacheService.store (cache w) !! FeedController.cacheKey userId q
  ∧ (∀ c, FeedController.q_refresh q = false →
          CacheService.get (cache w) (FeedController.cacheKey userId q) now = Some c →
          FeedController.getPersonalizedFeed postId buildFeed w' userId q now
          = (FeedController.Json200 (FeedController.cachedPosts c)
               (FeedController.cachedPagination c) true, w'))
  ∧ (dbConnected w = true → CacheService.isAvailable (cache w) = true →
     (∃ p t ts, postDocs w !! likedPostId = Some p ∧ RankingService.tags p = Some (t :: ts)) →
     is_Some (userDocs w !! userId) →
     CacheService.store (cache w') !! USER_LIKED_TAGS userId = None).
Proof.
  intros w'.
  destruct (update_cache_frame w userId likedPostId clock) as [Hav Hframe].
  destruct (feed_key_not_tags_key userId userId q) as [Hk1 Hk2].
  fold w' in Hav, Hframe.
  split; [done|]. split; [by apply Hframe|]. split; [by apply Hframe|]. split.
  - intros c Hr Hget. unfold FeedController.getPersonalizedFeed. rewrite Hr.
    rewrite (get_frame (cache w) (cache w')) by (by try apply Hframe).
    by rewrite Hget.
  - intros Hdb Hcache (p & t & ts & Hp & Ht) Hu.
    by eapply update_deletes_tags_key.
Qed.

End CacheFacts.

Section CacheScenario.
Import Js Constants Store.

Lemma like_invalidates_tags_only_witness :
  let w' := PersonalizationService.updateUserPreferencesOnLike
              Scenario.staleWorld "u1" "p1" (λ i, Z.of_nat i) in
  FeedController.getPersonalizedFeed Scenario.idOf Scenario.emptyFeed w' "u1" Scenario.defaultQuery 1000
  = (FeedController.Json200 (Some ["p9"])
       (Some (Store.mkPagination 1 20 false (Some "p9") 1)) true, w')
  ∧ CacheService.store (cache w') !! USER_LIKED_TAGS "u1" = None.
Proof.
  intros w'.
  destruct (like_invalidates_tags_only Scenario.idOf Scenario.emptyFeed Scenario.staleWorld "u1" "p1"
              (λ i, Z.of_nat i) Scenario.defaultQuery 1000) as (_ & _ & _ & Hread & Hdel).
  split.
  - apply (Hread (CachedFeed Scenario.cachedPage)); [reflexivity | vm_compute; reflexivity].
  - apply Hdel; [reflexivity | reflexivity | | vm_compute; eauto].
    exists Scenario.samplePost, "cats", ["birds"]. split; [vm_compute; reflexivity | reflexivity].
Defined.

(** C6, as stated, fails.  User [u1] has a feed page cached under
    [feed:user:u1:1:20:all].  Liking post [p1] changes the profile of [u1]
    from empty to [cats, birds], and the update deletes [tags:user:u1]
    only: the feed entry is still there, and the next feed read returns the
    page computed before the like, flagged [cached: true]. *)
Lemma stale_feed_counterexample :
  ¬ Invalidation.noStaleFeedAfterLike Scenario.idOf Scenario.emptyFeed Scenario.staleWorld
      "u1" "p1" (λ i, Z.of_nat i) Scenario.defaultQuery 1000.
Proof.
  unfold Invalidation.noStaleFeedAfterLike. intros Hclaim.
  destruct Hclaim as [Habsent | Hfresh].
  - vm_compute. eauto.
  - vm_compute in Habsent. discriminate.
  - apply (Hfresh (Some ["p9"]) (Some (Store.mkPagination 1 20 false (Some "p9") 1))).
    vm_compute. reflexivity.
Qed.

(** In that scenario the like did change the stored profile. *)
Example stale_feed_profile_changed :
  userDocs Scenario.staleWorld !! "u1" = Some []
  ∧ userDocs (PersonalizationService.updateUserPreferencesOnLike Scenario.staleWorld
                "u1" "p1" (λ i, Z.of_nat i)) !! "u1"
    = Some [ User.mkLikedTag "cats" 1 0; User.mkLikedTag "birds" 1 1 ].
Proof. split; vm_compute; reflexivity. Qed.

End CacheScenario.

(** * Further properties of the code *)

(** ** models/User.js : more on [addLikedTag] and [getPreferredTags] *)

Section UserMore.
Import User.

Implicit Types (p l : list LikedTag) (t : string) (now : Z).

Lemma lower_ascii_idemp (c : Ascii.ascii) : Js.lower_ascii (Js.lower_ascii c) = Js.lower_ascii c.
Proof. destruct c as [[] [] [] [] [] [] [] []]; reflexivity. Qed.

Lemma toLowerCase_idemp (s : string) : Js.toLowerCase (Js.toLowerCase s) = Js.toLowerCase s.
Proof. induction s as [|c s IH]; simpl; [done|]. by rewrite lower_ascii_idemp, IH. Qed.

Lemma isSpace_lower (c : Ascii.ascii) : Js.isSpace (Js.lower_ascii c) = Js.isSpace c.
Proof. destruct c as [[] [] [] [] [] [] [] []]; reflexivity. Qed.

Lemma toLowerCase_trimStart (s : string) :
  Js.toLowerCase (Js.trimStart s) = Js.trimStart (Js.toLowerCase s).
Proof.
  induction s as [|c s IH]; simpl; [done|].
  rewrite isSpace_lower. by destruct (Js.isSpace c).
Qed.

Lemma toLowerCase_trimEnd (s : string) :
  Js.toLowerCase (Js.trimEnd s) = Js.trimEnd (Js.toLowerCase s).
Proof.
  induction s as [|c s IH]; simpl; [done|].
  rewrite <- IH, isSpace_lower.
  destruct (Js.trimEnd s); simpl; [by destruct (Js.isSpace c) | done].
Qed.

Lemma toLowerCase_trim (s : string) : Js.toLowerCase (Js.trim s) = Js.trim (Js.toLowerCase s).
Proof. unfold Js.trim. by rewrite toLowerCase_trimEnd, toLowerCase_trimStart. Qed.

Lemma trimEnd_idemp (s : string) : Js.trimEnd (Js.trimEnd s) = Js.trimEnd s.
Proof.
  induction s as [|c s IH]; simpl; [done|].
  destruct (Js.trimEnd s) as [|a r] eqn:Hs.
  - destruct (Js.isSpace c) eqn:Hc; simpl; [done|]. by rewrite Hc.
  - change (Js.trimEnd (String c (String a r)))
      with (match Js.trimEnd (String a r) with
            | EmptyString => if Js.isSpace c then EmptyString else String c EmptyString
            | r' => String c r'
            end).
    by rewrite IH.
Qed.

(** [trimEnd] keeps a first character that is not white space. *)
Lemma trimStart_trimEnd (s : string) :
  Js.trimStart (Js.trimEnd (Js.trimStart s)) = Js.trimEnd (Js.trimStart s).
Proof.
  induction s as [|c s IH]; simpl; [done|].
  destruct (Js.isSpace c) eqn:Hc; [done|]. simpl.
  destruct (Js.trimEnd s); rewrite ?Hc; simpl; by rewrite ?Hc.
Qed.

Lemma trim_idemp (s : string) : Js.trim (Js.trim s) = Js.trim s.
Proof. unfold Js.trim. by rewrite trimStart_trimEnd, trimEnd_idemp. Qed.

(** The schema setters leave a trimmed, lower-cased tag alone, and what
    they store is trimmed and lower-cased. *)
Lemma castTag_lower_trimmed (t : string) :
  Js.trim t = t → castTag (Js.toLowerCase t) = Js.toLowerCase t.
Proof.
  intros Ht. unfold castTag. by rewrite <- toLowerCase_trim, Ht, toLowerCase_idemp.
Qed.

Lemma castTag_stored (t : string) :
  Js.toLowerCase (castTag t) = castTag t ∧ Js.trim (castTag t) = castTag t.
Proof.
  unfold castTag. split; [apply toLowerCase_idemp|].
  by rewrite <- toLowerCase_trim, trim_idemp.
Qed.

(** Replacing an entry that does not satisfy the predicate by another one
    that does not satisfy it either leaves [find] unchanged. *)
Lemma list_find_insert_other {A} (P : A → Prop) `{∀ x, Decision (P x)}
    (l : list A) (i : nat) (x y : A) :
  l !! i = Some y → ¬ P y → ¬ P x → list_find P (<[i:=x]> l) = list_find P l.
Proof.
  revert i. induction l as [|z l IH]; intros [|i] Hi Hy Hx; simpl in *; try done.
  - injection Hi as ->. by rewrite !decide_False.
  - destruct (decide (P z)); [done|]. by rewrite IH.
Qed.

Lemma list_find_snoc_other {A} (P : A → Prop) `{∀ x, Decision (P x)} (l : list A) (x : A) :
  ¬ P x → list_find P (l ++ [x]) = list_find P l.
Proof.
  intros Hx. induction l as [|z l IH]; simpl.
  - by rewrite decide_False.
  - destruct (decide (P z)); [done|]. by rewrite IH.
Qed.

(** X1.  For a tag without surrounding white space whose stored count
    is below 2^53 in absolute value (so that the increment of the Number is
    exact): when the update does not push the list over 100 entries, the
    liked tag ends up with an entry whose count is the former weight plus
    one and whose [lastLikedAt] is the time of the call. *)
Theorem addLikedTag_increments p t now :
  length (recordLike p t now) ≤ 100 →
  Js.trim t = t →
  (Z.abs (weight p t) < 2 ^ 53)%Z →
  ∃ i e, list_find (λ lt, tag lt = Js.toLowerCase t) (addLikedTag p t now) = Some (i, e)
         ∧ count e = (weight p t + 1)%Z
         ∧ lastLikedAt e = now
         ∧ weight (addLikedTag p t now) t = (weight p t + 1)%Z.
Proof.
  intros Hlen Htrim _. unfold addLikedTag. rewrite keepTop_small by done.
  unfold weight, recordLike in *.
  destruct (list_find _ p) as [[i e0]|] eqn:Hf.
  - pose proof Hf as (Hi & Ht & Hbefore)%list_find_Some.
    set (e1 := mkLikedTag (tag e0) (count e0 + 1) now).
    assert (list_find (λ lt, tag lt = Js.toLowerCase t) (<[i:=e1]> p) = Some (i, e1)) as Hnew.
    { apply list_find_Some. split; [|split].
      - apply list_lookup_insert_eq. by eapply lookup_lt_Some.
      - done.
      - intros j y Hj Hlt. rewrite list_lookup_insert_ne in Hj by lia. by eapply Hbefore. }
    exists i, e1. rewrite Hnew. done.
  - rewrite castTag_lower_trimmed by done.
    set (e1 := mkLikedTag (Js.toLowerCase t) 1 now).
    assert (list_find (λ lt, tag lt = Js.toLowerCase t) (p ++ [e1]) = Some (length p, e1)) as Hnew.
    { rewrite list_find_app_r by done. simpl. rewrite decide_True by done. simpl.
      done. }
    exists (length p), e1. rewrite Hnew. done.
Qed.

Lemma addLikedTag_increments_witness :
  ∃ i e, list_find (λ lt, tag lt = Js.toLowerCase "Dogs")
           (addLikedTag Scenario.catsAndDogs "Dogs" 77) = Some (i, e)
         ∧ count e = (weight Scenario.catsAndDogs "Dogs" + 1)%Z
         ∧ lastLikedAt e = 77%Z
         ∧ weight (addLikedTag Scenario.catsAndDogs "Dogs" 77) "Dogs"
           = (weight Scenario.catsAndDogs "Dogs" + 1)%Z.
Proof.
  apply (addLikedTag_increments Scenario.catsAndDogs "Dogs" 77);
    [simpl; lia | reflexivity | vm_compute; reflexivity].
Defined.

(** X2.  When the update does not push the list over 100 entries, the
    call leaves the entry of every other tag as it was: [find] for a tag
    that is neither the liked tag in lower case nor the form the schema
    stores it in returns the same entry at the same position. *)
Theorem addLikedTag_other_tags p t (t' : string) now :
  length (recordLike p t now) ≤ 100 →
  Js.toLowerCase t' ≠ Js.toLowerCase t →
  Js.toLowerCase t' ≠ castTag (Js.toLowerCase t) →
  list_find (λ lt, tag lt = Js.toLowerCase t') (addLikedTag p t now)
  = list_find (λ lt, tag lt = Js.toLowerCase t') p
  ∧ weight (addLikedTag p t now) t' = weight p t'.
Proof.
  intros Hlen Hne Hcast. unfold addLikedTag. rewrite keepTop_small by done.
  assert (list_find (λ lt, tag lt = Js.toLowerCase t') (recordLike p t now)
          = list_find (λ lt, tag lt = Js.toLowerCase t') p) as Heq.
  { unfold recordLike.
    destruct (list_find _ p) as [[i e0]|] eqn:Hf.
    - apply list_find_Some in Hf as (Hi & Ht & _).
      apply (list_find_insert_other _ p i _ e0); simpl; congruence.
    - apply list_find_snoc_other. simpl. congruence. }
  split; [done|]. unfold weight. by rewrite Heq.
Qed.

Lemma addLikedTag_other_tags_witness :
  list_find (λ lt, tag lt = Js.toLowerCase "cats") (addLikedTag Scenario.catsAndDogs "Dogs" 77)
  = list_find (λ lt, tag lt = Js.toLowerCase "cats") Scenario.catsAndDogs
  ∧ weight (addLikedTag Scenario.catsAndDogs "Dogs" 77) "cats"
    = weight Scenario.catsAndDogs "cats".
Proof.
  apply (addLikedTag_other_tags Scenario.catsAndDogs "Dogs" "cats" 77);
    [simpl; lia | discriminate | discriminate].
Defined.

(** The tag excluded by the second condition: the stored form of a padded
    tag is another tag, whose lookup the call changes. *)
Example addLikedTag_padded_tag :
  weight [] "cats" = 0%Z ∧ weight (addLikedTag [] " Cats" 5) "cats" = 1%Z
  ∧ weight (addLikedTag [] " Cats" 5) " Cats" = 0%Z.
Proof. repeat split. Qed.

(** An entry whose count does not exceed any other count stays last. *)
Lemma sort_insert_snoc_min (a x : LikedTag) l :
  (count x ≤ count a)%Z →
  Js.sort_insert byCountDesc a (l ++ [x]) = Js.sort_insert byCountDesc a l ++ [x].
Proof.
  intros Hle. induction l as [|y l IH]; simpl.
  - unfold byCountDesc. destruct (0 <? count x - count a)%Z eqn:Hc; [|done].
    apply Z.ltb_lt in Hc. lia.
  - destruct (0 <? byCountDesc a y)%Z; [|done]. by rewrite IH.
Qed.

Lemma sort_snoc_min (x : LikedTag) l :
  Forall (λ e, (count x ≤ count e)%Z) l →
  Js.sort byCountDesc (l ++ [x]) = Js.sort byCountDesc l ++ [x].
Proof.
  induction 1 as [|a l Ha _ IH]; simpl; [done|].
  rewrite IH. by apply sort_insert_snoc_min.
Qed.

(** X3.  A full profile does not take a new tag: with 100 entries of count
    at least 1 and no entry for the liked tag, the pushed entry is sorted
    last and cut off again.  The profile is left as its own stable sort
    and the liked tag still has no weight. *)
Theorem full_profile_drops_new_tag p t now :
  length p = 100 →
  Forall (λ e, (1 ≤ count e)%Z) p →
  list_find (λ lt, tag lt = Js.toLowerCase t) p = None →
  addLikedTag p t now = Js.sort byCountDesc p
  ∧ addLikedTag p t now ≡ₚ p
  ∧ weight (addLikedTag p t now) t = 0%Z.
Proof.
  intros Hlen Hcnt Hnone.
  assert (addLikedTag p t now = Js.sort byCountDesc p) as Heq.
  { unfold addLikedTag, recordLike. rewrite Hnone.
    unfold keepTop. rewrite decide_True by (rewrite length_app; simpl; lia).
    rewrite sort_snoc_min by done.
    rewrite take_app_length'; [done|]. by rewrite sort_length. }
  rewrite Heq. split; [done|]. split; [apply sort_perm|].
  unfold weight.
  assert (list_find (λ lt, tag lt = Js.toLowerCase t) (Js.sort byCountDesc p) = None) as ->; [|done].
  apply list_find_None. apply list_find_None in Hnone.
  by rewrite sort_perm.
Qed.

Lemma full_profile_drops_new_tag_witness :
  addLikedTag Scenario.fullProfile "Fresh" 5 = Js.sort byCountDesc Scenario.fullProfile
  ∧ addLikedTag Scenario.fullProfile "Fresh" 5 ≡ₚ Scenario.fullProfile
  ∧ weight (addLikedTag Scenario.fullProfile "Fresh" 5) "Fresh" = 0%Z.
Proof.
  apply (full_profile_drops_new_tag Scenario.fullProfile "Fresh" 5).
  - reflexivity.
  - apply (bool_decide_unpack _). vm_compute. exact I.
  - vm_compute. reflexivity.
Defined.

(** Stored entries: counts at least 1 (the [min: 1] of the schema), tags
    in lower case and trimmed. *)
Lemma recordLike_stored p t now :
  Forall (λ e, (1 ≤ count e)%Z ∧ Js.toLowerCase (tag e) = tag e ∧ Js.trim (tag e) = tag e) p →
  Forall (λ e, (1 ≤ count e)%Z ∧ Js.toLowerCase (tag e) = tag e ∧ Js.trim (tag e) = tag e)
    (recordLike p t now).
Proof.
  intros Hall. unfold recordLike.
  destruct (list_find _ p) as [[i e0]|] eqn:Hf.
  - apply list_find_Some in Hf as (Hi & Ht & _).
    apply Forall_insert; [done|]. simpl.
    apply list_elem_of_lookup_2 in Hi.
    rewrite Forall_forall in Hall. destruct (Hall _ Hi) as (Hc & Hl & Htr).
    split; [lia | done].
  - apply Forall_app. split; [done|]. repeat constructor; simpl; [lia | |];
      apply castTag_stored.
Qed.

(** A tag without surrounding white space never gets a second entry. *)
Lemma recordLike_NoDup p t now :
  Js.trim t = t → NoDup (tag <$> p) → NoDup (tag <$> recordLike p t now).
Proof.
  intros Htrim Hnd. unfold recordLike.
  destruct (list_find _ p) as [[i e0]|] eqn:Hf.
  - apply list_find_Some in Hf as (Hi & Ht & _).
    rewrite list_fmap_insert. simpl. rewrite list_insert_id; [done|].
    by rewrite list_lookup_fmap, Hi.
  - apply list_find_None in Hf. rewrite castTag_lower_trimmed by done.
    rewrite fmap_app. simpl. apply NoDup_app. split; [done|]. split.
    + intros k Hk Hin. apply list_elem_of_singleton in Hin as ->.
      apply list_elem_of_fmap in Hk as (e & He & Hin).
      rewrite Forall_forall in Hf. by apply (Hf e).
    + apply NoDup_singleton.
Qed.

Lemma keepTop_NoDup l : NoDup (tag <$> l) → NoDup (tag <$> keepTop l).
Proof.
  intros Hnd. unfold keepTop. case_decide; [|done].
  eapply sublist_NoDup; [|apply fmap_sublist, sublist_take].
  by rewrite sort_perm.
Qed.

(** X4.  Every profile built from the empty one by [addLikedTag] calls has
    no count below 1 and stores its tags trimmed and in lower case.  It
    has at most one entry per tag when no liked tag had surrounding white
    space; a tag liked once without and once with a leading space has two
    entries. *)
Theorem replay_well_formed (calls : list (string * Z)) :
  Forall (λ e, (1 ≤ count e)%Z ∧ Js.toLowerCase (tag e) = tag e ∧ Js.trim (tag e) = tag e)
    (replay [] calls)
  ∧ (Forall (λ c, Js.trim c.1 = c.1) calls → NoDup (tag <$> replay [] calls))
  ∧ tag <$> replay [] [("cats", 0%Z); (" cats", 1%Z)] = ["cats"; "cats"].
Proof.
  split; [|split; [|reflexivity]]; unfold replay.
  - induction calls as [|c cs IH] using rev_ind; simpl; [constructor|].
    rewrite foldl_snoc. apply (recordLike_stored _ c.1 c.2) in IH.
    rewrite Forall_forall in *. intros e He. apply IH. by apply keepTop_subseteq.
  - induction calls as [|c cs IH] using rev_ind; simpl; [intros _; constructor|].
    intros [Hcs Hc]%Forall_app. apply Forall_inv in Hc.
    rewrite foldl_snoc. apply keepTop_NoDup, recordLike_NoDup; [done | by apply IH].
Qed.

Lemma replay_well_formed_witness :
  NoDup (tag <$> replay [] [("Cats", 0%Z); ("dogs", 1%Z); ("cats", 2%Z)]).
Proof.
  apply (replay_well_formed [("Cats", 0%Z); ("dogs", 1%Z); ("cats", 2%Z)]).
  repeat constructor.
Defined.

Lemma slice0_take {A} (l : list A) (n : Z) :
  (0 ≤ n)%Z → Js.slice0 l n = take (Z.to_nat n) l.
Proof. intros Hn. unfold Js.slice0. destruct (n <? 0)%Z eqn:E; [|done]. apply Z.ltb_lt in E. lia. Qed.

(** X5.  [getPreferredTags] with a non-negative limit returns the tags of
    the first [min(limit, length)] entries of the profile sorted by count:
    the chosen entries are in descending order of count and no entry left
    out has a larger count than a chosen one.  The profile itself is left
    sorted, with the same entries. *)
Theorem getPreferredTags_top p (limit : Z) :
  (0 ≤ limit)%Z →
  ∃ top rest,
    (getPreferredTags p (Some limit)).2 = top ++ rest
    ∧ (getPreferredTags p (Some limit)).1 = tag <$> top
    ∧ length top = Z.to_nat limit `min` length p
    ∧ top ++ rest ≡ₚ p
    ∧ StronglySorted countDesc (top ++ rest)
    ∧ ∀ a b, a ∈ top → b ∈ rest → (count b ≤ count a)%Z.
Proof.
  intros Hl. unfold getPreferredTags. simpl. rewrite slice0_take by done.
  exists (take (Z.to_nat limit) (Js.sort byCountDesc p)),
         (drop (Z.to_nat limit) (Js.sort byCountDesc p)).
  rewrite take_drop. repeat split.
  - by rewrite length_take, sort_length.
  - apply sort_perm.
  - apply sort_sorted.
  - intros a b Ha Hb. pose proof (sort_sorted p) as Hs.
    rewrite <- (take_drop (Z.to_nat limit)) in Hs.
    by eapply (StronglySorted_app_1_elem_of countDesc).
Qed.

Lemma getPreferredTags_top_witness :
  ∃ top rest,
    (getPreferredTags Scenario.catsAndDogs (Some 1%Z)).2 = top ++ rest
    ∧ (getPreferredTags Scenario.catsAndDogs (Some 1%Z)).1 = tag <$> top
    ∧ length top = Z.to_nat 1 `min` length Scenario.catsAndDogs
    ∧ top ++ rest ≡ₚ Scenario.catsAndDogs
    ∧ StronglySorted countDesc (top ++ rest)
    ∧ ∀ a b, a ∈ top → b ∈ rest → (count b ≤ count a)%Z.
Proof. apply (getPreferredTags_top Scenario.catsAndDogs 1). lia. Defined.

Example getPreferredTags_default_limit :
  (getPreferredTags Scenario.fullProfile None).1 = Scenario.tagName <$> seq 0 20.
Proof. vm_compute. reflexivity. Qed.

End UserMore.

(** ** Tag overlap and tag similarity *)

Section JaccardFacts.
Import Js RankingService PersonalizationService.

Lemma filter_elem_of_inter (s1 s2 : gset string) :
  filter (λ x, x ∈ s2) s1 = s1 ∩ s2.
Proof. apply set_eq. intros x. rewrite elem_of_filter, elem_of_intersection. tauto. Qed.

(** A quotient of sizes [a / b] with [a ≤ b] and [0 < b]. *)
Lemma ratio_bounds (a b : nat) :
  a ≤ b → 0 < b →
  (0 <= inject_Z (Z.of_nat a) / inject_Z (Z.of_nat b) <= 1)%Q.
Proof.
  intros Hab Hb.
  assert (0 < inject_Z (Z.of_nat b))%Q as Hbq.
  { change 0%Q with (inject_Z 0). rewrite <- Zlt_Qlt. lia. }
  split.
  - apply Qle_shift_div_l; [done|]. rewrite Qmult_0_l.
    change 0%Q with (inject_Z 0). rewrite <- Zle_Qle. lia.
  - apply Qle_shift_div_r; [done|]. rewrite Qmult_1_l. rewrite <- Zle_Qle. lia.
Qed.

Lemma union_size_pos (l : list string) (s : gset string) :
  l ≠ [] → 0 < size ((list_to_set l : gset string) ∪ s).
Proof.
  intros Hl. destruct l as [|x l]; [done|].
  assert (size ((list_to_set (x :: l) : gset string) ∪ s) ≠ 0); [|lia].
  apply size_non_empty_iff. intros Hempty.
  assert (x ∈ (list_to_set (x :: l) : gset string) ∪ s) as Hx by set_solver.
  rewrite Hempty in Hx. set_solver.
Qed.

Lemma similarity_bounds (tags1 tags2 : list string) :
  (0 <= calculateTagSimilarity tags1 tags2 <= 1)%Q.
Proof.
  unfold calculateTagSimilarity.
  destruct (decide (length tags1 = 0 ∨ length tags2 = 0)) as [Hlen|Hlen]; [done|].
  rewrite filter_elem_of_inter. apply ratio_bounds.
  - apply subseteq_size. intros x Hx. apply elem_of_union. left.
    by apply elem_of_intersection in Hx as [? _].
  - apply union_size_pos. destruct tags1; simpl in *; [|done]. exfalso. apply Hlen. by left.
Qed.

Lemma similarity_sym (tags1 tags2 : list string) :
  calculateTagSimilarity tags1 tags2 = calculateTagSimilarity tags2 tags1.
Proof.
  unfold calculateTagSimilarity.
  destruct (decide (length tags1 = 0 ∨ length tags2 = 0)) as [H1|H1];
    destruct (decide (length tags2 = 0 ∨ length tags1 = 0)) as [H2|H2]; try done; try tauto.
  rewrite !filter_elem_of_inter.
  by rewrite (comm_L (∩) (list_to_set tags1)), (comm_L (∪) (list_to_set tags1)).
Qed.

(** The ranking service compares tags without regard to case; otherwise
    the two functions are the same. *)
Lemma overlap_is_similarity (tags1 tags2 : list string) :
  calculateTagOverlap tags1 tags2
  = calculateTagSimilarity (toLowerCase <$> tags1) (toLowerCase <$> tags2).
Proof.
  unfold calculateTagOverlap, calculateTagSimilarity. rewrite !length_fmap. done.
Qed.

(** X6.  [calculateTagOverlap] is symmetric, lies between 0 and 1, does
    not depend on the case of the tags, and is the case-sensitive
    [calculateTagSimilarity] of the personalization service applied to the
    lower-cased tags. *)
Theorem calculateTagOverlap_jaccard (tags1 tags2 : list string) :
  calculateTagOverlap tags1 tags2 = calculateTagOverlap tags2 tags1
  ∧ (0 <= calculateTagOverlap tags1 tags2 <= 1)%Q
  ∧ calculateTagOverlap (toLowerCase <$> tags1) tags2 = calculateTagOverlap tags1 tags2
  ∧ calculateTagOverlap tags1 tags2
    = calculateTagSimilarity (toLowerCase <$> tags1) (toLowerCase <$> tags2).
Proof.
  split; [|split; [|split]].
  - rewrite !overlap_is_similarity. apply similarity_sym.
  - rewrite overlap_is_similarity. apply similarity_bounds.
  - rewrite !overlap_is_similarity. rewrite <- list_fmap_compose.
    f_equal. apply list_fmap_ext. intros i t _. simpl. apply toLowerCase_idemp.
  - apply overlap_is_similarity.
Qed.

(** X7.  [calculateTagSimilarity] is symmetric and lies between 0 and 1;
    it is 0 as soon as one list is empty, and two lists with the same
    non-empty set of tags have similarity 1. *)
Theorem calculateTagSimilarity_jaccard (tags1 tags2 : list string) :
  calculateTagSimilarity tags1 tags2 = calculateTagSimilarity tags2 tags1
  ∧ (0 <= calculateTagSimilarity tags1 tags2 <= 1)%Q
  ∧ (tags1 = [] ∨ tags2 = [] → calculateTagSimilarity tags1 tags2 = 0%Q)
  ∧ (tags1 ≠ [] → (∀ t, t ∈ tags1 ↔ t ∈ tags2) →
     (calculateTagSimilarity tags1 tags2 == 1)%Q).
Proof.
  split; [apply similarity_sym|]. split; [apply similarity_bounds|]. split.
  - intros [-> | ->]; unfold calculateTagSimilarity.
    + by rewrite decide_True by (by left).
    + by rewrite decide_True by (by right).
  - intros Hne Hsame. unfold calculateTagSimilarity.
    assert (tags2 ≠ []) as Hne2.
    { destruct tags1 as [|t l]; [done|]. intros ->.
      assert (t ∈ @nil string) as Hin by (apply Hsame; left). by apply not_elem_of_nil in Hin. }
    rewrite decide_False; last first.
    { intros [H|H]; [destruct tags1 | destruct tags2]; simpl in H; done. }
    rewrite filter_elem_of_inter.
    assert ((list_to_set tags2 : gset string) = list_to_set tags1) as ->.
    { apply set_eq. intros t. rewrite !elem_of_list_to_set. by rewrite Hsame. }
    rewrite (idemp_L (∩)), (idemp_L (∪)).
    pose proof (union_size_pos tags1 ∅ Hne) as Hpos. rewrite (right_id_L ∅ (∪)) in Hpos.
    apply Qmult_inv_r. intros Heq.
    unfold Qeq in Heq. simpl in Heq. lia.
Qed.

End JaccardFacts.

(** ** The two diversity passes *)

Section DiversityMore.
Import Js RankingService.
Context {A : Type} `{EqDecision A} (tagsOf : A → option (list string)).

(** What has been placed stays where it is. *)
Lemma diversifyLoop_prefix (fuel : nat) (diversified : list A) (lastPost : A)
    (remaining : list A) (diversityFactor : Q) (draws : nat → Q) (k : nat) :
  diversifyLoop tagsOf fuel diversified lastPost remaining diversityFactor draws k
  = diversified ++ diversifyLoop tagsOf fuel [] lastPost remaining diversityFactor draws k.
Proof.
  revert diversified lastPost remaining k.
  induction fuel as [|fuel IH]; intros diversified lastPost remaining k; [done|].
  destruct remaining as [|next rest]; [done|].
  cbn [diversifyLoop].
  destruct (filter _ (next :: rest)) as [|nextPost different].
  - rewrite IH, (IH ([] ++ [lastPost])). by rewrite <- app_assoc.
  - destruct (Qlt_le_dec (draws k) diversityFactor);
      rewrite IH, (IH ([] ++ [lastPost])); by rewrite <- app_assoc.
Qed.

Lemma diversifyLoop_head (fuel : nat) (lastPost : A)
    (remaining : list A) (diversityFactor : Q) (draws : nat → Q) (k : nat) :
  ∃ tl, diversifyLoop tagsOf fuel [] lastPost remaining diversityFactor draws k = lastPost :: tl.
Proof.
  destruct fuel as [|fuel]; [by eexists|].
  destruct remaining as [|next rest]; [by eexists|].
  cbn [diversifyLoop].
  destruct (filter _ (next :: rest)) as [|nextPost different].
  - rewrite diversifyLoop_prefix. by eexists.
  - destruct (Qlt_le_dec (draws k) diversityFactor); rewrite diversifyLoop_prefix; by eexists.
Qed.

(** X8.  [applyDiversity] never moves the first post: whatever the factor
    and the draws, the result starts with the post the input starts
    with. *)
Theorem applyDiversity_keeps_top (posts : list A) (diversityFactor : Q) (draws : nat → Q) :
  head (applyDiversity tagsOf posts diversityFactor draws) = head posts.
Proof.
  unfold applyDiversity. case_decide; [done|].
  destruct (Qle_bool diversityFactor 0); [done|].
  destruct posts as [|top remaining]; [done|].
  by destruct (diversifyLoop_head (length remaining) top remaining diversityFactor draws 0)
    as [tl ->].
Qed.

Lemma diversifyLoop_greedy (fuel : nat) (diversified : list A) (lastPost : A)
    (remaining : list A) (diversityFactor : Q) (draws : nat → Q) (k : nat) :
  (∀ i, (diversityFactor <= draws i)%Q) →
  length remaining ≤ fuel →
  diversifyLoop tagsOf fuel diversified lastPost remaining diversityFactor draws k
  = diversified ++ lastPost :: remaining.
Proof.
  intros Hdraws. revert diversified lastPost remaining k.
  induction fuel as [|fuel IH]; intros diversified lastPost remaining k Hlen.
  { destruct remaining; simpl in *; [done | lia]. }
  destruct remaining as [|next rest]; [done|].
  cbn [diversifyLoop].
  destruct (filter _ (next :: rest)) as [|nextPost different].
  - rewrite IH by (simpl in Hlen; lia). by rewrite <- app_assoc.
  - destruct (Qlt_le_dec (draws k) diversityFactor) as [Hlt|_].
    + exfalso. by apply (Qlt_not_le _ _ Hlt).
    + rewrite IH by (simpl in Hlen; lia). by rewrite <- app_assoc.
Qed.

(** X9.  When no value returned by [Math.random()] falls below the
    diversity factor, [applyDiversity] returns the posts in the order it
    received them. *)
Theorem applyDiversity_greedy_order (posts : list A) (diversityFactor : Q) (draws : nat → Q) :
  (∀ i, (diversityFactor <= draws i)%Q) →
  applyDiversity tagsOf posts diversityFactor draws = posts.
Proof.
  intros Hdraws. unfold applyDiversity. case_decide; [done|].
  destruct (Qle_bool diversityFactor 0); [done|].
  destruct posts as [|top remaining]; [done|].
  by rewrite diversifyLoop_greedy.
Qed.

(** With every draw below the factor the loop takes a dissimilar post
    whenever there is one. *)
Lemma diversifyLoop_no_cluster (fuel : nat) (lastPost : A)
    (remaining : list A) (diversityFactor : Q) (draws : nat → Q) (k : nat) :
  (∀ i, (draws i < diversityFactor)%Q) →
  length remaining ≤ fuel →
  ∀ (i j : nat) (a b c : A),
    diversifyLoop tagsOf fuel [] lastPost remaining diversityFactor draws k !! i = Some a →
    diversifyLoop tagsOf fuel [] lastPost remaining diversityFactor draws k !! S i = Some b →
    isDifferent tagsOf a b = false →
    i < j →
    diversifyLoop tagsOf fuel [] lastPost remaining diversityFactor draws k !! j = Some c →
    isDifferent tagsOf a c = false.
Proof.
  intros Hdraws. revert lastPost remaining k.
  induction fuel as [|fuel IH]; intros lastPost remaining k Hlen i j a b c.
  { destruct remaining; simpl in *; [|lia]. by destruct i. }
  destruct remaining as [|next rest]; [by destruct i|].
  cbn [diversifyLoop].
  destruct (filter _ (next :: rest)) as [|nextPost different] eqn:Hf.
  - (* nothing dissimilar is left *)
    rewrite diversifyLoop_prefix. simpl.
    destruct i as [|i].
    + intros [= <-] _ _ Hij Hc. destruct j as [|j]; [lia|]. simpl in Hc.
      apply list_elem_of_lookup_2 in Hc.
      assert (diversifyLoop tagsOf fuel [] next rest diversityFactor draws k ≡ₚ next :: rest)
        as Hperm by (apply (diversifyLoop_permutation tagsOf fuel []); simpl in Hlen; lia).
      rewrite Hperm in Hc.
      destruct (isDifferent tagsOf lastPost c) eqn:Hd; [|done].
      assert (c ∈ filter (λ p, isDifferent tagsOf lastPost p = true) (next :: rest)) as Hin
        by (by apply list_elem_of_filter).
      rewrite Hf in Hin. by apply not_elem_of_nil in Hin.
    + simpl. intros Ha Hb Hab Hij Hc. destruct j as [|j]; [lia|]. simpl in Hc.
      eapply (IH next rest k); [simpl in Hlen; lia | exact Ha | exact Hb | done | | exact Hc].
      lia.
  - destruct (Qlt_le_dec (draws k) diversityFactor) as [_|Hle];
      [|exfalso; by apply (Qlt_not_le _ _ (Hdraws k))].
    assert (nextPost ∈ next :: rest) as Hin by (by eapply different_head_elem_of).
    pose proof (splice1_chosen nextPost (next :: rest) Hin) as Hsp.
    assert (length (splice1 (indexOf nextPost (next :: rest)) (next :: rest)) ≤ fuel) as Hlen'.
    { apply Permutation_length in Hsp. simpl in Hsp, Hlen. lia. }
    rewrite diversifyLoop_prefix. simpl.
    destruct i as [|i].
    + intros [= <-] Hb Hab.
      destruct (diversifyLoop_head fuel nextPost
                  (splice1 (indexOf nextPost (next :: rest)) (next :: rest))
                  diversityFactor draws (S k)) as [tl Htl].
      rewrite Htl in Hb. simpl in Hb. injection Hb as <-.
      assert (nextPost ∈ filter (λ p, isDifferent tagsOf lastPost p = true) (next :: rest))
        as Hd by (rewrite Hf; left).
      apply list_elem_of_filter in Hd as [Hd _]. congruence.
    + simpl. intros Ha Hb Hab Hij Hc. destruct j as [|j]; [lia|]. simpl in Hc.
      eapply (IH nextPost _ (S k)); [exact Hlen' | exact Ha | exact Hb | done | | exact Hc].
      lia.
Qed.

(** X10.  When every value returned by [Math.random()] falls below a
    positive diversity factor, a post is followed by a post with at least
    50% tag overlap only if no post with less overlap was left: every post
    placed after it overlaps with it as much. *)
Theorem applyDiversity_no_cluster (posts : list A) (diversityFactor : Q) (draws : nat → Q) :
  (0 < diversityFactor)%Q →
  (∀ k, (draws k < diversityFactor)%Q) →
  ∀ (i j : nat) (a b c : A),
    applyDiversity tagsOf posts diversityFactor draws !! i = Some a →
    applyDiversity tagsOf posts diversityFactor draws !! S i = Some b →
    isDifferent tagsOf a b = false →
    i < j →
    applyDiversity tagsOf posts diversityFactor draws !! j = Some c →
    isDifferent tagsOf a c = false.
Proof.
  intros Hpos Hdraws i j a b c. unfold applyDiversity.
  case_decide as Hlen.
  { intros _ Hb. apply lookup_lt_Some in Hb. lia. }
  destruct (Qle_bool diversityFactor 0) eqn:Hle.
  { apply Qle_bool_iff in Hle. exfalso. by apply (Qlt_not_le _ _ Hpos). }
  destruct posts as [|top remaining]; [done|].
  by apply diversifyLoop_no_cluster.
Qed.

End DiversityMore.

Lemma applyDiversity_greedy_order_witness :
  RankingService.applyDiversity RankingService.tags Scenario.sixPosts (3 # 10) (λ _, 1 # 2)
  = Scenario.sixPosts.
Proof.
  apply (applyDiversity_greedy_order RankingService.tags Scenario.sixPosts (3 # 10) (λ _, 1 # 2)).
  intros _. unfold Qle. simpl. lia.
Defined.

Lemma applyDiversity_no_cluster_witness :
  RankingService.isDifferent RankingService.tags
    (Scenario.taggedPost "0" (Some ["a"; "b"])) (Scenario.taggedPost "5" (Some ["a"])) = false.
Proof.
  apply (applyDiversity_no_cluster RankingService.tags
           [ Scenario.taggedPost "0" (Some ["a"; "b"]);
             Scenario.taggedPost "1" (Some ["a"; "b"]);
             Scenario.taggedPost "5" (Some ["a"]) ]
           1 (λ _, 1 # 2) eq_refl (λ _, eq_refl) 0 2
           (Scenario.taggedPost "0" (Some ["a"; "b"]))
           (Scenario.taggedPost "1" (Some ["a"; "b"]))
           (Scenario.taggedPost "5" (Some ["a"]))).
  - vm_compute. reflexivity.
  - vm_compute. reflexivity.
  - vm_compute. reflexivity.
  - lia.
  - vm_compute. reflexivity.
Defined.

Section ContentDiversityFacts.
Import Js RankingService PersonalizationService.
Context {A : Type} `{EqDecision A} (tagsOf : A → option (list string)).

(** The post picked by one iteration is one of the remaining posts. *)
Lemma content_choice_elem_of (lastPost first : A) (rest : list A) (pick : bool) :
  (if pick
   then match filter (λ p, isDiverse tagsOf lastPost p = true) (first :: rest) with
        | diverse :: _ => diverse
        | [] => first
        end
   else first) ∈ first :: rest.
Proof.
  destruct pick; [|left].
  destruct (filter _ (first :: rest)) as [|d ds] eqn:Hf; [left|].
  assert (d ∈ filter (λ p, isDiverse tagsOf lastPost p = true) (first :: rest)) as Hin
    by (rewrite Hf; left).
  by apply list_elem_of_filter in Hin as [_ ?].
Qed.

Lemma contentLoop_permutation (fuel : nat) (diversified : list A) (lastPost : A)
    (remaining : list A) (total : nat) (diversityLevel : Q) (draws : nat → Q) (k : nat) :
  length remaining ≤ fuel →
  length diversified + 1 + length remaining = total →
  contentLoop tagsOf fuel diversified lastPost remaining total diversityLevel draws k
  ≡ₚ diversified ++ lastPost :: remaining.
Proof.
  revert diversified lastPost remaining k.
  induction fuel as [|fuel IH]; intros diversified lastPost remaining k Hlen Htot.
  { destruct remaining; simpl in *; [done | lia]. }
  destruct remaining as [|first rest]; [done|].
  cbn [contentLoop].
  rewrite decide_True by (simpl in Htot; lia).
  rewrite (decide_True (P := 0 < length diversified + 1)) by lia.
  set (nextPost := if Qlt_le_dec (draws k) diversityLevel then _ else first).
  assert (nextPost ∈ first :: rest) as Hin.
  { unfold nextPost. destruct (Qlt_le_dec (draws k) diversityLevel).
    - apply (content_choice_elem_of lastPost first rest true).
    - left. }
  pose proof (splice1_chosen nextPost (first :: rest) Hin) as Hsp.
  pose proof (Permutation_length Hsp) as Hl. simpl in Hl, Hlen, Htot.
  rewrite IH.
  - rewrite <- app_assoc. simpl. by rewrite Hsp.
  - lia.
  - rewrite length_app. simpl. lia.
Qed.

Lemma contentLoop_head (fuel : nat) (diversified : list A) (lastPost : A)
    (remaining : list A) (total : nat) (diversityLevel : Q) (draws : nat → Q) (k : nat) :
  ∃ tl, contentLoop tagsOf fuel diversified lastPost remaining total diversityLevel draws k
        = diversified ++ lastPost :: tl.
Proof.
  revert diversified lastPost remaining k.
  induction fuel as [|fuel IH]; intros diversified lastPost remaining k; [by eexists|].
  destruct remaining as [|first rest]; [by eexists|].
  cbn [contentLoop].
  case_decide; [|by eexists].
  match goal with
  | |- ∃ tl, contentLoop _ _ _ ?n ?r _ _ _ _ = _ =>
      destruct (IH (diversified ++ [lastPost]) n r (S k)) as [tl ->]
  end.
  rewrite <- app_assoc. by eexists.
Qed.

(** X11.  [applyContentDiversity] returns a permutation of its input, of
    the same length, and leaves the first post first, for every diversity
    level and every sequence of values returned by [Math.random()]. *)
Theorem applyContentDiversity_permutation (posts : list A) (diversityLevel : Q)
    (draws : nat → Q) :
  applyContentDiversity tagsOf posts diversityLevel draws ≡ₚ posts
  ∧ length (applyContentDiversity tagsOf posts diversityLevel draws) = length posts
  ∧ head (applyContentDiversity tagsOf posts diversityLevel draws) = head posts.
Proof.
  assert (applyContentDiversity tagsOf posts diversityLevel draws ≡ₚ posts) as Hperm.
  { unfold applyContentDiversity. case_decide; [done|].
    destruct posts as [|top remaining]; [done|].
    rewrite contentLoop_permutation; [done | done | simpl; lia]. }
  split; [done|]. split; [by apply Permutation_length|].
  unfold applyContentDiversity. case_decide; [done|].
  destruct posts as [|top remaining]; [done|].
  by destruct (contentLoop_head (length remaining) [] top remaining (length (top :: remaining))
                 diversityLevel draws 0) as [tl ->].
Qed.

End ContentDiversityFacts.

Example applyContentDiversity_reorders :
  RankingService._id <$>
    PersonalizationService.applyContentDiversity RankingService.tags Scenario.sixPosts
      (4 # 10) (λ _, 0%Q)
  = ["0"; "2"; "1"; "3"; "4"; "5"].
Proof. vm_compute. reflexivity. Qed.

(** ** services/rankingService.js : more on the sub-scores *)

Section ScoreMore.
Import Js Constants RankingService.
Local Open Scope R_scope.

Lemma ln_monotone (x y : R) : 0 < x → x <= y → ln x <= ln y.
Proof.
  intros Hx [Hlt| ->]; [|apply Rle_refl].
  left. by apply ln_increasing.
Qed.

Lemma popularityScore_monotone (l c s l' c' s' views : Z) (age : R) :
  (0 ≤ l ≤ l')%Z → (0 ≤ c ≤ c')%Z → (0 ≤ s ≤ s')%Z →
  Formula.popularityScore l c s views age <= Formula.popularityScore l' c' s' views age.
Proof.
  intros Hl Hc Hs. unfold Formula.popularityScore.
  set (E := (l * 1 + c * 2 + s * 3)%Z).
  set (E' := (l' * 1 + c' * 2 + s' * 3)%Z).
  assert (0 ≤ E ≤ E')%Z as [HE0 HE] by (unfold E, E'; lia).
  apply IZR_le in HE0, HE.
  set (rate := λ x : Z, if decide (0 < views)%Z then IZR x / IZR views else 0).
  assert (rate E <= rate E') as Hrate.
  { unfold rate. case_decide as Hpos; [|lra].
    apply IZR_lt in Hpos. apply Rmult_le_compat_r; [|done].
    left. by apply Rinv_0_lt_compat. }
  assert (ln (IZR E + 1) / ln 1000 <= ln (IZR E' + 1) / ln 1000) as Hraw.
  { apply Rmult_le_compat_r; [left; apply Rinv_0_lt_compat, ln_1000_pos|].
    apply ln_monotone; lra. }
  apply Rle_min_compat_l.
  assert (1 / 10 <= Rmax (1 / 10) (exp (- age / 24))) by apply Rmax_l.
  fold (rate E) (rate E'). nra.
Qed.

(** X12.  On like, comment and share counters that are numbers and not
    negative, and for a creation date that is missing or at most 709 days
    after the evaluation time (where [Math.exp] stays finite): both posts
    get a finite popularity score, and more likes, comments or shares never
    lower it at the same views, creation date and evaluation time. *)
Theorem popularity_monotone (e e' : Engagement) (createdAt : JsDate) (now : Z) :
  isNumeric (e_likesCount e) = true → isNumeric (e_commentsCount e) = true →
  isNumeric (e_sharesCount e) = true →
  isNumeric (e_likesCount e') = true → isNumeric (e_commentsCount e') = true →
  isNumeric (e_sharesCount e') = true →
  (0 ≤ counter (e_likesCount e) ≤ counter (e_likesCount e'))%Z →
  (0 ≤ counter (e_commentsCount e) ≤ counter (e_commentsCount e'))%Z →
  (0 ≤ counter (e_sharesCount e) ≤ counter (e_sharesCount e'))%Z →
  counter (e_viewsCount e) = counter (e_viewsCount e') →
  Formula.expInRange createdAt now →
  ∃ s s' : R,
    calculatePopularityScore e createdAt now = Ok (Fin s)
    ∧ calculatePopularityScore e' createdAt now = Ok (Fin s')
    ∧ s <= s'.
Proof.
  intros Hnl Hnc Hns Hnl' Hnc' Hns' Hl Hc Hs Hv Hr.
  rewrite !popularity_value by (done || lia).
  eexists _, _. split; [reflexivity|]. split; [reflexivity|].
  rewrite <- Hv. by apply popularityScore_monotone.
Qed.

Lemma popularity_monotone_witness :
  ∃ s s' : R,
    calculatePopularityScore
      (mkEngagement (CounterValue 3) CounterMissing (CounterValue 1) (CounterValue 40))
      (DateValue 0) 1000 = Ok (Fin s)
    ∧ calculatePopularityScore
        (mkEngagement (CounterValue 5) (CounterValue 2) (CounterValue 1) (CounterValue 40))
        (DateValue 0) 1000 = Ok (Fin s')
    ∧ s <= s'.
Proof.
  apply (popularity_monotone
           (mkEngagement (CounterValue 3) CounterMissing (CounterValue 1) (CounterValue 40))
           (mkEngagement (CounterValue 5) (CounterValue 2) (CounterValue 1) (CounterValue 40))
           (DateValue 0) 1000); simpl;
    first [reflexivity | lia | unfold DAY_IN_MS; lia].
Defined.

Lemma matchTags_lower (prefs : gmap string Z) (T : Z) (postTags : list string) (acc : R * nat) :
  foldl (matchTag prefs T) acc (toLowerCase <$> postTags)
  = foldl (matchTag prefs T) acc postTags.
Proof.
  revert acc. induction postTags as [|t l IH]; intros acc; simpl; [done|].
  rewrite IH. f_equal. unfold matchTag. by rewrite toLowerCase_idemp.
Qed.

Lemma tagPreferences_lower (profile : list User.LikedTag) (acc : gmap string Z * Z) :
  foldl setPreference acc
    ((λ lt, User.mkLikedTag (toLowerCase (User.tag lt)) (User.count lt) (User.lastLikedAt lt))
       <$> profile)
  = foldl setPreference acc profile.
Proof.
  revert acc. induction profile as [|x l IH]; intros acc; simpl; [done|].
  rewrite IH. f_equal. unfold setPreference. simpl. by rewrite toLowerCase_idemp.
Qed.

(** X13.  The personalization score does not depend on the case of the
    tags, neither of the post nor of the profile. *)
Theorem personalization_ignores_case (postTags : list string) (profile : list User.LikedTag) :
  calculatePersonalizationScore (Some (toLowerCase <$> postTags)) profile
  = calculatePersonalizationScore (Some postTags) profile
  ∧ calculatePersonalizationScore (Some postTags)
      ((λ lt, User.mkLikedTag (toLowerCase (User.tag lt)) (User.count lt) (User.lastLikedAt lt))
         <$> profile)
    = calculatePersonalizationScore (Some postTags) profile.
Proof.
  split.
  - unfold calculatePersonalizationScore. rewrite !length_fmap.
    case_decide; [done|]. destruct (tagPreferences profile) as [m T].
    case_decide; [done|]. unfold matchTags. by rewrite matchTags_lower.
  - unfold calculatePersonalizationScore, tagPreferences.
    by rewrite !length_fmap, tagPreferences_lower.
Qed.

Lemma totalWeight_pos (profile : list User.LikedTag) :
  profile ≠ [] → Forall (λ lt, (1 ≤ User.count lt)%Z) profile →
  (0 < Formula.totalWeight profile)%Z.
Proof.
  intros Hne Hall.
  assert (Z.of_nat (length profile) ≤ Formula.totalWeight profile)%Z as Hsum.
  { clear Hne. induction Hall as [|x l Hx _ IH]; [done|].
    change (Formula.totalWeight (x :: l)) with (User.count x + Formula.totalWeight l)%Z.
    simpl length. lia. }
  destruct profile; simpl in *; [done | lia].
Qed.

Lemma weightOf_is_Some (profile : list User.LikedTag) (t : string) :
  is_Some (Formula.weightOf profile t)
  ↔ ∃ e, e ∈ profile ∧ toLowerCase (User.tag e) = toLowerCase t.
Proof.
  unfold Formula.weightOf. rewrite fmap_is_Some. split.
  - intros [e He]. exists e. by apply last_Some_elem_of, list_elem_of_filter in He as [? ?].
  - intros (e & He & Ht).
    assert (e ∈ filter (λ lt, toLowerCase (User.tag lt) = toLowerCase t) profile) as Hin
      by (by apply list_elem_of_filter).
    destruct (filter _ profile) as [|x l] using rev_ind; [by apply not_elem_of_nil in Hin|].
    rewrite last_snoc. by eexists.
Qed.

Lemma matchScore_pos (profile : list User.LikedTag) (postTags : list string) :
  Forall (λ lt, (1 ≤ User.count lt)%Z) profile →
  (0 < Formula.totalWeight profile)%Z →
  Formula.matched profile postTags ≠ [] →
  0 < Formula.matchScore profile postTags.
Proof.
  intros Hp Ht Hne. unfold Formula.matchScore.
  assert (Forall (λ t, is_Some (Formula.weightOf profile t)) (Formula.matched profile postTags))
    as Hall.
  { apply Forall_forall. intros t Hin. by apply list_elem_of_filter in Hin as [? _]. }
  assert (∀ t, is_Some (Formula.weightOf profile t) →
               0 < IZR (default 0%Z (Formula.weightOf profile t))
                   / IZR (Formula.totalWeight profile)) as Hterm.
  { intros t [w Hw]. rewrite Hw. simpl.
    unfold Formula.weightOf in Hw. apply fmap_Some in Hw as (e & He & ->).
    apply last_Some_elem_of, list_elem_of_filter in He as [_ He].
    rewrite Forall_forall in Hp. specialize (Hp _ He). simpl in Hp.
    apply Rmult_lt_0_compat; [apply IZR_lt; lia | apply Rinv_0_lt_compat, IZR_lt; lia]. }
  destruct (Formula.matched profile postTags) as [|t l]; [done|].
  simpl. apply Forall_cons in Hall as [Ht1 Hl].
  apply Rplus_lt_le_0_compat; [by apply Hterm|].
  clear Hne. induction Hl as [|t2 l2 Ht2 _ IH]; simpl; [lra|].
  apply Rplus_le_le_0_compat; [left; by apply Hterm | done].
Qed.

(** X14.  On a profile whose counts are at least 1, the personalization
    score of a post is positive exactly when one of its tags is, up to
    case, the tag of a profile entry; otherwise it is 0. *)
Theorem personalization_positive_iff (postTags : list string) (profile : list User.LikedTag) :
  Forall (λ lt, (1 ≤ User.count lt)%Z) profile →
  (0 < calculatePersonalizationScore (Some postTags) profile
   ↔ ∃ t e, t ∈ postTags ∧ e ∈ profile ∧ toLowerCase (User.tag e) = toLowerCase t)
  ∧ (calculatePersonalizationScore (Some postTags) profile = 0
     ∨ 0 < calculatePersonalizationScore (Some postTags) profile).
Proof.
  intros Hp.
  assert (Forall (λ lt, (0 ≤ User.count lt)%Z) profile) as Hp0.
  { eapply Forall_impl; [exact Hp|]. simpl. intros; lia. }
  pose proof (personalization_bounds (Some postTags) profile Hp0) as [Hlo _].
  split; [|destruct Hlo as [Hlo|Hlo]; [by right | by left]].
  destruct (decide (postTags = [])) as [->|Hne].
  { simpl. split; [lra|]. intros (t & e & Ht & _). by apply not_elem_of_nil in Ht. }
  destruct (decide (profile = [])) as [->|Hu].
  { unfold calculatePersonalizationScore. rewrite decide_True by (by right).
    split; [lra|]. intros (t & e & _ & He & _). by apply not_elem_of_nil in He. }
  pose proof (totalWeight_pos profile Hu Hp) as Htot.
  rewrite personalization_formula by (done || lia).
  unfold Formula.personalizationScore.
  assert (0 < INR (length postTags)) as Hn.
  { apply lt_0_INR. destruct postTags; simpl; [done | lia]. }
  assert (0 <= INR (length (Formula.matched profile postTags)) / INR (length postTags)) as Hpct.
  { apply Rle_mult_inv_pos; [apply pos_INR | done]. }
  pose proof (sqrt_lt_R0 _ Hn) as Hsqrt.
  split.
  - intros Hscore.
    destruct (Formula.matched profile postTags) as [|t l] eqn:Hm.
    { exfalso. unfold Formula.matchScore in Hscore. rewrite Hm in Hscore. simpl in Hscore.
      replace (0 / sqrt (INR (length postTags)) * (1 + 0 / INR (length postTags)))
        with 0 in Hscore by (unfold Rdiv; lra).
      rewrite Rmin_left in Hscore by lra. lra. }
    assert (t ∈ Formula.matched profile postTags) as Hin by (rewrite Hm; left).
    apply list_elem_of_filter in Hin as [Hsome Hin].
    apply weightOf_is_Some in Hsome as (e & He & Ht). eauto.
  - intros (t & e & Ht & He & Hte).
    assert (Formula.matched profile postTags ≠ []) as Hm.
    { assert (t ∈ Formula.matched profile postTags) as Hin.
      { apply list_elem_of_filter. split; [|done]. apply weightOf_is_Some. eauto. }
      intros Heq. rewrite Heq in Hin. by apply not_elem_of_nil in Hin. }
    pose proof (matchScore_pos profile postTags Hp Htot Hm) as Hms.
    apply Rmin_glb_lt; [|lra].
    apply Rmult_lt_0_compat; [|lra].
    apply Rmult_lt_0_compat; [done | by apply Rinv_0_lt_compat].
Qed.

Lemma personalization_positive_iff_witness :
  0 < calculatePersonalizationScore (Some ["Birds"; "CATS"]%string) Scenario.catsAndDogs.
Proof.
  apply (personalization_positive_iff ["Birds"; "CATS"]%string Scenario.catsAndDogs).
  - repeat constructor; simpl; lia.
  - exists "CATS"%string, (User.mkLikedTag "cats" 10 0).
    split; [right; left|]. split; [left | reflexivity].
Defined.

End ScoreMore.

(** ** services/personalizationService.js : preferred tags *)

Section BoostFacts.
Import PersonalizationService.

(** The comparison of the age in days with a threshold, in milliseconds. *)
Lemma days_le_bool (d n : Z) :
  Qle_bool (inject_Z d / inject_Z (1000 * 60 * 60 * 24)) (inject_Z n)
  = (d <=? n * 86400000)%Z.
Proof.
  apply eq_true_iff_eq. rewrite Qle_bool_iff, Z.leb_le.
  unfold Qle. simpl. lia.
Qed.

Lemma getRecencyBoost_ms (t now : Z) :
  getRecencyBoost (Some t) now
  = if (now - t <=? 604800000)%Z then 5%Z
    else if (now - t <=? 2592000000)%Z then 2%Z
    else if (now - t <=? 7776000000)%Z then 1%Z
    else 0%Z.
Proof. unfold getRecencyBoost. by rewrite !days_le_bool. Qed.

(** X15.  [getRecencyBoost] is 5 up to and including 7 days after the
    like (and for a like dated in the future), 2 up to 30 days, 1 up to 90
    days and 0 after that or when the date is missing; at a fixed
    evaluation time a later like never gets a smaller boost. *)
Theorem getRecencyBoost_steps (t1 t2 now : Z) :
  (t1 ≤ t2)%Z →
  (getRecencyBoost (Some t1) now ≤ getRecencyBoost (Some t2) now)%Z
  ∧ (getRecencyBoost (Some t2) now = 5%Z ↔ (now - t2 ≤ 7 * 86400000)%Z)
  ∧ (getRecencyBoost (Some t2) now = 2%Z
     ↔ (7 * 86400000 < now - t2 ≤ 30 * 86400000)%Z)
  ∧ (getRecencyBoost (Some t2) now = 1%Z
     ↔ (30 * 86400000 < now - t2 ≤ 90 * 86400000)%Z)
  ∧ (getRecencyBoost (Some t2) now = 0%Z ↔ (90 * 86400000 < now - t2)%Z)
  ∧ getRecencyBoost None now = 0%Z.
Proof.
  intros Hle. rewrite !getRecencyBoost_ms.
  repeat match goal with
         | |- context [(?a <=? ?b)%Z] => destruct (Z.leb_spec a b)
         end; repeat split; intros; try lia; try done.
Qed.

Lemma getRecencyBoost_steps_witness :
  (getRecencyBoost (Some 0%Z) 604800000 ≤ getRecencyBoost (Some 1%Z) 604800000)%Z
  ∧ (getRecencyBoost (Some 1%Z) 604800000 = 5%Z ↔ (604800000 - 1 ≤ 7 * 86400000)%Z)
  ∧ (getRecencyBoost (Some 1%Z) 604800000 = 2%Z
     ↔ (7 * 86400000 < 604800000 - 1 ≤ 30 * 86400000)%Z)
  ∧ (getRecencyBoost (Some 1%Z) 604800000 = 1%Z
     ↔ (30 * 86400000 < 604800000 - 1 ≤ 90 * 86400000)%Z)
  ∧ (getRecencyBoost (Some 1%Z) 604800000 = 0%Z ↔ (90 * 86400000 < 604800000 - 1)%Z)
  ∧ getRecencyBoost None 604800000 = 0%Z.
Proof. apply (getRecencyBoost_steps 0 1 604800000). lia. Defined.

End BoostFacts.

Section KeySortFacts.
Context {A : Type} (key : A → Z).

(** A comparator [(a, b) => key(b) - key(a)] sorts into descending keys. *)
Lemma sort_insert_key_sorted (x : A) (l : list A) :
  StronglySorted (λ a b, (key b ≤ key a)%Z) l →
  StronglySorted (λ a b, (key b ≤ key a)%Z) (Js.sort_insert (λ a b, (key b - key a)%Z) x l).
Proof.
  induction 1 as [|y r Hr IH Hall]; simpl.
  - repeat constructor.
  - destruct (0 <? key y - key x)%Z eqn:Hc.
    + apply Z.ltb_lt in Hc. constructor; [done|].
      rewrite sort_insert_perm. constructor; [lia | done].
    + apply Z.ltb_ge in Hc. constructor; [by constructor|].
      constructor; [lia|].
      eapply Forall_impl; [exact Hall|]. intros; simpl in *; lia.
Qed.

Lemma sort_key_sorted (l : list A) :
  StronglySorted (λ a b, (key b ≤ key a)%Z) (Js.sort (λ a b, (key b - key a)%Z) l).
Proof.
  induction l as [|x r IH]; simpl; [constructor|]. by apply sort_insert_key_sorted.
Qed.

Lemma slice0_sublist (l : list A) (n : Z) : Js.slice0 l n `sublist_of` l.
Proof. unfold Js.slice0. destruct (n <? 0)%Z; apply sublist_take. Qed.

Lemma slice0_sorted (R : relation A) (l : list A) (n : Z) :
  StronglySorted R l → StronglySorted R (Js.slice0 l n).
Proof.
  intros Hs. unfold Js.slice0.
  destruct (n <? 0)%Z;
    match goal with
    | |- StronglySorted _ (take ?k _) =>
        rewrite <- (take_drop k l) in Hs; by eapply StronglySorted_app_1_l
    end.
Qed.

Lemma slice0_length (l : list A) (n : Z) :
  (0 ≤ n)%Z → length (Js.slice0 l n) ≤ Z.to_nat n.
Proof. intros Hn. rewrite slice0_take by done. rewrite length_take. lia. Qed.

Lemma slice0_short (l : list A) (n : Z) :
  length l ≤ Z.to_nat n → (0 ≤ n)%Z → Js.slice0 l n = l.
Proof. intros Hl Hn. rewrite slice0_take by done. by apply take_ge. Qed.

End KeySortFacts.

Section PreferredTagsFacts.
Import Js Constants Store PersonalizationService.
Context {FeedPost : Type}.
Context (getRecentLikedTags : string → Z → Z → list User.LikedTag).

Implicit Types (w : World FeedPost) (userId : string) (o : TagOptions) (now : Z).

(** Merging recent likes adds no tag that is neither stored nor recent. *)
Lemma mergeRecent_tags now (l : list User.LikedTag) (r : User.LikedTag) (k : string) :
  k ∈ User.tag <$> mergeRecent now l r → k ∈ User.tag <$> l ∨ k = User.tag r.
Proof.
  unfold mergeRecent.
  destruct (list_find _ l) as [[i pt]|] eqn:Hf.
  - apply list_find_Some in Hf as (Hi & _ & _).
    rewrite list_fmap_insert. simpl. rewrite list_insert_id; [by left|].
    by rewrite list_lookup_fmap, Hi.
  - rewrite fmap_app. simpl. intros [?|Hk]%elem_of_app; [by left|].
    apply list_elem_of_singleton in Hk. by right.
Qed.

Lemma mergeAll_tags now (l recent : list User.LikedTag) (k : string) :
  k ∈ User.tag <$> foldl (mergeRecent now) l recent →
  k ∈ User.tag <$> l ∨ k ∈ User.tag <$> recent.
Proof.
  revert l. induction recent as [|r rs IH]; intros l; simpl; [by left|].
  intros Hk. apply IH in Hk as [Hk|Hk].
  - apply mergeRecent_tags in Hk as [Hk | ->]; [by left | right; left].
  - right. by right.
Qed.

Lemma rankPreferredTags_shape_length (likedTags recentLikes : list User.LikedTag) o now :
  (0 ≤ limit o)%Z →
  length (rankPreferredTags likedTags recentLikes o now) ≤ Z.to_nat (limit o).
Proof. intros Hl. unfold rankPreferredTags. by apply slice0_length. Qed.

(** X16.  What [getUserPreferredTags] computes from the stored profile:
    for a non-negative limit, at most [limit] entries, in descending order
    of count plus recency boost, each carrying a tag of the stored profile
    or of a recent like. *)
Theorem rankPreferredTags_shape (likedTags recentLikes : list User.LikedTag) o now :
  (0 ≤ limit o)%Z →
  length (rankPreferredTags likedTags recentLikes o now) ≤ Z.to_nat (limit o)
  ∧ StronglySorted (λ a b, (preferenceScore now b ≤ preferenceScore now a)%Z)
      (rankPreferredTags likedTags recentLikes o now)
  ∧ ∀ e, e ∈ rankPreferredTags likedTags recentLikes o now →
         User.tag e ∈ User.tag <$> likedTags ∨ User.tag e ∈ User.tag <$> recentLikes.
Proof.
  intros Hl. unfold rankPreferredTags.
  set (merged := if includeRecent o then _ else likedTags).
  split; [by apply slice0_length|]. split.
  - apply slice0_sorted. apply (sort_key_sorted (preferenceScore now)).
  - intros e He.
    assert (e ∈ merged) as Hin.
    { eapply elem_of_sublist in He; [|apply slice0_sublist].
      by rewrite sort_perm in He. }
    assert (User.tag e ∈ User.tag <$> merged) as Htag by (by apply list_elem_of_fmap_2).
    unfold merged in Htag. destruct (includeRecent o); [|by left].
    by apply mergeAll_tags in Htag.
Qed.

Lemma rankPreferredTags_shape_witness :
  length (rankPreferredTags Scenario.catsAndDogs [User.mkLikedTag "dogs" 6 5] defaultTagOptions 9)
    ≤ Z.to_nat (limit defaultTagOptions)
  ∧ StronglySorted (λ a b, (preferenceScore 9 b ≤ preferenceScore 9 a)%Z)
      (rankPreferredTags Scenario.catsAndDogs [User.mkLikedTag "dogs" 6 5] defaultTagOptions 9)
  ∧ ∀ e, e ∈ rankPreferredTags Scenario.catsAndDogs [User.mkLikedTag "dogs" 6 5]
               defaultTagOptions 9 →
         User.tag e ∈ User.tag <$> Scenario.catsAndDogs
         ∨ User.tag e ∈ User.tag <$> [User.mkLikedTag "dogs" 6 5].
Proof.
  apply (rankPreferredTags_shape Scenario.catsAndDogs [User.mkLikedTag "dogs" 6 5]
           defaultTagOptions 9).
  simpl. lia.
Defined.

(** Recent likes count double: two stored dogs and six recent ones make
    fourteen, which passes the ten cats. *)
Example rankPreferredTags_recent_first :
  rankPreferredTags Scenario.catsAndDogs [User.mkLikedTag "dogs" 6 5] defaultTagOptions 9
  = [User.mkLikedTag "dogs" 14 9; User.mkLikedTag "cats" 10 0].
Proof. vm_compute. reflexivity. Qed.

(** The two paths of [getUserPreferredTags]. *)
Lemma getUserPreferredTags_hit w userId o now (l : list User.LikedTag) :
  useCache o = true →
  CacheService.get (cache w) (USER_LIKED_TAGS userId) now = Some (CachedTags l) →
  getUserPreferredTags getRecentLikedTags w userId o now = (slice0 l (limit o), w).
Proof.
  intros Hc Hget. unfold getUserPreferredTags, preferredTagsBody. by rewrite Hc, Hget.
Qed.

Lemma getUserPreferredTags_miss w userId o now (likedTags : list User.LikedTag) :
  (if useCache o then CacheService.get (cache w) (USER_LIKED_TAGS userId) now else None) = None →
  dbConnected w = true →
  userDocs w !! userId = Some likedTags →
  getUserPreferredTags getRecentLikedTags w userId o now
  = (rankPreferredTags likedTags
       (if includeRecent o then getRecentLikedTags userId 30%Z now else []) o now,
     if useCache o
     then withCache w
            (CacheService.set (cache w) (USER_LIKED_TAGS userId)
               (CachedTags
                  (rankPreferredTags likedTags
                     (if includeRecent o then getRecentLikedTags userId 30%Z now else [])
                     o now))
               (Some 300%Z) now).2
     else w).
Proof.
  intros Hmiss Hdb Hu. unfold getUserPreferredTags, preferredTagsBody, findUserById.
  rewrite Hmiss, Hdb. simpl. by rewrite Hu.
Qed.

(** X17.  Read after write.  When a call with [useCache] misses the cache
    and computes the tags of a known user while the cache is available,
    every call with [useCache] during the next 300 seconds is answered
    from the cache with the first [limit] entries of that result, and
    does not change the state.  With the same non-negative limit it
    returns the same list; a larger limit does not bring back the entries
    the first call cut off. *)
Theorem getUserPreferredTags_read_after_write w userId (o1 o2 : TagOptions) (now now2 : Z)
    (likedTags : list User.LikedTag) :
  useCache o1 = true → useCache o2 = true →
  CacheService.isAvailable (cache w) = true →
  CacheService.get (cache w) (USER_LIKED_TAGS userId) now = None →
  dbConnected w = true →
  userDocs w !! userId = Some likedTags →
  (now ≤ now2 < now + 300000)%Z →
  let r1 := (getUserPreferredTags getRecentLikedTags w userId o1 now).1 in
  let w1 := (getUserPreferredTags getRecentLikedTags w userId o1 now).2 in
  getUserPreferredTags getRecentLikedTags w1 userId o2 now2 = (slice0 r1 (limit o2), w1)
  ∧ ((0 ≤ limit o1 ≤ limit o2)%Z →
     (getUserPreferredTags getRecentLikedTags w1 userId o2 now2).1 = r1).
Proof.
  intros Hc1 Hc2 Hav Hmiss Hdb Hu Hnow r1 w1.
  assert (getUserPreferredTags getRecentLikedTags w1 userId o2 now2 = (slice0 r1 (limit o2), w1))
    as Hhit.
  { apply getUserPreferredTags_hit; [done|].
    unfold w1, r1. rewrite (getUserPreferredTags_miss w userId o1 now likedTags);
      [|by rewrite Hc1|done|done].
    rewrite Hc1. simpl. unfold CacheService.set, CacheService.get. rewrite Hav. simpl.
    rewrite lookup_insert_eq. unfold CacheService.live. simpl.
    rewrite bool_decide_eq_true_2 by lia. done. }
  split; [done|]. intros Hlim. rewrite Hhit. simpl.
  apply slice0_short; [|lia].
  assert (length r1 ≤ Z.to_nat (limit o1)); [|lia].
  unfold r1. rewrite (getUserPreferredTags_miss w userId o1 now likedTags);
    [|by rewrite Hc1|done|done].
  simpl. apply rankPreferredTags_shape_length. lia.
Qed.

(** On a miss the result does not depend on [useCache]. *)
Lemma getUserPreferredTags_miss_uncached w userId o now :
  CacheService.get (cache w) (USER_LIKED_TAGS userId) now = None →
  (getUserPreferredTags getRecentLikedTags w userId o now).1
  = (getUserPreferredTags getRecentLikedTags w userId
       (mkTagOptions false (limit o) (includeRecent o)) now).1.
Proof.
  intros Hmiss. unfold getUserPreferredTags, preferredTagsBody, findUserById. simpl.
  rewrite Hmiss. destruct (useCache o); destruct (dbConnected w); simpl; try done;
    by destruct (userDocs w !! userId).
Qed.

(** X18.  What [getUserPreferredTags] never does: it writes nothing but
    the cache entry [tags:user:U].  Posts, user documents (the doubled
    counts of recent likes are not saved) and all other cache keys are as
    before, and so is everything when the call fails: with the database
    down, with an unknown user, or with a cached value that is not a list,
    the result is [] and the state is unchanged. *)
Theorem getUserPreferredTags_frame w userId o now :
  let w' := (getUserPreferredTags getRecentLikedTags w userId o now).2 in
  postDocs w' = postDocs w
  ∧ userDocs w' = userDocs w
  ∧ dbConnected w' = dbConnected w
  ∧ (∀ key, key ≠ USER_LIKED_TAGS userId →
       CacheService.store (cache w') !! key = CacheService.store (cache w) !! key)
  ∧ ((if useCache o then CacheService.get (cache w) (USER_LIKED_TAGS userId) now else None)
       = None →
     dbConnected w = false ∨ userDocs w !! userId = None →
     getUserPreferredTags getRecentLikedTags w userId o now = ([], w))
  ∧ (∀ page, useCache o = true →
       CacheService.get (cache w) (USER_LIKED_TAGS userId) now = Some (CachedFeed page) →
       getUserPreferredTags getRecentLikedTags w userId o now = ([], w)).
Proof.
  intros w'. subst w'.
  unfold getUserPreferredTags, preferredTagsBody, findUserById.
  split; [|split; [|split; [|split; [|split]]]].
  1-3: destruct (if useCache o then _ else None) as [[pg|l]|]; simpl; try done;
       destruct (dbConnected w) eqn:Hdb; simpl; try done;
       destruct (userDocs w !! userId); simpl; try done;
       destruct (useCache o); simpl; done.
  - intros key Hne.
    destruct (if useCache o then _ else None) as [[pg|l]|]; simpl; try done.
    destruct (dbConnected w) eqn:Hdb; simpl; try done.
    destruct (userDocs w !! userId); simpl; try done.
    destruct (useCache o); simpl; try done.
    unfold CacheService.set.
    destruct (CacheService.isAvailable (cache w)); simpl; [|done].
    by rewrite lookup_insert_ne.
  - intros Hmiss [Hdb|Hu]; rewrite Hmiss.
    + by rewrite Hdb.
    + destruct (dbConnected w); simpl; [|done]. by rewrite Hu.
  - intros page Hc Hget. by rewrite Hc, Hget.
Qed.

(** The liked tags are saved one after the other. *)
Lemma likeLoop_users userId w (likedTags : list User.LikedTag) (calls : list (string * Z)) :
  dbConnected w = true →
  ∃ st, foldM (likeOne userId) (w, likedTags) calls = Ok st
        ∧ userDocs st.1
          = match calls with
            | [] => userDocs w
            | _ => <[ userId := User.replay likedTags calls ]> (userDocs w)
            end
        ∧ postDocs st.1 = postDocs w
        ∧ dbConnected st.1 = true
        ∧ cache st.1 = cache w.
Proof.
  revert w likedTags. induction calls as [|c calls IH]; intros w likedTags Hdb; simpl.
  { exists (w, likedTags). by repeat split. }
  unfold likeOne at 1. simpl. rewrite Hdb. simpl.
  destruct (IH (withUser w userId (User.addLikedTag likedTags c.1 c.2))
              (User.addLikedTag likedTags c.1 c.2) Hdb)
    as (st & Hst & H2 & H3 & H4 & H5).
  exists st. split; [done|]. split; [|done].
  rewrite H2. unfold withUser. simpl.
  destruct calls as [|c2 calls]; [done|].
  by rewrite insert_insert_eq.
Qed.

(** X19.  What a like does to the stored profile.  When the database is
    up, the post has tags and the user is known,
    [updateUserPreferencesOnLike] saves for that user the profile obtained
    by [addLikedTag] on each tag of the post in turn; other users and all
    posts are untouched.  In every other case (database down, unknown
    post, post without tags, unknown user) the state is left exactly as it
    was. *)
Theorem updateUserPreferencesOnLike_effect w userId (likedPostId : string) (clock : nat → Z) :
  let w' := updateUserPreferencesOnLike w userId likedPostId clock in
  (∀ p t ts likedTags,
      dbConnected w = true →
      postDocs w !! likedPostId = Some p →
      RankingService.tags p = Some (t :: ts) →
      userDocs w !! userId = Some likedTags →
      userDocs w' !! userId
      = Some (User.replay likedTags (imap (λ i t0, (t0, clock i)) (t :: ts)))
      ∧ (∀ u', u' ≠ userId → userDocs w' !! u' = userDocs w !! u')
      ∧ postDocs w' = postDocs w)
  ∧ (dbConnected w = false
     ∨ postDocs w !! likedPostId = None
     ∨ (∃ p, postDocs w !! likedPostId = Some p
             ∧ (RankingService.tags p = None ∨ RankingService.tags p = Some []))
     ∨ userDocs w !! userId = None →
     w' = w).
Proof.
  intros w'. subst w'.
  unfold updateUserPreferencesOnLike, updateBody, findPostById, findUserById.
  split.
  - intros p t ts likedTags Hdb Hp Ht Hu.
    rewrite Hdb. cbn -[foldM imap CacheService.delete]. rewrite Hp, Ht, Hu.
    cbn -[foldM imap CacheService.delete].
    destruct (likeLoop_users userId w likedTags (imap (λ i t0, (t0, clock i)) (t :: ts)) Hdb)
      as (st & -> & H2 & H3 & _).
    unfold withCache. cbn -[CacheService.delete imap User.replay].
    rewrite H2, H3.
    remember (imap (λ i t0, (t0, clock i)) (t :: ts)) as calls eqn:Hcalls.
    destruct calls as [|c calls]; [discriminate|].
    split; [|split; [|done]].
    + apply lookup_insert_eq.
    + intros u' Hne. by rewrite lookup_insert_ne.
  - intros [Hdb | [Hp | [(p & Hp & Ht) | Hu]]].
    + by rewrite Hdb.
    + destruct (dbConnected w); simpl; [|done]. by rewrite Hp.
    + destruct (dbConnected w); simpl; [|done]. rewrite Hp.
      by destruct Ht as [-> | ->].
    + destruct (dbConnected w); simpl; [|done].
      destruct (postDocs w !! likedPostId) as [p|]; [|done].
      destruct (RankingService.tags p) as [[|t ts]|]; try done.
      cbn -[foldM imap CacheService.delete]. by rewrite Hu.
Qed.

(** X20.  After a like that reaches the invalidation, the next
    [getUserPreferredTags] is not answered from the cache: with
    [useCache] it returns what it returns without, computed from the
    profile as the like left it. *)
Theorem preferred_tags_fresh_after_like w userId (likedPostId : string) (clock : nat → Z)
    o now (p : RankingService.Post) (t : string) (ts : list string) :
  dbConnected w = true →
  postDocs w !! likedPostId = Some p →
  RankingService.tags p = Some (t :: ts) →
  is_Some (userDocs w !! userId) →
  let w' := updateUserPreferencesOnLike w userId likedPostId clock in
  CacheService.get (cache w') (USER_LIKED_TAGS userId) now = None
  ∧ (getUserPreferredTags getRecentLikedTags w' userId o now).1
    = (getUserPreferredTags getRecentLikedTags w' userId
         (mkTagOptions false (limit o) (includeRecent o)) now).1.
Proof.
  intros Hdb Hp Ht Hu w'.
  assert (CacheService.get (cache w') (USER_LIKED_TAGS userId) now = None) as Hmiss.
  { unfold CacheService.get.
    destruct (update_cache_frame w userId likedPostId clock) as [Hav _]. fold w' in Hav.
    rewrite Hav.
    destruct (CacheService.isAvailable (cache w)) eqn:Hc; [|done].
    unfold w'. by rewrite (update_deletes_tags_key w userId likedPostId clock p t ts). }
  split; [done|]. by apply getUserPreferredTags_miss_uncached.
Qed.

End PreferredTagsFacts.

Section PreferredTagsScenario.
Import Js Constants Store PersonalizationService.

Lemma getUserPreferredTags_read_after_write_witness :
  let r1 := (getUserPreferredTags (λ _ _ _, []) Scenario.staleWorld "u1"
               defaultTagOptions 400000).1 in
  let w1 := (getUserPreferredTags (λ _ _ _, []) Scenario.staleWorld "u1"
               defaultTagOptions 400000).2 in
  getUserPreferredTags (λ _ _ _, []) w1 "u1" defaultTagOptions 400001
  = (slice0 r1 (limit defaultTagOptions), w1)
  ∧ ((0 ≤ limit defaultTagOptions ≤ limit defaultTagOptions)%Z →
     (getUserPreferredTags (λ _ _ _, []) w1 "u1" defaultTagOptions 400001).1 = r1).
Proof.
  apply (getUserPreferredTags_read_after_write (λ _ _ _, []) Scenario.staleWorld "u1"
           defaultTagOptions defaultTagOptions 400000 400001 []);
    try reflexivity.
  lia.
Defined.

Lemma getUserPreferredTags_frame_witness :
  getUserPreferredTags (λ _ _ _, [])
    (mkWorld false ∅ ∅ (CacheService.mkCache false ∅) : World string) "u1"
    defaultTagOptions 5
  = ([], mkWorld false ∅ ∅ (CacheService.mkCache false ∅)).
Proof.
  apply (getUserPreferredTags_frame (λ _ _ _, [])
           (mkWorld false ∅ ∅ (CacheService.mkCache false ∅) : World string) "u1"
           defaultTagOptions 5).
  - reflexivity.
  - by left.
Defined.

Lemma updateUserPreferencesOnLike_effect_witness :
  userDocs (updateUserPreferencesOnLike Scenario.staleWorld "u1" "p1" (λ i, Z.of_nat i)) !! "u1"
  = Some (User.replay [] (imap (λ i t0, (t0, Z.of_nat i)) ["cats"; "birds"]))
  ∧ (∀ u', u' ≠ "u1" →
       userDocs (updateUserPreferencesOnLike Scenario.staleWorld "u1" "p1" (λ i, Z.of_nat i))
         !! u'
       = userDocs Scenario.staleWorld !! u')
  ∧ postDocs (updateUserPreferencesOnLike Scenario.staleWorld "u1" "p1" (λ i, Z.of_nat i))
    = postDocs Scenario.staleWorld.
Proof.
  apply (proj1 (updateUserPreferencesOnLike_effect Scenario.staleWorld "u1" "p1"
                  (λ i, Z.of_nat i)) Scenario.samplePost "cats" ["birds"] []);
    reflexivity.
Defined.

Lemma preferred_tags_fresh_after_like_witness :
  let w' := updateUserPreferencesOnLike Scenario.staleWorld "u1" "p1" (λ i, Z.of_nat i) in
  CacheService.get (cache w') (USER_LIKED_TAGS "u1") 1000 = None
  ∧ (getUserPreferredTags (λ _ _ _, []) w' "u1" defaultTagOptions 1000).1
    = (getUserPreferredTags (λ _ _ _, []) w' "u1"
         (mkTagOptions false (limit defaultTagOptions) (includeRecent defaultTagOptions))
         1000).1.
Proof.
  apply (preferred_tags_fresh_after_like (λ _ _ _, []) Scenario.staleWorld "u1" "p1"
           (λ i, Z.of_nat i) defaultTagOptions 1000 Scenario.samplePost "cats" ["birds"]);
    try reflexivity.
  by eexists.
Defined.

(** Before the like the cached empty list of tags is served; after it
    the tags of the liked post are. *)
Example preferred_tags_before_and_after_like :
  (getUserPreferredTags (λ _ _ _, []) Scenario.staleWorld "u1" defaultTagOptions 1000).1 = []
  ∧ User.tag <$>
      (getUserPreferredTags (λ _ _ _, [])
         (updateUserPreferencesOnLike Scenario.staleWorld "u1" "p1" (λ i, Z.of_nat i))
         "u1" defaultTagOptions 1000).1
    = ["cats"; "birds"].
Proof. split; vm_compute; reflexivity. Qed.

End PreferredTagsScenario.

(** ** services/cacheService.js : entries and their lifetime *)

Section CacheMore.
Context {V : Type}.
Implicit Types (c : CacheService.Cache V) (key : string) (v : V).

(** X21.  On an available cache, a value stored with a positive [ttl]
    (in seconds) is returned by [get] at every time before
    [now + ttl * 1000] and at no time from then on; storing it touches no
    other key; [delete] removes the key and touches no other key.  On an
    unavailable cache [get] returns nothing, and [set] and [delete] report
    false and change nothing. *)
Theorem cache_set_get_delete c key v (ttl now now2 : Z) :
  (0 < ttl)%Z →
  (CacheService.isAvailable c = true →
     (CacheService.set c key v (Some ttl) now).1 = true
     ∧ CacheService.get (CacheService.set c key v (Some ttl) now).2 key now2
       = (if decide (now2 < now + ttl * 1000)%Z then Some v else None)
     ∧ (∀ k2, k2 ≠ key →
          CacheService.get (CacheService.set c key v (Some ttl) now).2 k2 now2
          = CacheService.get c k2 now2)
     ∧ CacheService.get (CacheService.delete c key).2 key now2 = None
     ∧ (∀ k2, k2 ≠ key →
          CacheService.get (CacheService.delete c key).2 k2 now2 = CacheService.get c k2 now2))
  ∧ (CacheService.isAvailable c = false →
     CacheService.get c key now2 = None
     ∧ CacheService.set c key v (Some ttl) now = (false, c)
     ∧ CacheService.delete c key = (false, c)).
Proof.
  intros Httl. unfold CacheService.set, CacheService.get, CacheService.delete.
  split; intros Hav.
  all: rewrite ?Hav; simpl. 2: done.
  rewrite decide_False by lia. simpl. rewrite ?Hav.
  rewrite lookup_insert_eq, lookup_delete_eq. unfold CacheService.live. simpl.
  repeat split.
  - destruct (decide (now2 < now + ttl * 1000)%Z).
    + by rewrite bool_decide_eq_true_2.
    + by rewrite bool_decide_eq_false_2.
  - intros k2 Hne. by rewrite lookup_insert_ne.
  - intros k2 Hne. by rewrite lookup_delete_ne.
Qed.

End CacheMore.

Lemma cache_set_get_delete_witness :
  CacheService.get
    (CacheService.set (CacheService.mkCache true ∅) "k" 7%Z (Some 300%Z) 1000).2 "k" 300999
  = (if decide (300999 < 1000 + 300 * 1000)%Z then Some 7%Z else None).
Proof.
  apply (cache_set_get_delete (CacheService.mkCache true ∅) "k" 7%Z 300 1000 300999);
    [lia | reflexivity].
Defined.

(** ** controllers/feedController.js : the feed cache *)

Section FeedMore.
Import Js Constants Store FeedController.
Context {FeedPost : Type}.
Context (postId : FeedPost → string).
Context (buildFeed :
  World FeedPost → string → Query → Z → Result (list FeedPost) * World FeedPost).

Implicit Types (w : World FeedPost) (userId : string) (q : Query).

Lemma limitNum_bounds q : (1 ≤ limitNum q ≤ 100)%Z ∧ (1 ≤ pageNum q)%Z.
Proof. unfold limitNum, pageNum, MAX_PAGE_SIZE. lia. Qed.

Lemma feed_pagination_shape w userId q (now : Z) (enriched : list FeedPost)
    (w1 : World FeedPost) :
  (if q_refresh q then None else CacheService.get (cache w) (cacheKey userId q) now) = None →
  buildFeed w userId q now = (Ok enriched, w1) →
  ∃ pg,
    getPersonalizedFeed postId buildFeed w userId q now
    = (Json200 (Some enriched) (Some pg) false,
       withCache w1
         (CacheService.set (cache w1) (cacheKey userId q)
            (CachedFeed (mkFeedPage enriched pg)) (Some FEED_CACHE_TTL) now).2)
    ∧ pg = mkPagination (pageNum q) (limitNum q)
             (bool_decide (Z.of_nat (length enriched) = limitNum q))
             (postId <$> last enriched) (length enriched).
Proof.
  intros Hmiss Hbuild. unfold getPersonalizedFeed. rewrite Hmiss, Hbuild.
  by eexists.
Qed.

(** X22.  The page a computed feed response carries is consistent, for
    [page] and [limit] parameters that are absent or integers: the page
    size is between 1 and 100 whatever was asked, the page number is at
    least 1, [totalFetched] is the number of posts, [hasNextPage] holds
    exactly when the page is full, a response that announces a next page
    carries a cursor, and the cursor is missing exactly when there is no
    post. *)
Theorem feed_pagination_consistent w userId q (now : Z) (enriched : list FeedPost)
    (w1 : World FeedPost) :
  (if q_refresh q then None else CacheService.get (cache w) (cacheKey userId q) now) = None →
  buildFeed w userId q now = (Ok enriched, w1) →
  ∃ pg w2,
    getPersonalizedFeed postId buildFeed w userId q now
    = (Json200 (Some enriched) (Some pg) false, w2)
    ∧ (1 ≤ limit pg ≤ 100)%Z
    ∧ (1 ≤ currentPage pg)%Z
    ∧ totalFetched pg = length enriched
    ∧ (hasNextPage pg = true ↔ Z.of_nat (length enriched) = limit pg)
    ∧ (hasNextPage pg = true → is_Some (nextLastPostId pg))
    ∧ (nextLastPostId pg = None ↔ enriched = []).
Proof.
  intros Hmiss Hbuild. unfold getPersonalizedFeed. rewrite Hmiss, Hbuild.
  eexists _, _. split; [reflexivity|]. simpl.
  pose proof (limitNum_bounds q) as [Hlim Hpage].
  split; [done|]. split; [done|]. split; [done|].
  assert (postId <$> last enriched = None ↔ enriched = []) as Hlast.
  { destruct enriched as [|x l] using rev_ind; [done|].
    rewrite last_snoc. simpl. split; [done|]. intros Heq. by destruct l. }
  split; [apply bool_decide_eq_true|]. split; [|done].
  intros Hfull%bool_decide_eq_true.
  destruct (postId <$> last enriched) eqn:Hl; [by eexists|].
  destruct Hlast as [Hnil _]. rewrite (Hnil eq_refl) in Hfull. simpl in Hfull. lia.
Qed.

(** X23.  Read after write on the feed.  Once a feed page has been
    computed and the cache is available, every request of the same user
    without [refresh] and with the same page number, page size and tag
    filter is answered during the next [FEED_CACHE_TTL] seconds with that
    page, flagged as cached, and leaves the state alone.  The cursor
    [lastPostId] of the request plays no part. *)
Theorem feed_read_after_write w userId q (q2 : Query) (now now2 : Z)
    (enriched : list FeedPost) (w1 : World FeedPost) :
  (if q_refresh q then None else CacheService.get (cache w) (cacheKey userId q) now) = None →
  buildFeed w userId q now = (Ok enriched, w1) →
  CacheService.isAvailable (cache w1) = true →
  (now ≤ now2 < now + FEED_CACHE_TTL * 1000)%Z →
  q_refresh q2 = false →
  pageNum q2 = pageNum q → limitNum q2 = limitNum q → tagsOrAll q2 = tagsOrAll q →
  ∃ pg,
    (getPersonalizedFeed postId buildFeed w userId q now).1
    = Json200 (Some enriched) (Some pg) false
    ∧ getPersonalizedFeed postId buildFeed
        (getPersonalizedFeed postId buildFeed w userId q now).2 userId q2 now2
      = (Json200 (Some enriched) (Some pg) true,
         (getPersonalizedFeed postId buildFeed w userId q now).2).
Proof.
  intros Hmiss Hbuild Hav Hnow Hr Hp Hl Ht.
  assert (cacheKey userId q2 = cacheKey userId q) as Hkey.
  { unfold cacheKey. by rewrite Hp, Hl, Ht. }
  destruct (feed_pagination_shape w userId q now enriched w1 Hmiss Hbuild) as [pg [Hfirst Hpg]].
  rewrite Hfirst. simpl. exists pg. split; [reflexivity|].
  unfold getPersonalizedFeed. rewrite Hr, Hkey.
  unfold CacheService.set, CacheService.get. rewrite Hav. simpl.
  rewrite lookup_insert_eq. unfold CacheService.live. simpl.
  rewrite bool_decide_eq_true_2 by lia. simpl. by rewrite Hpg.
Qed.

Lemma append_ne_self (s r : string) (c : Ascii.ascii) : s +:+ String c r ≠ s.
Proof. induction s as [|a s IH]; simpl; [done|]. intros [= Heq]. by apply IH. Qed.

(** X24.  [clearFeedCache] deletes the bare key [feed:user:U], which is
    never a key the feed is cached under: every cached page of the user is
    still there, and the next request without [refresh] is still answered
    from the cache. *)
Theorem clearFeedCache_keeps_pages w userId q (now : Z) :
  CacheService.store (cache (clearFeedCache w userId)) !! cacheKey userId q
  = CacheService.store (cache w) !! cacheKey userId q
  ∧ ∀ c, q_refresh q = false →
      CacheService.get (cache w) (cacheKey userId q) now = Some c →
      getPersonalizedFeed postId buildFeed (clearFeedCache w userId) userId q now
      = (Json200 (cachedPosts c) (cachedPagination c) true, clearFeedCache w userId).
Proof.
  assert (cacheKey userId q ≠ USER_FEED userId) as Hne.
  { unfold cacheKey. apply append_ne_self. }
  assert (CacheService.store (cache (clearFeedCache w userId)) !! cacheKey userId q
          = CacheService.store (cache w) !! cacheKey userId q) as Hstore.
  { unfold clearFeedCache, withCache. simpl. by apply delete_other. }
  split; [done|]. intros c Hr Hget.
  unfold getPersonalizedFeed. rewrite Hr.
  rewrite (get_frame (cache w) (cache (clearFeedCache w userId)));
    [by rewrite Hget | | done].
  unfold clearFeedCache, withCache. simpl. apply delete_available.
Qed.

End FeedMore.

Section FeedScenario.
Import Js Constants Store FeedController.

Lemma feed_pagination_consistent_witness :
  ∃ pg w2,
    getPersonalizedFeed Scenario.idOf Scenario.twoPosts Scenario.staleWorld "u1"
      (mkQuery (Some 0%Z) (Some 2%Z) None None true) 1000
    = (Json200 (Some ["p1"; "p2"]) (Some pg) false, w2)
    ∧ (1 ≤ limit pg ≤ 100)%Z
    ∧ (1 ≤ currentPage pg)%Z
    ∧ totalFetched pg = 2
    ∧ (hasNextPage pg = true ↔ Z.of_nat 2 = limit pg)
    ∧ (hasNextPage pg = true → is_Some (nextLastPostId pg))
    ∧ (nextLastPostId pg = None ↔ ["p1"; "p2"] = []).
Proof.
  apply (feed_pagination_consistent Scenario.idOf Scenario.twoPosts Scenario.staleWorld "u1"
           (mkQuery (Some 0%Z) (Some 2%Z) None None true) 1000 ["p1"; "p2"] Scenario.staleWorld);
    reflexivity.
Defined.

Lemma feed_read_after_write_witness :
  ∃ pg,
    (getPersonalizedFeed Scenario.idOf Scenario.twoPosts Scenario.staleWorld "u1"
       (mkQuery (Some 2%Z) (Some 2%Z) None None false) 1000).1
    = Json200 (Some ["p1"; "p2"]) (Some pg) false
    ∧ getPersonalizedFeed Scenario.idOf Scenario.twoPosts
        (getPersonalizedFeed Scenario.idOf Scenario.twoPosts Scenario.staleWorld "u1"
           (mkQuery (Some 2%Z) (Some 2%Z) None None false) 1000).2
        "u1" (mkQuery (Some 2%Z) (Some 2%Z) (Some "p7") None false) 300999
      = (Json200 (Some ["p1"; "p2"]) (Some pg) true,
         (getPersonalizedFeed Scenario.idOf Scenario.twoPosts Scenario.staleWorld "u1"
            (mkQuery (Some 2%Z) (Some 2%Z) None None false) 1000).2).
Proof.
  apply (feed_read_after_write Scenario.idOf Scenario.twoPosts Scenario.staleWorld "u1"
           (mkQuery (Some 2%Z) (Some 2%Z) None None false)
           (mkQuery (Some 2%Z) (Some 2%Z) (Some "p7") None false)
           1000 300999 ["p1"; "p2"] Scenario.staleWorld);
    try reflexivity.
  unfold FEED_CACHE_TTL. lia.
Defined.

End FeedScenario.

Section RelativeTimeFacts.
Import FeedController.

(** X25.  [getRelativeTime] with [d] the whole seconds between [date] and
    now: below one minute, and for every date in the future, the label is
    "just now"; then a number of minutes from 1 to 59, of hours from 1 to
    23, of days from 1 to 6, each rounded down; from one week on the
    locale date. *)
Theorem getRelativeTime_labels (toLocaleDateString : Z → string) (date now : Z) :
  let d := ((now - date) / 1000)%Z in
  let label := getRelativeTime toLocaleDateString date now in
  ((now < date + 60000)%Z → label = "just now")
  ∧ ((date + 60000 ≤ now < date + 3600000)%Z →
     (1 ≤ d / 60 ≤ 59)%Z ∧ label = pretty (d / 60)%Z +:+ "m ago")
  ∧ ((date + 3600000 ≤ now < date + 86400000)%Z →
     (1 ≤ d / 3600 ≤ 23)%Z ∧ label = pretty (d / 3600)%Z +:+ "h ago")
  ∧ ((date + 86400000 ≤ now < date + 604800000)%Z →
     (1 ≤ d / 86400 ≤ 6)%Z ∧ label = pretty (d / 86400)%Z +:+ "d ago")
  ∧ ((date + 604800000 ≤ now)%Z → label = toLocaleDateString date).
Proof.
  intros d label. subst label. unfold getRelativeTime. fold d.
  assert (1000 * d ≤ now - date < 1000 * d + 1000)%Z as Hd
    by (subst d; Z.to_euclidean_division_equations; lia).
  clearbody d.
  repeat split.
  - intros H. rewrite (proj2 (Z.ltb_lt _ _)) by lia. done.
  - Z.to_euclidean_division_equations; lia.
  - Z.to_euclidean_division_equations; lia.
  - rewrite (proj2 (Z.ltb_ge _ _)) by lia. rewrite (proj2 (Z.ltb_lt _ _)) by lia. done.
  - Z.to_euclidean_division_equations; lia.
  - Z.to_euclidean_division_equations; lia.
  - rewrite !(proj2 (Z.ltb_ge _ _)) by lia. rewrite (proj2 (Z.ltb_lt _ _)) by lia. done.
  - Z.to_euclidean_division_equations; lia.
  - Z.to_euclidean_division_equations; lia.
  - rewrite !(proj2 (Z.ltb_ge _ _)) by lia. rewrite (proj2 (Z.ltb_lt _ _)) by lia. done.
  - intros H. rewrite !(proj2 (Z.ltb_ge _ _)) by lia. done.
Qed.

Example getRelativeTime_examples :
  getRelativeTime (λ _, "1/1/1970") 0 59999 = "just now"
  ∧ getRelativeTime (λ _, "1/1/1970") 5000 0 = "just now"
  ∧ getRelativeTime (λ _, "1/1/1970") 0 3599999 = "59m ago"
  ∧ getRelativeTime (λ _, "1/1/1970") 0 3600000 = "1h ago"
  ∧ getRelativeTime (λ _, "1/1/1970") 0 604799999 = "6d ago"
  ∧ getRelativeTime (λ _, "1/1/1970") 0 604800000 = "1/1/1970".
Proof. repeat split; vm_compute; reflexivity. Qed.

End RelativeTimeFacts.

(** ** models/Post.js : the tag hook *)

Section TagHookFacts.
Import Js PostModel.

Implicit Types (s t : string) (l tags : list string).

Lemma isWordChar_lower (c : Ascii.ascii) : isWordChar (lower_ascii c) = isWordChar c.
Proof. destruct c as [[] [] [] [] [] [] [] []]; reflexivity. Qed.

Lemma isWordChar_not_space (c : Ascii.ascii) : isWordChar c = true → isSpace c = false.
Proof. destruct c as [[] [] [] [] [] [] [] []]; simpl; done. Qed.

Lemma stripNonWord_idemp s : stripNonWord (stripNonWord s) = stripNonWord s.
Proof.
  induction s as [|c s IH]; simpl; [done|].
  destruct (isWordChar c) eqn:Hc; simpl; [|done]. by rewrite Hc, IH.
Qed.

Lemma toLowerCase_stripNonWord s :
  toLowerCase (stripNonWord s) = stripNonWord (toLowerCase s).
Proof.
  induction s as [|c s IH]; simpl; [done|].
  rewrite isWordChar_lower. destruct (isWordChar c); simpl; by rewrite IH.
Qed.

(** A string of word characters has nothing to trim. *)
Lemma trimEnd_stripNonWord s : trimEnd (stripNonWord s) = stripNonWord s.
Proof.
  induction s as [|c s IH]; simpl; [done|].
  destruct (isWordChar c) eqn:Hc; simpl; [|done]. rewrite IH.
  destruct (stripNonWord s); [|done]. by rewrite isWordChar_not_space.
Qed.

Lemma trim_stripNonWord s : trim (stripNonWord s) = stripNonWord s.
Proof.
  unfold trim.
  assert (trimStart (stripNonWord s) = stripNonWord s) as ->.
  { induction s as [|c s IH]; simpl; [done|].
    destruct (isWordChar c) eqn:Hc; simpl; [|done]. by rewrite isWordChar_not_space. }
  apply trimEnd_stripNonWord.
Qed.

Lemma cleanTag_idemp t : cleanTag (cleanTag t) = cleanTag t.
Proof.
  unfold cleanTag. rewrite trim_stripNonWord.
  by rewrite toLowerCase_stripNonWord, toLowerCase_idemp, stripNonWord_idemp.
Qed.

Lemma uniq_elem_of l x : x ∈ uniq l ↔ x ∈ l.
Proof.
  induction l as [|y l IH]; simpl; [done|].
  rewrite !elem_of_cons, list_elem_of_filter, IH.
  destruct (decide (x = y)) as [->|Hne]; [by split; intros; left|].
  split; [intros [?|[_ ?]]; [done | by right] | intros [?|?]; [done | by right]].
Qed.

Lemma uniq_NoDup l : NoDup (uniq l).
Proof.
  induction l as [|y l IH]; simpl; [constructor|].
  constructor; [|by apply NoDup_filter].
  rewrite list_elem_of_filter. by intros [Hne _].
Qed.

Lemma uniq_length l : length (uniq l) ≤ length l.
Proof.
  induction l as [|y l IH]; simpl; [done|].
  pose proof (length_filter (λ z, z ≠ y) (uniq l)). lia.
Qed.

Lemma uniq_NoDup_id l : NoDup l → uniq l = l.
Proof.
  induction 1 as [|y l Hy Hl IH]; simpl; [done|]. rewrite IH. f_equal.
  clear IH Hl. induction l as [|z l IH]; [done|].
  rewrite filter_cons. apply not_elem_of_cons in Hy as [Hne Hy].
  rewrite decide_True by done. f_equal. by apply IH.
Qed.

Lemma filter_all {A} (P : A → Prop) `{∀ x, Decision (P x)} (l : list A) :
  Forall P l → filter P l = l.
Proof.
  induction 1 as [|x l Hx Hl IH]; [done|].
  rewrite filter_cons, decide_True by done. by rewrite IH.
Qed.

Lemma nonempty_length t : t ≠ EmptyString ↔ 0 < String.length t.
Proof. destruct t; simpl; split; (done || lia). Qed.

(** What the hook leaves: at most 30 tags, each one non-empty, cleaned,
    and the cleaned form of a given tag, without duplicates. *)
Lemma cleanTags_shape tags :
  0 < length tags ≤ 30 →
  ∃ r, cleanTags tags = Ok r
       ∧ length r ≤ 30
       ∧ NoDup r
       ∧ Forall (λ t, t ≠ EmptyString ∧ cleanTag t = t ∧ ∃ t0, t0 ∈ tags ∧ t = cleanTag t0) r.
Proof.
  intros [Hpos Hmax]. unfold cleanTags.
  rewrite decide_False by lia. rewrite decide_True by lia.
  eexists. split; [reflexivity|]. rewrite slice0_take by lia.
  split; [|split; [apply uniq_NoDup|]].
  - etrans; [apply uniq_length|]. rewrite length_take. lia.
  - apply Forall_forall. intros t Ht.
    apply (proj1 (uniq_elem_of _ _)) in Ht. apply subseteq_take in Ht.
    apply list_elem_of_filter in Ht as [Hlen Ht].
    apply list_elem_of_fmap in Ht as (t0 & -> & Ht0).
    apply list_elem_of_filter in Ht0 as [_ Ht0].
    split; [by apply nonempty_length|]. split; [apply cleanTag_idemp | eauto].
Qed.

Lemma cleanTags_refused tags :
  30 < length tags → cleanTags tags = Throw "Cannot have more than 30 tags per post".
Proof. intros H. unfold cleanTags. by rewrite decide_True by lia. Qed.

Lemma cleanTags_accepted tags :
  length tags ≤ 30 →
  ∃ r, cleanTags tags = Ok r
       ∧ length r ≤ 30
       ∧ NoDup r
       ∧ Forall (λ t, t ≠ EmptyString ∧ cleanTag t = t ∧ ∃ t0, t0 ∈ tags ∧ t = cleanTag t0) r.
Proof.
  intros H. destruct tags as [|t0 tags].
  - exists []. repeat split; [simpl; lia | constructor | constructor].
  - apply cleanTags_shape. simpl in *. lia.
Qed.

(** X26.  The tag hook of [Post].  More than 30 tags are refused with an
    error.  Otherwise the hook returns at most 30 tags without duplicates;
    each of them is non-empty, is the cleaned form (trimmed, lower-cased,
    stripped of every character outside [a-zA-Z0-9_]) of one of the given
    tags, and is left alone by the cleaning. *)
Theorem cleanTags_invariants tags :
  (30 < length tags → cleanTags tags = Throw "Cannot have more than 30 tags per post")
  ∧ (length tags ≤ 30 →
     ∃ r, cleanTags tags = Ok r
          ∧ length r ≤ 30
          ∧ NoDup r
          ∧ Forall (λ t, t ≠ EmptyString ∧ cleanTag t = t
                         ∧ ∃ t0, t0 ∈ tags ∧ t = cleanTag t0) r).
Proof. split; [apply cleanTags_refused | apply cleanTags_accepted]. Qed.

(** X27.  The tag hook is idempotent: validating a post a second time
    leaves the tags it saved the first time. *)
Theorem cleanTags_idempotent tags r :
  cleanTags tags = Ok r → cleanTags r = Ok r.
Proof.
  intros Hr.
  destruct (decide (30 < length tags)) as [Hlen|Hlen].
  { rewrite cleanTags_refused in Hr by done. discriminate. }
  destruct (cleanTags_accepted tags) as (r' & Hr' & Hmax & Hnd & Hall); [lia|].
  rewrite Hr in Hr'. injection Hr' as <-.
  unfold cleanTags. rewrite decide_False by lia.
  destruct (decide (0 < length r)); [|done].
  rewrite (filter_all _ r).
  2:{ eapply Forall_impl; [exact Hall|]. intros t (Hne & Hclean & _). simpl.
      split; [done|]. apply nonempty_length. rewrite <- Hclean at 1. unfold cleanTag.
      rewrite trim_stripNonWord. fold (cleanTag t). by rewrite Hclean. }
  assert (cleanTag <$> r = r) as Hfm.
  { clear -Hall. induction Hall as [|t r (_ & Hclean & _) _ IH]; [done|].
    by rewrite fmap_cons, Hclean, IH. }
  rewrite Hfm. rewrite (filter_all _ r).
  2:{ eapply Forall_impl; [exact Hall|]. intros t (Hne & _). simpl. by apply nonempty_length. }
  rewrite slice0_take by lia. rewrite take_ge by lia. by rewrite uniq_NoDup_id.
Qed.

Lemma cleanTags_idempotent_witness :
  cleanTags ["cats"; "c"; "dogs"] = Ok ["cats"; "c"; "dogs"].
Proof.
  apply (cleanTags_idempotent [" Cats "; "cats"; "C++"; "  "; "dogs!"; "?"]).
  vm_compute. reflexivity.
Defined.

Example cleanTags_example :
  cleanTags [" Cats "; "cats"; "C++"; "  "; "dogs!"; "?"] = Ok ["cats"; "c"; "dogs"].
Proof. vm_compute. reflexivity. Qed.

End TagHookFacts.

(** ** models/Post.js : the engagement counters *)

Section CounterFacts.
Import PostModel.
Local Open Scope Q_scope.

Implicit Types (d : Counters).

Lemma qmin_bounds (x : Q) : 0 <= x → 0 <= qmin x 1 ∧ qmin x 1 <= 1.
Proof.
  intros Hx. unfold qmin. destruct (Qle_bool x 1) eqn:Hle.
  - apply Qle_bool_iff in Hle. done.
  - split; [done | apply Qle_refl].
Qed.

Lemma rate_bounds d :
  (0 ≤ likesCount d + commentsCount d + sharesCount d)%Z →
  0 <= engagementRate (updateEngagementRate d) ∧ engagementRate (updateEngagementRate d) <= 1.
Proof.
  intros Htot. simpl. apply qmin_bounds.
  apply Qle_shift_div_l.
  - change 0 with (inject_Z 0). rewrite <- Zlt_Qlt. lia.
  - rewrite Qmult_0_l. change 0 with (inject_Z 0). by rewrite <- Zle_Qle.
Qed.

(** X28.  The schema of [Post] requires counters of at least 0 and an
    engagement rate between 0 and 1.  [incrementViews], [incrementLikes]
    and [decrementLikes] keep a post within these bounds. *)
Theorem counters_stay_valid d (op : Counters → Counters) :
  (0 ≤ likesCount d)%Z → (0 ≤ commentsCount d)%Z →
  (0 ≤ sharesCount d)%Z → (0 ≤ viewsCount d)%Z →
  op ∈ [incrementViews; incrementLikes; decrementLikes] →
  (0 ≤ likesCount (op d))%Z ∧ (0 ≤ commentsCount (op d))%Z
  ∧ (0 ≤ sharesCount (op d))%Z ∧ (0 ≤ viewsCount (op d))%Z
  ∧ 0 <= engagementRate (op d) ∧ engagementRate (op d) <= 1.
Proof.
  intros Hl Hc Hs Hv Hop.
  assert (op = incrementViews ∨ op = incrementLikes ∨ op = decrementLikes) as Hcases.
  { apply elem_of_cons in Hop as [?|Hop]; [by left|].
    apply elem_of_cons in Hop as [?|Hop]; [by right; left|].
    apply elem_of_cons in Hop as [?|Hop]; [by right; right|].
    by apply elem_of_nil in Hop. }
  destruct Hcases as [-> | [-> | ->]].
  all: unfold incrementViews, incrementLikes, decrementLikes.
  all: repeat (split; [simpl; lia|]).
  all: apply rate_bounds; simpl; lia.
Qed.

(** X29.  A like followed by an unlike restores the counters of a post
    whose like counter is not negative and below 2^53, where adding 1 to a
    Number is exact: the result is the post with its engagement rate
    brought up to date.  An unlike followed by a like does not restore a
    post without likes. *)
Theorem like_unlike_round_trip d :
  (0 ≤ likesCount d < 2 ^ 53)%Z →
  decrementLikes (incrementLikes d) = updateEngagementRate d
  ∧ (likesCount d = 0%Z →
     likesCount (incrementLikes (decrementLikes d)) = 1%Z).
Proof.
  intros [Hl _]. split.
  - unfold decrementLikes, incrementLikes, updateEngagementRate. simpl.
    replace (Z.max 0 (likesCount d + 1 - 1)) with (likesCount d) by lia. done.
  - intros H0. simpl. rewrite H0. done.
Qed.

End CounterFacts.

Lemma counters_stay_valid_witness :
  (0 <= PostModel.engagementRate
          (PostModel.incrementLikes (PostModel.mkCounters 3 1 0 2 0 0 0 0)))%Q
  ∧ (PostModel.engagementRate
       (PostModel.incrementLikes (PostModel.mkCounters 3 1 0 2 0 0 0 0)) <= 1)%Q.
Proof.
  apply (counters_stay_valid (PostModel.mkCounters 3 1 0 2 0 0 0 0) PostModel.incrementLikes);
    simpl; try lia.
  apply elem_of_cons; right; apply elem_of_cons; by left.
Defined.

Lemma like_unlike_round_trip_witness :
  PostModel.decrementLikes (PostModel.incrementLikes (PostModel.mkCounters 0 1 0 2 0 0 0 0))
  = PostModel.updateEngagementRate (PostModel.mkCounters 0 1 0 2 0 0 0 0).
Proof.
  apply (like_unlike_round_trip (PostModel.mkCounters 0 1 0 2 0 0 0 0)).
  simpl. split; [lia | reflexivity].
Defined.

(** ** utils/constants.js : the ranking weights *)

Section WeightFacts.
Import Constants.
Local Open Scope R_scope.

(** X30.  The ranking weights read from the environment are never 0: a
    variable set to 0 gives the default weight, like an unset one.  So a
    component cannot be switched off, and weights meant as 0, 1/2, 1/2 are
    read as 4/10, 1/2, 1/2, whose sum is above 1. *)
Theorem weights_never_zero (p r q : option R) :
  PERSONALIZATION_WEIGHT (weightsFromEnv p r q) ≠ 0
  ∧ RECENCY_WEIGHT (weightsFromEnv p r q) ≠ 0
  ∧ POPULARITY_WEIGHT (weightsFromEnv p r q) ≠ 0
  ∧ weightsFromEnv (Some 0) r q = weightsFromEnv None r q
  ∧ PERSONALIZATION_WEIGHT (weightsFromEnv (Some 0) (Some (1 / 2)) (Some (1 / 2)))
    + RECENCY_WEIGHT (weightsFromEnv (Some 0) (Some (1 / 2)) (Some (1 / 2)))
    + POPULARITY_WEIGHT (weightsFromEnv (Some 0) (Some (1 / 2)) (Some (1 / 2))) = 14 / 10.
Proof.
  assert (∀ e d, d ≠ 0 → orDefault e d ≠ 0) as Hnz.
  { intros [x|] d Hd; simpl; [|done]. by destruct (Req_dec_T x 0). }
  assert (orDefault (Some 0) (4 / 10) = 4 / 10) as H0.
  { simpl. destruct (Req_dec_T 0 0); [done | lra]. }
  assert (orDefault (Some (1 / 2)) (3 / 10) = 1 / 2) as H12.
  { simpl. destruct (Req_dec_T (1 / 2) 0); [lra | done]. }
  unfold weightsFromEnv. cbn [PERSONALIZATION_WEIGHT RECENCY_WEIGHT POPULARITY_WEIGHT].
  split; [apply Hnz; lra|]. split; [apply Hnz; lra|]. split; [apply Hnz; lra|].
  split.
  - by rewrite H0.
  - rewrite H0, H12. lra.
Qed.

End WeightFacts.

(** ** The conditional parts of the statements above, on concrete inputs *)

Section MoreScenarios.
Import Js Constants Store.

Lemma calculateTagSimilarity_jaccard_witness :
  (PersonalizationService.calculateTagSimilarity ["a"; "b"] ["b"; "a"; "a"] == 1)%Q.
Proof.
  apply (calculateTagSimilarity_jaccard ["a"; "b"] ["b"; "a"; "a"]); [discriminate|].
  intros t. rewrite !elem_of_cons, !elem_of_nil. tauto.
Defined.

Lemma clearFeedCache_keeps_pages_witness :
  FeedController.getPersonalizedFeed Scenario.idOf Scenario.emptyFeed
    (FeedController.clearFeedCache Scenario.staleWorld "u1") "u1" Scenario.defaultQuery 1000
  = (FeedController.Json200 (Some ["p9"]) (Some (mkPagination 1 20 false (Some "p9") 1)) true,
     FeedController.clearFeedCache Scenario.staleWorld "u1").
Proof.
  apply (proj2 (clearFeedCache_keeps_pages Scenario.idOf Scenario.emptyFeed
                  Scenario.staleWorld "u1" Scenario.defaultQuery 1000)
           (CachedFeed Scenario.cachedPage));
    [reflexivity | vm_compute; reflexivity].
Defined.

Lemma getRelativeTime_labels_witness :
  (1 ≤ (3599999 - 0) / 1000 / 60 ≤ 59)%Z
  ∧ FeedController.getRelativeTime (λ _, "1/1/1970") 0 3599999
    = pretty ((3599999 - 0) / 1000 / 60)%Z +:+ "m ago".
Proof.
  apply (getRelativeTime_labels (λ _, "1/1/1970") 0 3599999). lia.
Defined.

Lemma cleanTags_invariants_witness :
  ∃ r, PostModel.cleanTags [" Cats "; "cats"; "C++"] = Ok r
       ∧ length r ≤ 30
       ∧ NoDup r
       ∧ Forall (λ t, t ≠ EmptyString ∧ PostModel.cleanTag t = t
                      ∧ ∃ t0, t0 ∈ [" Cats "; "cats"; "C++"] ∧ t = PostModel.cleanTag t0) r.
Proof.
  apply (cleanTags_invariants [" Cats "; "cats"; "C++"]). simpl. lia.
Defined.

End MoreScenarios.
